(** * CryptoMonitor: the monitoring engine and its observer registry

    A shallow embedding of [app/services/price_monitor.py],
    [app/models/observer.py] and [app/models/crypto.py], and around them
    of the settings ([app/config.py]), the client of the data source
    ([app/services/coingecko_client.py]), the queries of the interface
    ([app/api/router.py]) and the demonstration monitor ([demo.py]).

    - Python floats are IEEE binary64: they are Rocq's primitive floats, and
      the arithmetic of the alert policy is the machine's.  Python's true
      division differs from IEEE in one place, a zero divisor raises
      [ZeroDivisionError]; that is written out in [py_truediv].
    - Dicts keep insertion order: they are association lists with update in
      place ([Dict]).  The set of observers is a list without duplicates,
      whose order stands for the order of the hash table, and its iterator
      checks the size of the set at every step, as Python's does.
    - Coroutines are state passing over a [World]: the monitor object, a
      clock standing for [datetime.now()], the tasks of the event loop and a
      trace of what the engine did (log records, calls of the hub, and the
      points where a coroutine is suspended, with the object as it was
      then).  An exception is a result, [Raise].
    - What is outside the engine is an input: the observers' [update]
      coroutines and the pandas kernels ([Externals]), the answer of the
      data source and what other tasks do to the registry while the engine
      is suspended ([CycleInput]).  They may raise any [Exception]; the
      [BaseException]s that are not one, such as a keyboard interrupt, are
      out of the model, but for the [CancelledError] of [stop()]. *)

From Stdlib Require Import String List Bool Arith PeanoNat Lia.
From Stdlib Require Import Floats.PrimFloat.
Import ListNotations.

Set Implicit Arguments.

(** ** Exceptions *)

(** The subclasses of [Exception] that the code raises or that the
    interpreter raises for it. *)
Inductive error : Type :=
| CoinGeckoAPIError
| RateLimitError
| ZeroDivisionError
| KeyError (key : string)
| IndexError
| AttributeError
| SetChangedSize          (* RuntimeError: Set changed size during iteration *)
| OtherError (code : nat).

(** [asyncio.CancelledError] derives from [BaseException]: an
    [except Exception] clause lets it through. *)
Inductive exn : Type :=
| Exception (e : error)
| CancelledError.

(** [isinstance(e, CoinGeckoAPIError)]: [RateLimitError] is a subclass. *)
Definition is_CoinGeckoAPIError (e : error) : bool :=
  match e with
  | CoinGeckoAPIError | RateLimitError => true
  | _ => false
  end.

Inductive result (A : Type) : Type :=
| Ok (a : A)
| Raise (e : exn).
Arguments Ok {A} a.
Arguments Raise {A} e.

(** ** Dicts: insertion-ordered, keyed by strings *)

Module Dict.
Definition t (V : Type) : Type := list (string * V).

Fixpoint get {V} (k : string) (d : t V) : option V :=
  match d with
  | [] => None
  | (k', v) :: d' => if String.eqb k k' then Some v else get k d'
  end.

(** [d[k] = v]: an existing key keeps its place, a new one goes last. *)
Fixpoint set {V} (k : string) (v : V) (d : t V) : t V :=
  match d with
  | [] => [(k, v)]
  | (k', v') :: d' =>
      if String.eqb k k' then (k', v) :: d' else (k', v') :: set k v d'
  end.

Definition keys {V} (d : t V) : list string := map fst d.
End Dict.

(** ** Data model ([app/models/crypto.py]) *)

Inductive PriceAlertType : Type :=
| PRICE_INCREASE
| PRICE_DECREASE
| VOLATILITY
| VOLUME_SPIKE
| MARKET_CAP_CHANGE.

(** [datetime.now()] values are readings of the world's clock. *)
Definition datetime : Type := nat.

Record CryptoTick : Type := {
  coin_id : string;
  symbol : string;
  price_usd : float;
  market_cap_usd : option float;
  volume_24h_usd : option float;
  price_change_24h_percent : option float;
  timestamp : datetime
}.

(** The [message] field, a formatted string derived from the other fields in
    [__post_init__], is not modelled. *)
Record PriceAlert : Type := {
  alert_coin_id : string;
  alert_symbol : string;
  alert_type : PriceAlertType;
  old_price_usd : float;
  new_price_usd : float;
  change_percent : float;
  alert_timestamp : datetime
}.

(** [rsi_14] is declared and never assigned: it keeps its default. *)
Record StatisticsModel : Type := {
  stats_coin_id : string;
  stats_symbol : string;
  current_price : float;
  sma_20 : option float;
  ema_20 : option float;
  volatility_24h : option float;
  rsi_14 : option float;
  stats_timestamp : datetime
}.

(** ** [collections.deque] with [maxlen] *)

Record deque (A : Type) : Type := {
  maxlen : nat;
  items : list A
}.

Definition deque_new {A} (n : nat) : deque A := {| maxlen := n; items := [] |}.

(** [append] adds on the right, then drops from the left while the length
    exceeds [maxlen] (one element at most). *)
Definition deque_append {A} (d : deque A) (x : A) : deque A :=
  let l := items d ++ [x] in
  {| maxlen := maxlen d;
     items := if maxlen d <? length l then tl l else l |}.

Definition deque_len {A} (d : deque A) : nat := length (items d).

(** ** The observer registry ([app/models/observer.py]) *)

(** Observers are objects compared by identity: a number stands for one. *)
Definition Observer : Type := nat.

(** The keyword arguments of [notify_observers] and [update]. *)
Record Notification : Type := {
  tick : option CryptoTick;
  alert : option PriceAlert
}.

(** A call that mutates the registry. *)
Inductive RegOp : Type :=
| Register (o : Observer)
| Unregister (o : Observer).

(** The registry is a [set]: no duplicates, iterated in its table order, for
    which the order of the list stands. *)
Definition set_add (o : Observer) (s : list Observer) : list Observer :=
  if existsb (Nat.eqb o) s then s else s ++ [o].

Definition set_discard (o : Observer) (s : list Observer) : list Observer :=
  filter (fun o' => negb (Nat.eqb o o')) s.

Definition apply_op (s : list Observer) (op : RegOp) : list Observer :=
  match op with
  | Register o => set_add o s
  | Unregister o => set_discard o s
  end.

(** ** The monitor object and the world around it *)

Record PriceMonitor : Type := {
  _observers : list Observer;
  is_running : bool;
  crypto_ids : list string;
  interval : nat;
  threshold : float;
  buffer_size : nat;
  latest_ticks : Dict.t CryptoTick;
  price_history : Dict.t (deque CryptoTick);
  latest_stats : Dict.t StatisticsModel;
  _task : option nat
}.

Definition with_observers (s : list Observer) (m : PriceMonitor) : PriceMonitor :=
  {| _observers := s; is_running := is_running m; crypto_ids := crypto_ids m;
     interval := interval m; threshold := threshold m;
     buffer_size := buffer_size m; latest_ticks := latest_ticks m;
     price_history := price_history m; latest_stats := latest_stats m;
     _task := _task m |}.

Definition with_is_running (b : bool) (m : PriceMonitor) : PriceMonitor :=
  {| _observers := _observers m; is_running := b; crypto_ids := crypto_ids m;
     interval := interval m; threshold := threshold m;
     buffer_size := buffer_size m; latest_ticks := latest_ticks m;
     price_history := price_history m; latest_stats := latest_stats m;
     _task := _task m |}.

Definition with_latest_ticks (d : Dict.t CryptoTick) (m : PriceMonitor)
  : PriceMonitor :=
  {| _observers := _observers m; is_running := is_running m;
     crypto_ids := crypto_ids m; interval := interval m;
     threshold := threshold m; buffer_size := buffer_size m;
     latest_ticks := d; price_history := price_history m;
     latest_stats := latest_stats m; _task := _task m |}.

Definition with_price_history (d : Dict.t (deque CryptoTick)) (m : PriceMonitor)
  : PriceMonitor :=
  {| _observers := _observers m; is_running := is_running m;
     crypto_ids := crypto_ids m; interval := interval m;
     threshold := threshold m; buffer_size := buffer_size m;
     latest_ticks := latest_ticks m; price_history := d;
     latest_stats := latest_stats m; _task := _task m |}.

Definition with_latest_stats (d : Dict.t StatisticsModel) (m : PriceMonitor)
  : PriceMonitor :=
  {| _observers := _observers m; is_running := is_running m;
     crypto_ids := crypto_ids m; interval := interval m;
     threshold := threshold m; buffer_size := buffer_size m;
     latest_ticks := latest_ticks m; price_history := price_history m;
     latest_stats := d; _task := _task m |}.

Definition with_task (t : option nat) (m : PriceMonitor) : PriceMonitor :=
  {| _observers := _observers m; is_running := is_running m;
     crypto_ids := crypto_ids m; interval := interval m;
     threshold := threshold m; buffer_size := buffer_size m;
     latest_ticks := latest_ticks m; price_history := price_history m;
     latest_stats := latest_stats m; _task := t |}.

(** The structured log, one constructor per call of [logger] in
    [price_monitor.py]. *)
Inductive LogRecord : Type :=
| MonitorAlreadyRunning                              (* warning, start *)
| MonitorStarted (ids : list string)                 (* info, start *)
| MonitorStopped                                     (* info, stop *)
| ApiError (e : error)                               (* error, loop *)
| UnexpectedError (e : error)                        (* exception, loop *)
| NoDataFor (coin : string)                          (* warning, fetch *)
| PriceChangeAlert (coin : string) (pc old new : float)  (* info, fetch *)
| StatisticsError (coin : string) (e : error).       (* error, statistics *)

(** Where a coroutine of the engine really suspends: the awaits of something
    outside the engine. *)
Inductive AwaitPoint : Type :=
| AtGetPrice (ids : list string)
| AtUpdate (o : Observer) (n : Notification)
| AtSleep (seconds : nat)
| AtTask (t : nat).

Inductive Effect : Type :=
| Log (r : LogRecord)
| Notify (n : Notification)                    (* notify_observers entered *)
| Suspend (p : AwaitPoint) (snapshot : PriceMonitor).

Inductive TaskStatus : Type :=
| Active
| Cancelled
| Finished.

Record World : Type := {
  mon : PriceMonitor;
  clock : nat;
  trace : list Effect;
  tasks : list TaskStatus            (* task [t] is the [t]-th created *)
}.

(** What the world outside the engine does. *)
Inductive outcome (A : Type) : Type :=
| Returns (a : A)
| Raises (e : error).
Arguments Returns {A} a.
Arguments Raises {A} e.

(** [update o n]: the calls to [register_observer] / [unregister_observer]
    made while [o.update(subject, tick=.., alert=..)] is awaited (by the
    handler or by another task), and how the handler ends.  The pandas
    kernels give the value of the last row of the rows they are given:
    [rolling_mean window min_periods rows], [ewm_mean span min_periods rows],
    [rolling_std window min_periods rows], [series_mean rows]. *)
Record Externals : Type := {
  update : Observer -> Notification -> list RegOp * outcome unit;
  rolling_mean : nat -> nat -> list float -> outcome float;
  ewm_mean : nat -> nat -> list float -> outcome float;
  rolling_std : nat -> nat -> list float -> outcome float;
  series_mean : list float -> outcome float
}.

(** What one turn of the loop receives from outside: the answer of
    [client.get_price], the registry calls made by other tasks while the
    engine waits for it and while it sleeps, and whether another task calls
    [stop()] during the sleep (the one place where the model lets a
    [stop()] meet a running turn). *)
Record CycleInput : Type := {
  fetched : outcome (Dict.t (Dict.t float));
  during_fetch : list RegOp;
  during_sleep : list RegOp;
  stop_during_sleep : bool
}.

(** ** The monad of coroutines *)

Definition M (A : Type) : Type := World -> result A * World.

Definition ret {A} (a : A) : M A := fun w => (Ok a, w).

Definition raise {A} (e : exn) : M A := fun w => (Raise e, w).

Definition bind {A B} (c : M A) (k : A -> M B) : M B :=
  fun w =>
    match c w with
    | (Ok a, w') => k a w'
    | (Raise e, w') => (Raise e, w')
    end.

Notation "x <- c ;; k" := (bind c (fun x => k))
  (at level 61, c at next level, right associativity).
Notation "c ;; k" := (bind c (fun _ => k))
  (at level 61, right associativity).

(** [try: c except ...: h e], where [h] re-raises what no clause catches. *)
Definition try_except {A} (c : M A) (h : exn -> M A) : M A :=
  fun w =>
    match c w with
    | (Ok a, w') => (Ok a, w')
    | (Raise e, w') => h e w'
    end.

(** The four ways the world changes. *)
Definition upd_mon (f : PriceMonitor -> PriceMonitor) (w : World) : World :=
  {| mon := f (mon w); clock := clock w; trace := trace w; tasks := tasks w |}.

Definition push (e : Effect) (w : World) : World :=
  {| mon := mon w; clock := clock w; trace := trace w ++ [e]; tasks := tasks w |}.

Definition advance (w : World) : World :=
  {| mon := mon w; clock := S (clock w); trace := trace w; tasks := tasks w |}.

Definition upd_tasks (f : list TaskStatus -> list TaskStatus) (w : World) : World :=
  {| mon := mon w; clock := clock w; trace := trace w; tasks := f (tasks w) |}.

Definition get_mon : M PriceMonitor := fun w => (Ok (mon w), w).

Definition modify_mon (f : PriceMonitor -> PriceMonitor) : M unit :=
  fun w => (Ok tt, upd_mon f w).

Definition emit (e : Effect) : M unit := fun w => (Ok tt, push e w).

Definition logger (r : LogRecord) : M unit := emit (Log r).

(** [datetime.now()]: the clock is read and moves on. *)
Definition datetime_now : M datetime := fun w => (Ok (clock w), advance w).

(** An await of something outside the engine: the engine is suspended with
    the object as it is; before it resumes, [ops] hit the registry. *)
Definition suspend (p : AwaitPoint) (ops : list RegOp) : M unit :=
  m <- get_mon ;;
  emit (Suspend p m) ;;
  modify_mon (fun m => with_observers (fold_left apply_op ops (_observers m)) m).

Definition lift_outcome {A} (o : outcome A) : M A :=
  match o with
  | Returns a => ret a
  | Raises e => raise (Exception e)
  end.

(** ** Observable *)

Definition register_observer (o : Observer) : M unit :=
  modify_mon (fun m => with_observers (set_add o (_observers m)) m).

Definition unregister_observer (o : Observer) : M unit :=
  modify_mon (fun m => with_observers (set_discard o (_observers m)) m).

Section Engine.

Variable X : Externals.

(** [await observer.update(self, tick=tick, alert=alert)] *)
Definition call_update (o : Observer) (n : Notification) : M unit :=
  suspend (AtUpdate o n) (fst (update X o n)) ;;
  lift_outcome (snd (update X o n)).

(** The [for observer in self._observers] loop, on the live set.  A set
    iterator remembers the size of the set when it was made ([used]) and a
    position; each [next] first compares the size of the set with [used]
    and raises [RuntimeError] when they differ, also at the [next] that
    would end the loop.  [k] counts the positions left. *)
Fixpoint iterate (k pos used : nat) (n : Notification) : M unit :=
  fun w =>
    if length (_observers (mon w)) =? used then
      match k with
      | 0 => (Ok tt, w)
      | S k' =>
          match nth_error (_observers (mon w)) pos with
          | None => (Ok tt, w)
          | Some o => (call_update o n ;; iterate k' (S pos) used n) w
          end
      end
    else (Raise (Exception SetChangedSize), w).

Definition notify_observers (n : Notification) : M unit :=
  emit (Notify n) ;;
  m <- get_mon ;;
  let used := length (_observers m) in
  iterate used 0 used n.

(** ** Tasks of the event loop *)

Fixpoint set_nth {A} (n : nat) (x : A) (l : list A) : list A :=
  match l, n with
  | [], _ => []
  | _ :: l', 0 => x :: l'
  | y :: l', S n' => y :: set_nth n' x l'
  end.

Definition modify_tasks (f : list TaskStatus -> list TaskStatus) : M unit :=
  fun w => (Ok tt, upd_tasks f w).

Definition get_tasks : M (list TaskStatus) := fun w => (Ok (tasks w), w).

(** [asyncio.create_task(self._monitoring_loop())] *)
Definition create_task : M nat :=
  ts <- get_tasks ;;
  modify_tasks (fun ts => ts ++ [Active]) ;;
  ret (length ts).

(** [task.cancel()]: a task that is over is left alone. *)
Definition task_cancel (t : nat) : M unit :=
  modify_tasks (fun ts =>
    match nth_error ts t with
    | Some Active => set_nth t Cancelled ts
    | _ => ts
    end).

(** [await task]: a cancelled task raises [CancelledError] in whoever awaits
    it; an active one is waited for until its loop returns. *)
Definition await_task (t : nat) : M unit :=
  suspend (AtTask t) [] ;;
  ts <- get_tasks ;;
  match nth_error ts t with
  | Some Cancelled => raise CancelledError
  | Some Active => modify_tasks (set_nth t Finished)
  | _ => ret tt
  end.

(** ** PriceMonitor: construction and life cycle *)

Definition start : M unit :=
  m <- get_mon ;;
  if is_running m then logger MonitorAlreadyRunning
  else
    modify_mon (with_is_running true) ;;
    t <- create_task ;;
    modify_mon (with_task (Some t)) ;;
    logger (MonitorStarted (crypto_ids m)).

Definition stop : M unit :=
  m <- get_mon ;;
  if negb (is_running m) then ret tt
  else
    modify_mon (with_is_running false) ;;
    m' <- get_mon ;;
    match _task m' with
    | Some t =>
        task_cancel t ;;
        try_except (await_task t)
          (fun e => match e with
                    | CancelledError => ret tt
                    | Exception _ => raise e
                    end) ;;
        modify_mon (with_task None)
    | None => ret tt
    end ;;
    logger MonitorStopped.

(** ** The price loop *)

(** Python's [x / y] on floats. *)
Definition py_truediv (x y : float) : M float :=
  if (y =? 0)%float then raise (Exception ZeroDivisionError)
  else ret (x / y)%float.

(** [dict.get(key, default)] *)
Definition get_default {V} (k : string) (dflt : V) (d : Dict.t V) : V :=
  match Dict.get k d with
  | Some v => v
  | None => dflt
  end.

(** [CryptoTick(coin_id=coin_id, symbol=coin_id, price_usd=..., ...)] *)
Definition new_tick (coin : string) (current_data : Dict.t float) (now : datetime)
  : CryptoTick :=
  {| coin_id := coin;
     symbol := coin;
     price_usd := get_default "usd" 0%float current_data;
     market_cap_usd := Dict.get "usd_market_cap" current_data;
     volume_24h_usd := Dict.get "usd_24h_vol" current_data;
     price_change_24h_percent := Dict.get "usd_24h_change" current_data;
     timestamp := now |}.

(** The [if coin_id in self.latest_ticks:] block. *)
Definition check_change (coin : string) (tk : CryptoTick) : M unit :=
  m <- get_mon ;;
  match Dict.get coin (latest_ticks m) with
  | None => ret tt
  | Some old_tick =>
      q <- py_truediv (price_usd tk - price_usd old_tick) (price_usd old_tick) ;;
      let percent_change := (q * 100)%float in
      if (threshold m <=? abs percent_change)%float then
        let ty := if (0 <? percent_change)%float
                  then PRICE_INCREASE else PRICE_DECREASE in
        ts <- datetime_now ;;
        let a := {| alert_coin_id := coin;
                    alert_symbol := symbol tk;
                    alert_type := ty;
                    old_price_usd := price_usd old_tick;
                    new_price_usd := price_usd tk;
                    change_percent := percent_change;
                    alert_timestamp := ts |} in
        notify_observers {| tick := None; alert := Some a |} ;;
        logger (PriceChangeAlert coin percent_change
                  (price_usd old_tick) (price_usd tk))
      else ret tt
  end.

(** [self.latest_ticks[coin_id] = new_tick] and
    [self.price_history[coin_id].append(new_tick)]; no await separates
    them. *)
Definition store_tick (coin : string) (tk : CryptoTick) : M unit :=
  modify_mon (fun m => with_latest_ticks (Dict.set coin tk (latest_ticks m)) m) ;;
  m <- get_mon ;;
  match Dict.get coin (price_history m) with
  | None => raise (Exception (KeyError coin))
  | Some dq =>
      modify_mon (fun m =>
        with_price_history (Dict.set coin (deque_append dq tk) (price_history m)) m)
  end.

(** The body of [for coin_id in self.crypto_ids]. *)
Definition process_coin (price_data : Dict.t (Dict.t float)) (coin : string)
  : M unit :=
  match Dict.get coin price_data with
  | None => logger (NoDataFor coin)
  | Some current_data =>
      now <- datetime_now ;;
      let tk := new_tick coin current_data now in
      check_change coin tk ;;
      store_tick coin tk ;;
      notify_observers {| tick := Some tk; alert := None |}
  end.

Fixpoint for_each {A} (l : list A) (body : A -> M unit) : M unit :=
  match l with
  | [] => ret tt
  | x :: l' => body x ;; for_each l' body
  end.

Definition _fetch_and_process_prices (inp : CycleInput) : M unit :=
  m <- get_mon ;;
  suspend (AtGetPrice (crypto_ids m)) (during_fetch inp) ;;
  price_data <- lift_outcome (fetched inp) ;;
  m' <- get_mon ;;
  for_each (crypto_ids m') (process_coin price_data).

(** ** Statistics *)

(** [df.sort_values("timestamp")]: rows ordered by timestamp, as an
    insertion sort that keeps equal timestamps in their order (pandas
    promises no order among equal keys; the clock gives none). *)
Fixpoint insert_row (r : float * datetime) (l : list (float * datetime))
  : list (float * datetime) :=
  match l with
  | [] => [r]
  | r' :: l' => if snd r <? snd r' then r :: r' :: l' else r' :: insert_row r l'
  end.

Definition sort_values (l : list (float * datetime)) : list (float * datetime) :=
  fold_left (fun acc r => insert_row r acc) l [].

(** The rows a rolling or expanding computation sees at each row of a
    column: the rows up to and including it. *)
Fixpoint prefixes {A} (l : list A) : list (list A) :=
  match l with
  | [] => []
  | x :: l' => [x] :: map (cons x) (prefixes l')
  end.

Fixpoint map_outcome {A B} (f : A -> outcome B) (l : list A) : outcome (list B) :=
  match l with
  | [] => Returns []
  | x :: l' =>
      match f x with
      | Raises e => Raises e
      | Returns y =>
          match map_outcome f l' with
          | Raises e => Raises e
          | Returns ys => Returns (y :: ys)
          end
      end
  end.

(** A computed column: the kernel's value at every row. *)
Definition column (kernel : list float -> outcome float) (prices : list float)
  : M (list float) :=
  lift_outcome (map_outcome kernel (prefixes prices)).

(** [last_row.get(name)] for a column that may not have been created. *)
Definition row_get (col : option (list float)) : option float :=
  match col with
  | None => None
  | Some c => Some (last c nan)
  end.

(** The body of the [try] in [_calculate_statistics], [df] being sorted.
    [len(df) - 1] is a natural number here: the body runs on two rows at
    least. *)
Definition statistics_of (coin : string) (df : list (float * datetime))
  : M StatisticsModel :=
  let prices := map fst df in
  let n := length df in
  let min_periods := Nat.min 20 (n - 1) in
  sma <- (if 20 <=? n
          then c <- column (rolling_mean X 20 min_periods) prices ;; ret (Some c)
          else ret None) ;;
  ema <- (if 20 <=? n
          then c <- column (ewm_mean X 20 min_periods) prices ;; ret (Some c)
          else ret None) ;;
  vol <- (if 5 <=? n
          then mean_price <- lift_outcome (series_mean X prices) ;;
               std <- column (rolling_std X (Nat.min 24 n) 5) prices ;;
               ret (Some (map (fun s => (s / mean_price * 100)%float) std))
          else ret None) ;;
  last_price <- match rev prices with
                | [] => raise (Exception IndexError)
                | p :: _ => ret p
                end ;;
  m <- get_mon ;;
  sym <- match Dict.get coin (latest_ticks m) with
         | None => raise (Exception (KeyError coin))
         | Some tk => ret (symbol tk)
         end ;;
  now <- datetime_now ;;
  ret {| stats_coin_id := coin;
         stats_symbol := sym;
         current_price := last_price;
         sma_20 := row_get sma;
         ema_20 := row_get ema;
         volatility_24h := row_get vol;
         rsi_14 := None;
         stats_timestamp := now |}.

(** The body of [for coin_id, history in self.price_history.items()]. *)
Definition statistics_step (item : string * deque CryptoTick) : M unit :=
  let (coin, history) := item in
  if deque_len history <? 2 then ret tt
  else
    let df := sort_values
                (map (fun tk => (price_usd tk, timestamp tk)) (items history)) in
    try_except
      (stats <- statistics_of coin df ;;
       modify_mon (fun m =>
         with_latest_stats (Dict.set coin stats (latest_stats m)) m))
      (fun e => match e with
                | Exception e' => logger (StatisticsError coin e')
                | CancelledError => raise e
                end).

Definition _calculate_statistics : M unit :=
  m <- get_mon ;;
  for_each (price_history m) statistics_step.

(** ** The monitoring loop *)

(** [await asyncio.sleep(self.interval)].  A [stop()] of another task during
    the sleep runs there, and its cancellation is raised in the sleeper. *)
Definition sleep (inp : CycleInput) : M unit :=
  m <- get_mon ;;
  suspend (AtSleep (interval m)) (during_sleep inp) ;;
  if stop_during_sleep inp then stop ;; raise CancelledError else ret tt.

(** One turn of the [while self.is_running] loop. *)
Definition cycle (inp : CycleInput) : M unit :=
  try_except
    (_fetch_and_process_prices inp ;; _calculate_statistics)
    (fun e => match e with
              | Exception e' =>
                  if is_CoinGeckoAPIError e' then logger (ApiError e')
                  else logger (UnexpectedError e')
              | CancelledError => raise e
              end) ;;
  sleep inp.

(** The loop, run on the inputs of its next turns: it is [Looping] when
    they are used up and the loop has not ended, [Returned] when the
    condition of the [while] was false.  The [async with] around it opens
    and closes the HTTP client, which the state of the engine does not
    see. *)
Inductive LoopState : Type :=
| Looping
| Returned.

Fixpoint _monitoring_loop (inputs : list CycleInput) : M LoopState :=
  match inputs with
  | [] => ret Looping
  | inp :: rest =>
      m <- get_mon ;;
      if is_running m then cycle inp ;; _monitoring_loop rest
      else ret Returned
  end.

End Engine.

(** ** Construction *)

Record Settings : Type := {
  crypto_id_list : list string;
  MONITORING_INTERVAL_SECONDS : nat;
  PRICE_CHANGE_THRESHOLD_PERCENT : float;
  STATISTICS_BUFFER_SIZE : nat
}.

(** [PriceMonitor.__init__] *)
Definition init (settings : Settings) : PriceMonitor :=
  {| _observers := [];
     is_running := false;
     crypto_ids := crypto_id_list settings;
     interval := MONITORING_INTERVAL_SECONDS settings;
     threshold := PRICE_CHANGE_THRESHOLD_PERCENT settings;
     buffer_size := STATISTICS_BUFFER_SIZE settings;
     latest_ticks := [];
     price_history :=
       fold_left
         (fun d coin => Dict.set coin (deque_new (STATISTICS_BUFFER_SIZE settings)) d)
         (crypto_id_list settings) [];
     latest_stats := [];
     _task := None |}.

Definition world_of (m : PriceMonitor) : World :=
  {| mon := m; clock := 0; trace := []; tasks := [] |}.

(** ** Settings ([app/config.py]) *)

(** Strings are sequences of code points below 256. *)
Module Config.
Import Ascii.

(** [str.isspace] on one character: the controls 9 to 13 and 28 to 31, the
    space, and the Latin-1 characters 133 and 160. *)
Definition isspace (c : Ascii.ascii) : bool :=
  let n := Ascii.nat_of_ascii c in
  ((9 <=? n) && (n <=? 13)) || ((28 <=? n) && (n <=? 32))
  || (n =? 133) || (n =? 160).

Fixpoint lstrip (s : string) : string :=
  match s with
  | EmptyString => EmptyString
  | String c s' => if isspace c then lstrip s' else s
  end.

Fixpoint rstrip (s : string) : string :=
  match s with
  | EmptyString => EmptyString
  | String c s' =>
      match rstrip s' with
      | EmptyString => if isspace c then EmptyString else String c EmptyString
      | r => String c r
      end
  end.

(** [s.strip()] *)
Definition strip (s : string) : string := rstrip (lstrip s).

(** [s.split(sep)] for a separator of one character: the pieces between
    its occurrences, empty ones included; one piece at least. *)
Fixpoint split (sep : Ascii.ascii) (s : string) : list string :=
  match s with
  | EmptyString => [EmptyString]
  | String c s' =>
      if Ascii.eqb c sep then EmptyString :: split sep s'
      else match split sep s' with
           | [] => [String c EmptyString]
           | piece :: pieces => String c piece :: pieces
           end
  end.

(** The truth value of a string: it is not empty. *)
Definition nonempty (s : string) : bool :=
  match s with
  | EmptyString => false
  | String _ _ => true
  end.

(** [[cid.strip() for cid in self.CRYPTO_IDS.split(",") if cid.strip()]] *)
Definition crypto_id_list (CRYPTO_IDS : string) : list string :=
  map strip (filter (fun cid => nonempty (strip cid)) (split ","%char CRYPTO_IDS)).

(** [sep.join(pieces)] *)
Definition join (sep : string) (pieces : list string) : string :=
  String.concat sep pieces.

End Config.

(** [Settings()], from the values of its fields: what the engine reads. *)
Definition Settings_init (CRYPTO_IDS : string) (interval_seconds : nat)
  (threshold_percent : float) (buffer : nat) : Settings :=
  {| crypto_id_list := Config.crypto_id_list CRYPTO_IDS;
     MONITORING_INTERVAL_SECONDS := interval_seconds;
     PRICE_CHANGE_THRESHOLD_PERCENT := threshold_percent;
     STATISTICS_BUFFER_SIZE := buffer |}.

(** ** The client of the data source ([app/services/coingecko_client.py]) *)

Module CoinGecko.

(** The exceptions that pass through [_make_request], by class: the three
    classes of [httpx] it names, the [RuntimeError] it raises itself, the
    [RetryError] of [tenacity], and those of any other class, the client's
    own [CoinGeckoAPIError] and [RateLimitError] among them. *)
Inductive raised : Type :=
| HTTPStatusError (status_code : nat)
| ConnectTimeout                      (* a subclass of RequestError *)
| RequestError                        (* any other subclass of it *)
| RuntimeError
| RetryError
| Raised (e : error).

(** [retry_if_exception_type((httpx.HTTPStatusError, httpx.ConnectTimeout,
    httpx.RequestError))] *)
Definition retried (r : raised) : bool :=
  match r with
  | HTTPStatusError _ | ConnectTimeout | RequestError => true
  | _ => false
  end.

(** The calls of [logger] in [_make_request]. *)
Inductive ClientLog : Type :=
| RateLimitReached                    (* warning *)
| HttpError (status_code : nat)       (* error *)
| RequestFailed.                      (* error *)

(** What [httpx] does with a request: a response, with its status and what
    [response.json()] gives, or an exception. *)
Record Response (J : Type) : Type := {
  status_code : nat;
  json : outcome J
}.

Inductive sent (J : Type) : Type :=
| Answered (r : Response J)
| Failed (r : raised).
Arguments Answered {J} r.
Arguments Failed {J} r.

Inductive ending (J : Type) : Type :=
| Gives (j : J)
| Throws (r : raised).
Arguments Gives {J} j.
Arguments Throws {J} r.

(** A call of the client: the requests it sent, what it logged and how it
    ended. *)
Record Run (J : Type) : Type := {
  requests : nat;
  logged : list ClientLog;
  ended : ending J
}.

Record Request : Type := {
  method : string;
  endpoint : string;
  params : Dict.t string
}.

Section Client.

Variable J : Type.

(** [response.raise_for_status()] raises [HTTPStatusError] on the statuses
    [httpx] takes for errors; which ones has changed between its
    versions. *)
Variable raises_for_status : nat -> bool.

(** The body of [_make_request], under its decorator: [client] is whether
    [self.client] is set, [t] what the request meets. *)
Definition request_once (client : bool) (t : sent J) : Run J :=
  if negb client
  then {| requests := 0; logged := []; ended := Throws RuntimeError |}
  else
    let tried :=
      match t with
      | Failed r => Throws r
      | Answered response =>
          if raises_for_status (status_code response)
          then Throws (HTTPStatusError (status_code response))
          else match json response with
               | Returns j => Gives j
               | Raises e => Throws (Raised e)
               end
      end in
    match tried with
    | Throws (HTTPStatusError s) =>
        if s =? 429
        then {| requests := 1; logged := [RateLimitReached];
                ended := Throws (Raised RateLimitError) |}
        else {| requests := 1; logged := [HttpError s];
                ended := Throws (Raised CoinGeckoAPIError) |}
    | Throws ConnectTimeout | Throws RequestError =>
        {| requests := 1; logged := [RequestFailed];
           ended := Throws (Raised CoinGeckoAPIError) |}
    | _ => {| requests := 1; logged := []; ended := tried |}
    end.

(** [@retry(retry=..., wait=..., stop=stop_after_attempt(5))]: the function
    is called again while it raises one of the classes of [retried], and
    [RetryError] is raised when the attempt that just failed so was the
    last one allowed.  [more] counts the attempts left after this one; the
    waits between them take time only. *)
Fixpoint retry (more : nat) (fn : nat -> Run J) (attempt_number : nat) : Run J :=
  let r := fn attempt_number in
  match ended r with
  | Gives _ => r
  | Throws e =>
      if retried e then
        match more with
        | 0 => {| requests := requests r; logged := logged r;
                  ended := Throws RetryError |}
        | S more' =>
            let r' := retry more' fn (S attempt_number) in
            {| requests := requests r + requests r';
               logged := logged r ++ logged r';
               ended := ended r' |}
        end
      else r
  end.

(** [transport n] is what the [n]-th request of the call meets. *)
Definition _make_request (client : bool) (transport : nat -> sent J) : Run J :=
  retry 4 (fun n => request_once client (transport n)) 1.

(** [str(b).lower()] *)
Definition str_lower (b : bool) : string :=
  if b then "true"%string else "false"%string.

Definition price_params (coin_ids vs_currencies : list string)
  (include_market_cap include_24h_vol include_24h_change : bool)
  : Dict.t string :=
  [("ids", Config.join "," coin_ids);
   ("vs_currencies", Config.join "," vs_currencies);
   ("include_market_cap", str_lower include_market_cap);
   ("include_24hr_vol", str_lower include_24h_vol);
   ("include_24hr_change", str_lower include_24h_change);
   ("precision", "full")]%string.

Definition get_price (client : bool) (http : Request -> nat -> sent J)
  (coin_ids vs_currencies : list string)
  (include_market_cap include_24h_vol include_24h_change : bool) : Run J :=
  _make_request client
    (http {| method := "GET";
             endpoint := "/simple/price";
             params := price_params coin_ids vs_currencies include_market_cap
                         include_24h_vol include_24h_change |}).

End Client.

(** An exception of the client as the engine tells it apart: it knows
    [CoinGeckoAPIError] and its subclass, and takes the rest as one. *)
Definition as_error (r : raised) : error :=
  match r with
  | Raised e => e
  | HTTPStatusError _ => OtherError 1
  | ConnectTimeout => OtherError 2
  | RequestError => OtherError 3
  | RuntimeError => OtherError 4
  | RetryError => OtherError 5
  end.

(** What [await client.get_price(...)] gives the loop. *)
Definition fetched_by {J} (r : Run J) : outcome J :=
  match ended r with
  | Gives j => Returns j
  | Throws e => Raises (as_error e)
  end.

End CoinGecko.

(** The input of a turn of the loop whose fetch goes through the client:
    inside [async with CoinGeckoClient() as client] the client is set, and
    [_fetch_and_process_prices] asks for the tracked instruments in usd with
    the three options on. *)
Definition fetching (raises_for_status : nat -> bool)
  (http : CoinGecko.Request -> nat -> CoinGecko.sent (Dict.t (Dict.t float)))
  (m : PriceMonitor) (during_fetch during_sleep : list RegOp)
  (stop_during_sleep : bool) : CycleInput :=
  {| fetched :=
       CoinGecko.fetched_by
         (CoinGecko.get_price raises_for_status true http (crypto_ids m)
            ["usd"%string] true true true);
     during_fetch := during_fetch;
     during_sleep := during_sleep;
     stop_during_sleep := stop_during_sleep |}.

(** ** The queries ([app/api/router.py]) *)

Module Router.

(** An endpoint returns a value or raises [HTTPException]. *)
Inductive reply (A : Type) : Type :=
| Reply (a : A)
| HTTPException (status_code : nat).
Arguments Reply {A} a.
Arguments HTTPException {A} status_code.

Record PriceSubscription : Type := {
  sub_coin_id : string;
  min_change_percent : float;
  user_id : option string;
  active : bool
}.

(** The endpoints read the monitor that [get_price_monitor()] returns and
    the settings. *)
Definition list_monitored_coins (settings : Settings) : list string :=
  crypto_id_list settings.

Definition get_current_prices (price_monitor : PriceMonitor)
  : reply (Dict.t CryptoTick) :=
  if negb (is_running price_monitor) then HTTPException 503
  else Reply (latest_ticks price_monitor).

Definition get_coin_price (price_monitor : PriceMonitor) (coin : string)
  : reply CryptoTick :=
  match Dict.get coin (latest_ticks price_monitor) with
  | None => HTTPException 404
  | Some tk => Reply tk
  end.

Definition get_statistics (price_monitor : PriceMonitor)
  : reply (Dict.t StatisticsModel) :=
  match latest_stats price_monitor with
  | [] => HTTPException 503
  | stats => Reply stats
  end.

Definition get_coin_statistics (price_monitor : PriceMonitor) (coin : string)
  : reply StatisticsModel :=
  match latest_stats price_monitor with
  | [] => HTTPException 404
  | stats =>
      match Dict.get coin stats with
      | None => HTTPException 404
      | Some st => Reply st
      end
  end.

Definition create_subscription (settings : Settings)
  (subscription : PriceSubscription) : reply PriceSubscription :=
  if existsb (String.eqb (sub_coin_id subscription)) (crypto_id_list settings)
  then Reply subscription
  else HTTPException 400.

(** The values of the keyword arguments that [notify_observers] passes to
    [update]: an object or [None]. *)
Inductive Payload : Type :=
| OfTick (tk : CryptoTick)
| OfAlert (a : PriceAlert).

(** [observer.update(self, tick=tick, alert=alert)]: both keywords are
    always passed. *)
Definition kwargs (n : Notification) : Dict.t (option Payload) :=
  [("tick"%string, option_map OfTick (tick n));
   ("alert"%string, option_map OfAlert (alert n))].

(** [value.__dict__] *)
Definition dunder_dict (value : option Payload) : outcome Payload :=
  match value with
  | None => Raises AttributeError
  | Some p => Returns p
  end.

(** [WebSocketObserver.update]; [send_json] is the socket's. *)
Definition update (send_json : Payload -> outcome unit)
  (kw : Dict.t (option Payload)) : outcome unit :=
  match Dict.get "tick" kw with
  | Some tick =>
      match dunder_dict tick with
      | Returns d => send_json d
      | Raises e => Raises e
      end
  | None =>
      match Dict.get "alert" kw with
      | Some alert =>
          match dunder_dict alert with
          | Returns d => send_json d
          | Raises e => Raises e
          end
      | None => Returns tt
      end
  end.

End Router.

(** ** The demonstration monitor ([demo.py]) *)

Module Demo.

(** [MonitorPreciosBitcoin]: the fields it adds to [Observable].  Its
    registry is the [_observers] of the world's object, which stands here
    for the [Observable] part alone; the calls of [notify_observers] are
    those of the hub above. *)
Record MonitorPreciosBitcoin : Type := {
  precio_actual : float;
  demo_coin_id : string;
  demo_symbol : string;
  ultimo_tick : option CryptoTick
}.

(** [MonitorPreciosBitcoin.__init__] *)
Definition init : MonitorPreciosBitcoin :=
  {| precio_actual := 50000;
     demo_coin_id := "bitcoin";
     demo_symbol := "BTC";
     ultimo_tick := None |}.

Section Monitor.

Variable X : Externals.

(** The part of [actualizar_precio] after the fields are assigned: the
    tick is broadcast, then the alert when the change exceeds 2.0. *)
Definition broadcasts (self : MonitorPreciosBitcoin)
  (precio_anterior nuevo_precio cambio_porcentual : float) (tk : CryptoTick)
  : M unit :=
  notify_observers X {| tick := Some tk; alert := None |} ;;
  if (2 <? abs cambio_porcentual)%float then
    let alert_type := if (0 <? cambio_porcentual)%float
                      then PRICE_INCREASE else PRICE_DECREASE in
    ts <- datetime_now ;;
    let alerta := {| alert_coin_id := demo_coin_id self;
                     alert_symbol := demo_symbol self;
                     alert_type := alert_type;
                     old_price_usd := precio_anterior;
                     new_price_usd := nuevo_precio;
                     change_percent := cambio_porcentual;
                     alert_timestamp := ts |} in
    notify_observers X {| tick := None; alert := Some alerta |}
  else ret tt.

(** [actualizar_precio]: the object and the world it leaves, with how it
    ended.  The division raises on a price of zero, before anything is
    assigned. *)
Definition actualizar_precio (nuevo_precio : float)
  (self : MonitorPreciosBitcoin) (w : World)
  : result unit * (MonitorPreciosBitcoin * World) :=
  let precio_anterior := precio_actual self in
  if (precio_anterior =? 0)%float
  then (Raise (Exception ZeroDivisionError), (self, w))
  else
    let cambio_porcentual :=
      ((nuevo_precio - precio_anterior) / precio_anterior * 100)%float in
    let tk := {| coin_id := demo_coin_id self;
                 symbol := demo_symbol self;
                 price_usd := nuevo_precio;
                 market_cap_usd := None;
                 volume_24h_usd := None;
                 price_change_24h_percent := Some cambio_porcentual;
                 timestamp := clock w |} in
    let self' := {| precio_actual := nuevo_precio;
                    demo_coin_id := demo_coin_id self;
                    demo_symbol := demo_symbol self;
                    ultimo_tick := Some tk |} in
    let (r, w') := broadcasts self' precio_anterior nuevo_precio
                     cambio_porcentual tk (advance w) in
    (r, (self', w')).

End Monitor.

End Demo.

(** * Vocabulary of the statements *)

(** The alerts handed to the hub, in order. *)
Definition alerts_of (tr : list Effect) : list PriceAlert :=
  flat_map (fun e => match e with
                     | Notify {| alert := Some a |} => [a]
                     | _ => []
                     end) tr.

(** The calls of [update], in order: who was handed what. *)
Definition updates_of (tr : list Effect) : list (Observer * Notification) :=
  flat_map (fun e => match e with
                     | Suspend (AtUpdate o n) _ => [(o, n)]
                     | _ => []
                     end) tr.

(** The objects as they were at the suspension points. *)
Definition snapshots_of (tr : list Effect) : list PriceMonitor :=
  flat_map (fun e => match e with
                     | Suspend _ m => [m]
                     | _ => []
                     end) tr.

(** The last [n] elements. *)
Definition lastn {A} (n : nat) (l : list A) : list A := skipn (length l - n) l.

(** A computation relates the world it starts in to the one it leaves,
    whatever it returns or raises. *)
Definition respects {A} (R : World -> World -> Prop) (c : M A) : Prop :=
  forall w, R w (snd (c w)).

(** A buffer after some appends to what it was, key by key. *)
Definition appended_to (d d' : option (deque CryptoTick)) : Prop :=
  match d, d' with
  | None, None => True
  | Some q, Some q' => exists tks, q' = fold_left deque_append tks q
  | _, _ => False
  end.

Definition only_appends (w w' : World) : Prop :=
  forall coin,
    appended_to (Dict.get coin (price_history (mon w)))
                (Dict.get coin (price_history (mon w'))).

(** A notification is about an instrument when its tick or its alert is. *)
Definition about (coin : string) (n : Notification) : Prop :=
  (exists tk, tick n = Some tk /\ coin_id tk = coin)
  \/ (exists a, alert n = Some a /\ alert_coin_id a = coin).

Definition effect_about (coin : string) (e : Effect) : Prop :=
  match e with
  | Notify n => about coin n
  | Suspend (AtUpdate _ n) _ => about coin n
  | _ => False
  end.

(** Nothing happened to an instrument between two worlds: its latest tick
    and its buffer are the same, and nothing about it went to the hub or to
    an observer. *)
Definition skipped (coin : string) (w w' : World) : Prop :=
  Dict.get coin (latest_ticks (mon w')) = Dict.get coin (latest_ticks (mon w))
  /\ Dict.get coin (price_history (mon w')) = Dict.get coin (price_history (mon w))
  /\ exists tr, trace w' = trace w ++ tr
                /\ Forall (fun e => ~ effect_about coin e) tr.

(** The tasks that are running. *)
Definition is_active (st : TaskStatus) : bool :=
  match st with
  | Active => true
  | _ => false
  end.

Definition count_active (ts : list TaskStatus) : nat :=
  length (filter is_active ts).

(** Running: the monitor holds its task, which is the one active task.
    Stopped: it holds none and no task is active. *)
Definition lifecycle_ok (w : World) : Prop :=
  if is_running (mon w)
  then exists t, _task (mon w) = Some t
                 /\ nth_error (tasks w) t = Some Active
                 /\ count_active (tasks w) = 1
  else _task (mon w) = None /\ count_active (tasks w) = 0.

(** What happens to an engine: calls of its interface from the
    application, and turns of its loop. *)
Inductive Call : Type :=
| CallStart
| CallStop
| CallRegistry (op : RegOp)
| LoopTurns (inputs : list CycleInput).

Definition run_call (X : Externals) (w : World) (c : Call) : World :=
  match c with
  | CallStart => snd (start w)
  | CallStop => snd (stop w)
  | CallRegistry (Register o) => snd (register_observer o w)
  | CallRegistry (Unregister o) => snd (unregister_observer o w)
  | LoopTurns inputs => snd (_monitoring_loop X inputs w)
  end.

Definition run (X : Externals) (calls : list Call) (w : World) : World :=
  fold_left (run_call X) calls w.

(** The maps of a monitor agree: the buffers are keyed by the tracked
    instruments, each once; the latest ticks are keyed by tracked
    instruments; and a buffer that holds ticks ends with the latest tick
    of its instrument. *)
Definition coherent (m : PriceMonitor) : Prop :=
  NoDup (Dict.keys (price_history m))
  /\ (forall coin, In coin (Dict.keys (price_history m)) <-> In coin (crypto_ids m))
  /\ (forall coin, In coin (Dict.keys (latest_ticks m)) -> In coin (crypto_ids m))
  /\ (forall coin dq,
        Dict.get coin (price_history m) = Some dq ->
        items dq <> [] ->
        exists tk older,
          Dict.get coin (latest_ticks m) = Some tk /\ items dq = older ++ [tk]).

(** An engine built from [s] as it should be, now and whenever it was
    suspended. *)
Definition engine_inv (s : Settings) (w : World) : Prop :=
  coherent (mon w)
  /\ Forall coherent (snapshots_of (trace w))
  /\ Dict.keys (price_history (mon w)) = Dict.keys (price_history (init s))
  /\ crypto_ids (mon w) = crypto_id_list s.

(** The rows of the frame built from a buffer, sorted. *)
Definition frame_of (history : deque CryptoTick) : list (float * datetime) :=
  sort_values (map (fun tk => (price_usd tk, timestamp tk)) (items history)).

Definition outcome_bind {A B} (o : outcome A) (k : A -> outcome B) : outcome B :=
  match o with
  | Returns a => k a
  | Raises e => Raises e
  end.

(** What [statistics_of] computes, as a function of what it reads: the
    kernels, the latest ticks, the rows; the snapshot still waits for its
    timestamp. *)
Definition statistics_pure (X : Externals) (latest : Dict.t CryptoTick)
  (coin : string) (df : list (float * datetime))
  : outcome (datetime -> StatisticsModel) :=
  let prices := map fst df in
  let n := length df in
  let min_periods := Nat.min 20 (n - 1) in
  outcome_bind
    (if 20 <=? n
     then outcome_bind (map_outcome (rolling_mean X 20 min_periods) (prefixes prices))
            (fun c => Returns (Some c))
     else Returns None)
    (fun sma =>
  outcome_bind
    (if 20 <=? n
     then outcome_bind (map_outcome (ewm_mean X 20 min_periods) (prefixes prices))
            (fun c => Returns (Some c))
     else Returns None)
    (fun ema =>
  outcome_bind
    (if 5 <=? n
     then outcome_bind (series_mean X prices) (fun mean_price =>
          outcome_bind
            (map_outcome (rolling_std X (Nat.min 24 n) 5) (prefixes prices))
            (fun std =>
               Returns (Some (map (fun s => (s / mean_price * 100)%float) std))))
     else Returns None)
    (fun vol =>
  outcome_bind
    (match rev prices with
     | [] => Raises IndexError
     | p :: _ => Returns p
     end)
    (fun last_price =>
  outcome_bind
    (match Dict.get coin latest with
     | None => Raises (KeyError coin)
     | Some tk => Returns (symbol tk)
     end)
    (fun sym =>
  Returns (fun now =>
    {| stats_coin_id := coin;
       stats_symbol := sym;
       current_price := last_price;
       sma_20 := row_get sma;
       ema_20 := row_get ema;
       volatility_24h := row_get vol;
       rsi_14 := None;
       stats_timestamp := now |})))))).

(** The optional fields of a snapshot against the length of the buffer it
    was computed from. *)
Definition gated (st : StatisticsModel) (len : nat) : Prop :=
  (sma_20 st = None <-> len < 20)
  /\ (ema_20 st = None <-> len < 20)
  /\ (volatility_24h st = None <-> len < 5).

(** What a pass of [_calculate_statistics] from [w] to [w'] owes to an
    instrument: nothing without a buffer of two ticks; with one, either the
    computation failed, the error is logged and the statistics are as they
    were, or they are the new snapshot, with its fields gated by the length
    of the buffer. *)
Definition recomputed (X : Externals) (w w' : World) (coin : string) : Prop :=
  let unchanged :=
    Dict.get coin (latest_stats (mon w')) = Dict.get coin (latest_stats (mon w)) in
  match Dict.get coin (price_history (mon w)) with
  | None => unchanged
  | Some history =>
      if deque_len history <? 2 then unchanged
      else
        match statistics_pure X (latest_ticks (mon w)) coin (frame_of history) with
        | Raises e => unchanged /\ In (Log (StatisticsError coin e)) (trace w')
        | Returns f =>
            exists now,
              Dict.get coin (latest_stats (mon w')) = Some (f now)
              /\ gated (f now) (deque_len history)
        end
  end.

(** The world after [update] was called on each observer of [l] in turn,
    none of them touching the registry. *)
Definition delivered (n : Notification) (l : list Observer) (w : World) : World :=
  fold_left (fun w o => push (Suspend (AtUpdate o n) (mon w)) w) l w.

(** An observer's handler returns and nobody touches the registry while it
    runs. *)
Definition takes (X : Externals) (n : Notification) (o : Observer) : Prop :=
  update X o n = ([], Returns tt).

(** A computation raises nothing but subclasses of [Exception]. *)
Definition safe {A} (c : M A) : Prop :=
  forall w, fst (c w) <> Raise CancelledError.

(** ** More vocabulary *)

(** The calls made to the registry from outside during a turn are all of
    a kind, and so are those of a sequence of calls on the engine. *)
Definition admits (O : RegOp -> Prop) (inp : CycleInput) : Prop :=
  Forall O (during_fetch inp) /\ Forall O (during_sleep inp).

Definition admits_call (O : RegOp -> Prop) (c : Call) : Prop :=
  match c with
  | CallRegistry op => O op
  | LoopTurns inputs => Forall (admits O) inputs
  | _ => True
  end.

(** The notifications an observer was handed, in order. *)
Definition handed_to (o : Observer) (tr : list Effect) : list Notification :=
  flat_map (fun e => match e with
                     | Suspend (AtUpdate o' n) _ => if o' =? o then [n] else []
                     | _ => []
                     end) tr.

(** A tick of the instrument [coin], taken before the clock read [bound]. *)
Definition tick_of (coin : string) (bound : nat) (tk : CryptoTick) : Prop :=
  coin_id tk = coin /\ symbol tk = coin /\ timestamp tk < bound.

(** Strictly increasing readings of the clock. *)
Fixpoint increasing (l : list nat) : Prop :=
  match l with
  | [] => True
  | t :: l' => Forall (fun t' => t < t') l' /\ increasing l'
  end.

Definition in_time_order (l : list CryptoTick) : Prop :=
  increasing (map timestamp l).

(** Every tick of the maps is filed under its instrument and was taken
    before [bound], and every buffer is in the order of time. *)
Definition ticks_in_order (bound : nat) (m : PriceMonitor) : Prop :=
  (forall coin tk,
     Dict.get coin (latest_ticks m) = Some tk -> tick_of coin bound tk)
  /\ (forall coin dq,
        Dict.get coin (price_history m) = Some dq ->
        Forall (tick_of coin bound) (items dq) /\ in_time_order (items dq)).

(** The instruments that have statistics have a latest tick. *)
Definition statistics_have_ticks (m : PriceMonitor) : Prop :=
  forall coin,
    In coin (Dict.keys (latest_stats m)) -> In coin (Dict.keys (latest_ticks m)).

(** [c in s] for a character. *)
Fixpoint has_char (c : Ascii.ascii) (s : string) : bool :=
  match s with
  | EmptyString => false
  | String c' s' => Ascii.eqb c' c || has_char c s'
  end.

(** The comma that separates the ids of [CRYPTO_IDS]. *)
Definition comma : Ascii.ascii := Ascii.Ascii false false true true false true false false.

(** An id as [crypto_id_list] gives them: not empty, without white space at
    either end, without a comma. *)
Definition clean_id (id : string) : Prop :=
  id <> EmptyString /\ Config.strip id = id /\ has_char comma id = false.

(** A string that does not start with white space. *)
Definition clean_head (s : string) : Prop :=
  match s with
  | EmptyString => True
  | String c _ => Config.isspace c = false
  end.

(** * Scenarios *)

(** Textbook versions of the pandas kernels, for running the model on
    concrete inputs: the mean of the trailing window, the exponentially
    weighted mean with [alpha = 2 / (span + 1)], the sample standard
    deviation of the trailing window; [nan] below [min_periods].  Pandas
    adds floats in another order, so the last digits may differ. *)
Fixpoint float_of_nat (n : nat) : float :=
  match n with
  | 0 => 0%float
  | S k => (float_of_nat k + 1)%float
  end.

Definition fsum (l : list float) : float := fold_left PrimFloat.add l 0%float.

Definition fmean (l : list float) : float :=
  (fsum l / float_of_nat (length l))%float.

Definition textbook_rolling_mean (window min_periods : nat) (rows : list float)
  : outcome float :=
  let win := lastn window rows in
  Returns (if length win <? min_periods then nan else fmean win).

Definition textbook_ewm_mean (span min_periods : nat) (rows : list float)
  : outcome float :=
  let decay := (1 - 2 / (float_of_nat span + 1))%float in
  let num := fold_left (fun acc x => (acc * decay + x)%float) rows 0%float in
  let den := fold_left (fun acc _ => (acc * decay + 1)%float) rows 0%float in
  Returns (if length rows <? min_periods then nan else (num / den)%float).

Definition textbook_rolling_std (window min_periods : nat) (rows : list float)
  : outcome float :=
  let win := lastn window rows in
  let mu := fmean win in
  let sq := map (fun x => ((x - mu) * (x - mu))%float) win in
  Returns (if length win <? min_periods then nan
           else sqrt (fsum sq / float_of_nat (length win - 1))%float).

(** The world outside with observers that take what they are given. *)
Definition quiet : Externals :=
  {| update := fun _ _ => ([], Returns tt);
     rolling_mean := textbook_rolling_mean;
     ewm_mean := textbook_ewm_mean;
     rolling_std := textbook_rolling_std;
     series_mean := fun rows => Returns (fmean rows) |}.

(** The defaults of [app/config.py], for two instruments. *)
Definition two_coins : Settings :=
  {| crypto_id_list := ["bitcoin"; "ethereum"]%string;
     MONITORING_INTERVAL_SECONDS := 30;
     PRICE_CHANGE_THRESHOLD_PERCENT := 1%float;
     STATISTICS_BUFFER_SIZE := 100 |}.

(** A turn of the loop that is left alone by the other tasks. *)
Definition turn (answer : outcome (Dict.t (Dict.t float))) : CycleInput :=
  {| fetched := answer;
     during_fetch := [];
     during_sleep := [];
     stop_during_sleep := false |}.

Definition usd (coin : string) (p : float) : string * Dict.t float :=
  (coin, [("usd"%string, p)]).

(** Both instruments quoted. *)
Definition quotes (btc eth : float) : CycleInput :=
  turn (Returns [usd "bitcoin" btc; usd "ethereum" eth]).

(** A started engine after two turns of its loop. *)
Definition after_two_turns : World :=
  run quiet [CallStart; LoopTurns [quotes 100 10; quotes 102 10]]
    (world_of (init two_coins)).

(** A tick is stored when it is some instrument's latest tick or sits in
    some buffer. *)
Definition stored (w : World) (tk : CryptoTick) : Prop :=
  (exists coin, Dict.get coin (latest_ticks (mon w)) = Some tk)
  \/ (exists coin dq, Dict.get coin (price_history (mon w)) = Some dq
                      /\ In tk (items dq)).

(** The stored ticks of [w'] are those of [w] and possibly [tk]. *)
Definition stores_at_most (tk : CryptoTick) (w w' : World) : Prop :=
  forall tk', stored w' tk' -> stored w tk' \/ tk' = tk.

(** Built by the loop from an entry of a response. *)
Definition quoted (tk : CryptoTick) : Prop :=
  exists coin d now, tk = new_tick coin d now.

(** The answer that quotes bitcoin without a price. *)
Definition no_price : CycleInput :=
  turn (Returns [("bitcoin"%string, [])]).

Definition after_no_price : World :=
  run quiet [CallStart; LoopTurns [no_price]] (world_of (init two_coins)).

(** ** Scenarios of the hub *)

Definition tick_event : Notification :=
  {| tick := Some (new_tick "bitcoin" [("usd"%string, 100%float)] 0);
     alert := None |}.

Definition alert_event : Notification :=
  {| tick := None;
     alert := Some {| alert_coin_id := "bitcoin";
                      alert_symbol := "bitcoin";
                      alert_type := PRICE_INCREASE;
                      old_price_usd := 100;
                      new_price_usd := 102;
                      change_percent := 2;
                      alert_timestamp := 1 |} |}.

Definition with_update (u : Observer -> Notification -> list RegOp * outcome unit)
  : Externals :=
  {| update := u;
     rolling_mean := rolling_mean quiet;
     ewm_mean := ewm_mean quiet;
     rolling_std := rolling_std quiet;
     series_mean := series_mean quiet |}.

(** While observer 1 is handed an event, a connection opens and observer 2
    is registered. *)
Definition registers_another : Externals :=
  with_update (fun o _ => if o =? 1 then ([Register 2], Returns tt)
                          else ([], Returns tt)).

(** While observer 1 is handed an event, the connection of observer 2
    closes and it is unregistered. *)
Definition unregisters_other : Externals :=
  with_update (fun o _ => if o =? 1 then ([Unregister 2], Returns tt)
                          else ([], Returns tt)).

(** Observers like the [WebSocketObserver] of [app/api/router.py]: its
    [update] reads [kwargs["tick"].__dict__], and [tick] is [None] in the
    notification of an alert, so it raises [AttributeError] on alerts.
    Ticks are taken to go through. *)
Definition websocket_observers : Externals :=
  with_update (fun _ n => match tick n with
                          | Some _ => ([], Returns tt)
                          | None => ([], Raises AttributeError)
                          end).

Definition one_subscriber : World :=
  run quiet [CallRegistry (Register 1)] (world_of (init two_coins)).

Definition two_subscribers : World :=
  run quiet [CallRegistry (Register 1); CallRegistry (Register 2)]
    (world_of (init two_coins)).

Definition two_subscribers_reversed : World :=
  run quiet [CallRegistry (Register 2); CallRegistry (Register 1)]
    (world_of (init two_coins)).

(** A turn whose fetch fails. *)
Definition failed_fetch (e : error) : CycleInput := turn (Raises e).

Definition timestamps (d : Dict.t StatisticsModel) : list datetime :=
  map (fun kv => stats_timestamp (snd kv)) d.

(** An observer whose delivery fails on ticks of price [p]. *)
Definition breaks_on (p : float) : Externals :=
  with_update (fun _ n =>
    match tick n with
    | Some tk => if (price_usd tk =? p)%float
                 then ([], Raises (OtherError 0))
                 else ([], Returns tt)
    | None => ([], Returns tt)
    end).

(** Two turns, each cut short by that observer after the ticks were
    stored and before the statistics. *)
Definition after_two_broken_turns : World :=
  run (breaks_on 10)
    [CallRegistry (Register 1); CallStart;
     LoopTurns [quotes 100 10; quotes 100 10]]
    (world_of (init two_coins)).

(** The expression of the alert policy, in IEEE arithmetic. *)
Definition percent_change (old_price new_price : float) : float :=
  ((new_price - old_price) / old_price * 100)%float.

(** The alerts the policy asks for when [tk] arrives for an instrument whose
    latest tick is [old]: none without a previous tick; one when the
    magnitude of the change reaches the threshold, of the kind its sign
    gives, carrying the change; none otherwise. *)
Definition expected_alerts (threshold_percent : float) (old : option CryptoTick)
  (tk : CryptoTick) (now : datetime) : list PriceAlert :=
  match old with
  | None => []
  | Some old_tick =>
      let pc := percent_change (price_usd old_tick) (price_usd tk) in
      if (threshold_percent <=? abs pc)%float
      then [{| alert_coin_id := coin_id tk;
               alert_symbol := symbol tk;
               alert_type := if (0 <? pc)%float
                             then PRICE_INCREASE else PRICE_DECREASE;
               old_price_usd := price_usd old_tick;
               new_price_usd := price_usd tk;
               change_percent := pc;
               alert_timestamp := now |}]
      else []
  end.

(** Such an observer is connected, and the second turn moves both prices
    by more than the threshold. *)
Definition after_both_moved : World :=
  run websocket_observers
    [CallRegistry (Register 1); CallStart;
     LoopTurns [quotes 100 10; quotes 102 11]]
    (world_of (init two_coins)).

Definition before_both_moved : World :=
  run websocket_observers
    [CallRegistry (Register 1); CallStart; LoopTurns [quotes 100 10]]
    (world_of (init two_coins)).

(** The first turn quotes bitcoin without a price, the second at 1. *)
Definition before_first_price : World :=
  run quiet
    [CallStart;
     LoopTurns [turn (Returns [("bitcoin"%string, []); usd "ethereum" 10])]]
    (world_of (init two_coins)).

Definition after_first_price : World :=
  run quiet
    [CallStart;
     LoopTurns [turn (Returns [("bitcoin"%string, []); usd "ethereum" 10]);
                quotes 1 11]]
    (world_of (init two_coins)).


(** A data source that answers every request with status 429, read by an
    [httpx] that raises for the statuses from 400 on. *)
Definition from_400 (status : nat) : bool := 400 <=? status.

Definition rate_limited (_ : CoinGecko.Request) (_ : nat)
  : CoinGecko.sent (Dict.t (Dict.t float)) :=
  CoinGecko.Answered
    {| CoinGecko.status_code := 429; CoinGecko.json := Raises (OtherError 0) |}.

(** An alert as the policy makes them, for a threshold: about a change of
    price from a price that is not zero, of a magnitude that reaches the
    threshold, of the kind the sign of the change gives. *)
Definition sound_alert (threshold_percent : float) (a : PriceAlert) : Prop :=
  alert_symbol a = alert_coin_id a
  /\ (old_price_usd a =? 0)%float = false
  /\ change_percent a = percent_change (old_price_usd a) (new_price_usd a)
  /\ (threshold_percent <=? abs (change_percent a))%float = true
  /\ alert_type a = (if (0 <? change_percent a)%float
                     then PRICE_INCREASE else PRICE_DECREASE).

(** What is handed to the hub carries a tick or an alert, not both. *)
Definition one_payload (n : Notification) : Prop :=
  match tick n, alert n with
  | Some _, None | None, Some _ => True
  | _, _ => False
  end.

Definition notifications_of (tr : list Effect) : list Notification :=
  flat_map (fun e => match e with Notify n => [n] | _ => [] end) tr.

(** The branch of [check_change] that broadcasts: the alert is stamped,
    handed to the hub and logged. *)
Definition alert_broadcast (X : Externals) (coin : string)
  (tk old_tick : CryptoTick) : M unit :=
  let pc := percent_change (price_usd old_tick) (price_usd tk) in
  ts <- datetime_now ;;
  notify_observers X
    {| tick := None;
       alert := Some {| alert_coin_id := coin;
                        alert_symbol := symbol tk;
                        alert_type := if (0 <? pc)%float
                                      then PRICE_INCREASE else PRICE_DECREASE;
                        old_price_usd := price_usd old_tick;
                        new_price_usd := price_usd tk;
                        change_percent := pc;
                        alert_timestamp := ts |} |} ;;
  logger (PriceChangeAlert coin pc (price_usd old_tick) (price_usd tk)).
(** The engine as an observer finds it when it is handed a notification:
    a tick is by then the latest tick of its instrument; an alert comes
    before its tick is stored, the latest tick of the instrument being
    still the one the change was computed from. *)
Definition seen_with (n : Notification) (m : PriceMonitor) : Prop :=
  (forall tk, tick n = Some tk ->
              Dict.get (coin_id tk) (latest_ticks m) = Some tk)
  /\ (forall a, alert n = Some a ->
        exists old,
          Dict.get (alert_coin_id a) (latest_ticks m) = Some old
          /\ price_usd old = old_price_usd a).

Definition delivery_ok (e : Effect) : Prop :=
  match e with
  | Suspend (AtUpdate _ n) m => seen_with n m
  | _ => True
  end.

(** One subscriber and a first turn; the engine as it was when the
    subscriber was handed the tick of bitcoin. *)
Definition after_first_delivery : World :=
  run quiet [CallRegistry (Register 1); CallStart; LoopTurns [quotes 100 10]]
    (world_of (init two_coins)).

Definition at_first_delivery : PriceMonitor :=
  Eval vm_compute in
    match nth 3 (trace after_first_delivery) (Log MonitorStopped) with
    | Suspend _ m => m
    | _ => init two_coins
    end.

(** The instruments that have statistics have a buffer of two ticks at
    least. *)
Definition statistics_have_history (m : PriceMonitor) : Prop :=
  forall coin,
    In coin (Dict.keys (latest_stats m)) ->
    exists dq, In (coin, dq) (price_history m) /\ 2 <= deque_len dq.

(** * Proofs *)

(** ** Dicts *)

Module DictFacts.
Lemma get_set_eq {V} (k : string) (v : V) (d : Dict.t V) :
  Dict.get k (Dict.set k v d) = Some v.
Proof.
  induction d as [|[k' v'] d IH]; simpl.
  - now rewrite String.eqb_refl.
  - destruct (String.eqb k k') eqn:E; simpl; rewrite E; auto.
Qed.

Lemma get_set_ne {V} (k k0 : string) (v : V) (d : Dict.t V) :
  k0 <> k -> Dict.get k0 (Dict.set k v d) = Dict.get k0 d.
Proof.
  intros Hne. induction d as [|[k' v'] d IH]; simpl.
  - destruct (String.eqb k0 k) eqn:E; auto.
    apply String.eqb_eq in E. contradiction.
  - destruct (String.eqb k k') eqn:E; simpl.
    + apply String.eqb_eq in E. subst k'.
      destruct (String.eqb k0 k) eqn:E0; auto.
      apply String.eqb_eq in E0. contradiction.
    + now rewrite IH.
Qed.

Lemma get_In_keys {V} (k : string) (d : Dict.t V) :
  (exists v, Dict.get k d = Some v) <-> In k (Dict.keys d).
Proof.
  unfold Dict.keys. induction d as [|[k' v'] d IH]; simpl.
  - split; [intros [v H]; discriminate | tauto].
  - destruct (String.eqb k k') eqn:E.
    + apply String.eqb_eq in E. subst. split; eauto.
    + apply String.eqb_neq in E. rewrite IH. split; [tauto|].
      intros [H|H]; [congruence | assumption].
Qed.

Lemma get_None_keys {V} (k : string) (d : Dict.t V) :
  Dict.get k d = None <-> ~ In k (Dict.keys d).
Proof.
  rewrite <- get_In_keys. destruct (Dict.get k d).
  - split; [discriminate | intros H; exfalso; eauto].
  - split; [intros _ [v H]; discriminate | reflexivity].
Qed.

(** Assigning to a key that is there keeps the keys and their order. *)
Lemma keys_set_present {V} (k : string) (v : V) (d : Dict.t V) :
  In k (Dict.keys d) -> Dict.keys (Dict.set k v d) = Dict.keys d.
Proof.
  unfold Dict.keys. induction d as [|[k' v'] d IH]; simpl; [tauto|].
  intros H. destruct (String.eqb k k') eqn:E; simpl; [reflexivity|].
  apply String.eqb_neq in E. f_equal. apply IH.
  destruct H; [congruence | assumption].
Qed.

Lemma keys_set_absent {V} (k : string) (v : V) (d : Dict.t V) :
  ~ In k (Dict.keys d) -> Dict.keys (Dict.set k v d) = Dict.keys d ++ [k].
Proof.
  unfold Dict.keys. induction d as [|[k' v'] d IH]; simpl; [reflexivity|].
  intros H. destruct (String.eqb k k') eqn:E; simpl.
  - apply String.eqb_eq in E. subst. tauto.
  - f_equal. apply IH. tauto.
Qed.

Lemma In_keys_set {V} (k k0 : string) (v : V) (d : Dict.t V) :
  In k0 (Dict.keys (Dict.set k v d)) <-> k0 = k \/ In k0 (Dict.keys d).
Proof.
  rewrite <- !get_In_keys.
  destruct (String.eqb_spec k0 k) as [->|Hne].
  - rewrite get_set_eq. split; eauto.
  - rewrite get_set_ne by assumption. split; [tauto|].
    intros [H|H]; [contradiction | assumption].
Qed.

Lemma NoDup_keys_set {V} (k : string) (v : V) (d : Dict.t V) :
  NoDup (Dict.keys d) -> NoDup (Dict.keys (Dict.set k v d)).
Proof.
  intros H. destruct (in_dec string_dec k (Dict.keys d)) as [Hin|Hout].
  - now rewrite keys_set_present.
  - rewrite keys_set_absent by assumption.
    apply NoDup_app; [assumption | repeat constructor; simpl; tauto |].
    intros x Hx [<-|[]]. contradiction.
Qed.
End DictFacts.

(** ** Deques *)

Lemma lastn_all {A} (n : nat) (l : list A) : length l <= n -> lastn n l = l.
Proof.
  intros H. unfold lastn. replace (length l - n) with 0 by lia. reflexivity.
Qed.

Lemma length_lastn {A} (n : nat) (l : list A) :
  length (lastn n l) = Nat.min n (length l).
Proof. unfold lastn. rewrite length_skipn. lia. Qed.

Lemma tl_skipn {A} (k : nat) (l : list A) : tl (skipn k l) = skipn (S k) l.
Proof.
  revert l. induction k as [|k IH]; intros [|x l]; simpl; auto.
Qed.

(** One append, on the items: the last [n] of what was there and the new
    element. *)
Lemma lastn_snoc {A} (n : nat) (l : list A) (x : A) :
  (let l' := lastn n l ++ [x] in if n <? length l' then tl l' else l')
  = lastn n (l ++ [x]).
Proof.
  cbv zeta. rewrite length_app, length_lastn. simpl length.
  destruct (Nat.ltb_spec n (Nat.min n (length l) + 1)) as [H|H].
  - assert (Hn : n <= length l) by lia.
    unfold lastn. rewrite length_app. simpl length.
    replace (length l + 1 - n) with (S (length l - n)) by lia.
    rewrite <- tl_skipn, skipn_app.
    replace (length l - n - length l) with 0 by lia.
    reflexivity.
  - rewrite (@lastn_all _ n l) by lia.
    rewrite lastn_all; [reflexivity|]. rewrite length_app. simpl. lia.
Qed.

Lemma lastn_lastn_app {A} (n : nat) (l1 l2 : list A) :
  lastn n (lastn n l1 ++ l2) = lastn n (l1 ++ l2).
Proof.
  unfold lastn. rewrite !length_app, length_skipn.
  rewrite !skipn_app, length_skipn, skipn_skipn.
  f_equal; f_equal; lia.
Qed.

Lemma maxlen_fold_append {A} (xs : list A) (d : deque A) :
  maxlen (fold_left deque_append xs d) = maxlen d.
Proof. revert d. induction xs; simpl; intros; [reflexivity | now rewrite IHxs]. Qed.

Lemma items_append {A} (d : deque A) (x : A) :
  length (items d) <= maxlen d ->
  items (deque_append d x) = lastn (maxlen d) (items d ++ [x]).
Proof.
  intros H. rewrite <- lastn_snoc.
  rewrite (@lastn_all _ (maxlen d) (items d)) by assumption.
  reflexivity.
Qed.

Lemma length_items_append {A} (d : deque A) (x : A) :
  length (items d) <= maxlen d ->
  length (items (deque_append d x)) <= maxlen (deque_append d x).
Proof. intros H. rewrite items_append, length_lastn by assumption. simpl. lia. Qed.

Lemma length_items_fold_append {A} (xs : list A) (d : deque A) :
  length (items d) <= maxlen d ->
  length (items (fold_left deque_append xs d)) <= maxlen d.
Proof.
  revert d. induction xs as [|x xs IH]; intros d H; simpl; [assumption|].
  change (maxlen d) with (maxlen (deque_append d x)).
  apply IH. now apply length_items_append.
Qed.

(** After any appends the buffer holds the last [maxlen] of everything it
    was given. *)
Lemma items_fold_append {A} (xs : list A) (d : deque A) :
  length (items d) <= maxlen d ->
  items (fold_left deque_append xs d) = lastn (maxlen d) (items d ++ xs).
Proof.
  revert d. induction xs as [|x xs IH]; intros d H; simpl.
  - rewrite app_nil_r. symmetry. now apply lastn_all.
  - rewrite IH by (now apply length_items_append).
    simpl maxlen. rewrite items_append by assumption.
    rewrite lastn_lastn_app, <- app_assoc. reflexivity.
Qed.

(** ** Computations and the relations they respect *)

Section Preorder.
Variable R : World -> World -> Prop.
Hypothesis R_refl : forall w, R w w.
Hypothesis R_trans : forall w1 w2 w3, R w1 w2 -> R w2 w3 -> R w1 w3.

Lemma respects_ret {A} (a : A) : respects R (ret a).
Proof. intros w. apply R_refl. Qed.

Lemma respects_raise {A} (e : exn) : respects R (@raise A e).
Proof. intros w. apply R_refl. Qed.

Lemma respects_get_mon : respects R get_mon.
Proof. intros w. apply R_refl. Qed.

Lemma respects_get_tasks : respects R get_tasks.
Proof. intros w. apply R_refl. Qed.

Lemma respects_lift {A} (o : outcome A) : respects R (lift_outcome o).
Proof. destruct o; intros w; apply R_refl. Qed.

Lemma respects_bind {A B} (c : M A) (k : A -> M B) :
  respects R c -> (forall a, respects R (k a)) -> respects R (bind c k).
Proof.
  intros Hc Hk w. unfold bind. specialize (Hc w).
  destruct (c w) as [[a|e] w']; simpl in *; [|assumption].
  eapply R_trans; [eassumption | apply Hk].
Qed.

Lemma respects_try_except {A} (c : M A) (h : exn -> M A) :
  respects R c -> (forall e, respects R (h e)) -> respects R (try_except c h).
Proof.
  intros Hc Hh w. unfold try_except. specialize (Hc w).
  destruct (c w) as [[a|e] w']; simpl in *; [assumption|].
  eapply R_trans; [eassumption | apply Hh].
Qed.

Lemma respects_for_each {A} (l : list A) (body : A -> M unit) :
  (forall x, In x l -> respects R (body x)) -> respects R (for_each l body).
Proof.
  induction l as [|x l IH]; simpl; intros H.
  - apply respects_ret.
  - apply respects_bind; [apply H; auto | intros _; apply IH; auto].
Qed.

Lemma respects_bind_get_mon {B} (k : PriceMonitor -> M B) :
  (forall w, R w (snd (k (mon w) w))) -> respects R (bind get_mon k).
Proof. intros H w. unfold bind, get_mon. simpl. apply H. Qed.

Lemma respects_py_truediv (x y : float) : respects R (py_truediv x y).
Proof.
  unfold py_truediv. destruct (y =? 0)%float;
    [apply respects_raise | apply respects_ret].
Qed.
End Preorder.

(** The steps of a proof that a composite computation respects a
    relation: through the combinators, then by what is known. *)
Ltac respects_step :=
  lazymatch goal with
  | |- respects _ (ret _) => apply respects_ret; assumption
  | |- respects _ (raise _) => apply respects_raise; assumption
  | |- respects _ get_mon => apply respects_get_mon; assumption
  | |- respects _ get_tasks => apply respects_get_tasks; assumption
  | |- respects _ (lift_outcome _) => apply respects_lift; assumption
  | |- respects _ (py_truediv _ _) => apply respects_py_truediv; assumption
  | |- respects _ (bind _ _) =>
      apply respects_bind; [assumption .. | idtac | intros ?]
  | |- respects _ (try_except _ _) =>
      apply respects_try_except; [assumption .. | idtac | intros ?]
  | |- respects _ (match ?x with _ => _ end) => destruct x
  end.

Ltac respects_auto := repeat respects_step; auto.

Section Frame.
Variable X : Externals.
Variable R : World -> World -> Prop.
(** The effects the relation admits; a suspension records the object as
    it is. *)
Variable E : Effect -> Prop.
Hypothesis R_refl : forall w, R w w.
Hypothesis R_trans : forall w1 w2 w3, R w1 w2 -> R w2 w3 -> R w1 w3.
Hypothesis R_push : forall e w,
  E e -> match e with Suspend _ m => m = mon w | _ => True end ->
  R w (push e w).
Hypothesis R_observers : forall s w, R w (upd_mon (with_observers s) w).
Hypothesis R_clock : forall w, R w (advance w).

Lemma respects_logger (r : LogRecord) : E (Log r) -> respects R (logger r).
Proof. intros He w. now apply R_push. Qed.

Lemma respects_datetime_now : respects R datetime_now.
Proof. intros w. apply R_clock. Qed.

Lemma respects_suspend (p : AwaitPoint) (ops : list RegOp) :
  (forall m, E (Suspend p m)) -> respects R (suspend p ops).
Proof.
  intros He w. unfold suspend, bind, get_mon, emit, modify_mon. simpl.
  eapply R_trans; [apply R_push; [apply He | reflexivity] |].
  apply (R_observers _ (push (Suspend p (mon w)) w)).
Qed.

Lemma respects_call_update (o : Observer) (n : Notification) :
  (forall m, E (Suspend (AtUpdate o n) m)) -> respects R (call_update X o n).
Proof.
  intros He. unfold call_update. respects_auto. now apply respects_suspend.
Qed.

Lemma respects_iterate (k pos used : nat) (n : Notification) :
  (forall o m, E (Suspend (AtUpdate o n) m)) ->
  respects R (iterate X k pos used n).
Proof.
  intros He. revert pos. induction k as [|k IH]; intros pos w; simpl.
  - destruct (_ =? _); apply R_refl.
  - destruct (_ =? _); [|apply R_refl].
    destruct (nth_error _ _); [|apply R_refl].
    apply respects_bind; auto using respects_call_update.
Qed.

Lemma respects_notify_observers (n : Notification) :
  E (Notify n) -> (forall o m, E (Suspend (AtUpdate o n) m)) ->
  respects R (notify_observers X n).
Proof.
  intros Hn Hu. unfold notify_observers. respects_auto.
  - intros w. now apply R_push.
  - now apply respects_iterate.
Qed.

Lemma respects_check_change (coin : string) (tk : CryptoTick) :
  (forall a, alert_coin_id a = coin ->
             let n := {| tick := None; alert := Some a |} in
             E (Notify n) /\ forall o m, E (Suspend (AtUpdate o n) m)) ->
  (forall pc old new, E (Log (PriceChangeAlert coin pc old new))) ->
  respects R (check_change X coin tk).
Proof.
  intros HN HL. unfold check_change. respects_auto.
  all: try apply respects_datetime_now; try (apply respects_logger; apply HL).
  apply respects_notify_observers; now apply HN.
Qed.
End Frame.

Section EngineFrame.
Variable X : Externals.
Variable R : World -> World -> Prop.
Hypothesis R_refl : forall w, R w w.
Hypothesis R_trans : forall w1 w2 w3, R w1 w2 -> R w2 w3 -> R w1 w3.
Hypothesis R_push : forall e w,
  match e with Suspend _ m => m = mon w | _ => True end -> R w (push e w).
Hypothesis R_observers : forall s w, R w (upd_mon (with_observers s) w).
Hypothesis R_clock : forall w, R w (advance w).
(** The instruments the relation admits in the loop: it may take for
    granted that those of the monitor are among them. *)
Variable P : string -> Prop.
Hypothesis R_coins : forall w w',
  (Forall P (crypto_ids (mon w)) -> R w w') -> R w w'.
(** The ticks it admits in the maps; those the loop builds are. *)
Variable Q : CryptoTick -> Prop.
Hypothesis Q_new : forall coin d now, Q (new_tick coin d now).
Hypothesis R_store : forall coin tk,
  P coin -> Q tk -> respects R (store_tick coin tk).
Hypothesis R_stats : forall d w, R w (upd_mon (with_latest_stats d) w).

Let R_push' : forall e w,
  (fun _ : Effect => True) e ->
  match e with Suspend _ m => m = mon w | _ => True end -> R w (push e w).
Proof. intros e w _. apply R_push. Qed.

Ltac leaf :=
  first
    [ apply (@respects_logger R (fun _ => True)); now auto
    | apply respects_datetime_now; assumption
    | apply (@respects_suspend R (fun _ => True)); now auto
    | apply (@respects_notify_observers X R (fun _ => True)); now auto
    | apply (@respects_check_change X R (fun _ => True)); now auto
    | apply R_store; [assumption | apply Q_new]
    | idtac ].

Lemma respects_process_coin pd coin :
  P coin -> respects R (process_coin X pd coin).
Proof. intros HP. unfold process_coin. respects_auto; leaf. Qed.

Lemma respects_fetch_and_process inp :
  respects R (_fetch_and_process_prices X inp).
Proof.
  unfold _fetch_and_process_prices.
  apply respects_bind; [assumption .. | respects_auto | intros m].
  apply respects_bind; [assumption .. | leaf | intros _].
  apply respects_bind; [assumption .. | respects_auto | intros pd].
  apply respects_bind_get_mon. intros w. apply R_coins. intros HP.
  apply respects_for_each; auto.
  intros coin Hin. apply respects_process_coin.
  rewrite Forall_forall in HP. now apply HP.
Qed.

Lemma respects_column kernel prices : respects R (column kernel prices).
Proof. unfold column. respects_auto. Qed.

Lemma respects_statistics_of coin df : respects R (statistics_of X coin df).
Proof.
  unfold statistics_of. respects_auto; leaf; try apply respects_column.
Qed.

Lemma respects_statistics_step item : respects R (statistics_step X item).
Proof.
  unfold statistics_step. respects_auto; leaf.
  - apply respects_statistics_of.
  - intros w. apply R_stats.
Qed.

Lemma respects_calculate_statistics : respects R (_calculate_statistics X).
Proof.
  unfold _calculate_statistics. respects_auto.
  apply respects_for_each; auto. intros; apply respects_statistics_step.
Qed.

(** The part of a turn before the sleep. *)
Lemma respects_cycle_work inp :
  respects R
    (try_except
       (_fetch_and_process_prices X inp ;; _calculate_statistics X)
       (fun e => match e with
                 | Exception e' =>
                     if is_CoinGeckoAPIError e' then logger (ApiError e')
                     else logger (UnexpectedError e')
                 | CancelledError => raise e
                 end)).
Proof.
  respects_auto; leaf.
  - apply respects_fetch_and_process.
  - apply respects_calculate_statistics.
Qed.

Hypothesis R_stop : respects R stop.

Lemma respects_sleep inp : respects R (sleep inp).
Proof. unfold sleep. respects_auto; leaf. Qed.

Lemma respects_cycle inp : respects R (cycle X inp).
Proof.
  unfold cycle. apply respects_bind; auto.
  - apply respects_cycle_work.
  - intros _. apply respects_sleep.
Qed.

Lemma respects_monitoring_loop inputs : respects R (_monitoring_loop X inputs).
Proof.
  induction inputs as [|inp rest IH]; simpl; respects_auto.
  apply respects_cycle.
Qed.
End EngineFrame.

Section LifeCycleFrame.
Variable R : World -> World -> Prop.
Hypothesis R_refl : forall w, R w w.
Hypothesis R_trans : forall w1 w2 w3, R w1 w2 -> R w2 w3 -> R w1 w3.
Hypothesis R_push : forall e w,
  match e with Suspend _ m => m = mon w | _ => True end -> R w (push e w).
Hypothesis R_observers : forall s w, R w (upd_mon (with_observers s) w).
Hypothesis R_tasks : forall f w, R w (upd_tasks f w).
Hypothesis R_running : forall b w, R w (upd_mon (with_is_running b) w).
Hypothesis R_task : forall t w, R w (upd_mon (with_task t) w).

Let R_push' : forall e w,
  (fun _ : Effect => True) e ->
  match e with Suspend _ m => m = mon w | _ => True end -> R w (push e w).
Proof. intros e w _. apply R_push. Qed.

Ltac leaf :=
  first
    [ apply (@respects_logger R (fun _ => True)); now auto
    | apply (@respects_suspend R (fun _ => True)); now auto
    | intros w; first [apply R_tasks | apply R_running | apply R_task]
    | idtac ].

Lemma respects_start : respects R start.
Proof. unfold start, create_task. respects_auto; leaf. Qed.

Lemma respects_stop : respects R stop.
Proof. unfold stop, task_cancel, await_task. respects_auto; leaf. Qed.
End LifeCycleFrame.

(** ** Construction *)

(** The dict comprehension of [__init__]. *)
Lemma init_history_get n ids acc coin dq :
  (forall c q, Dict.get c acc = Some q -> q = deque_new n) ->
  Dict.get coin
    (fold_left (fun d c => Dict.set c (@deque_new CryptoTick n) d) ids acc)
  = Some dq ->
  dq = deque_new n.
Proof.
  revert acc. induction ids as [|c ids IH]; intros acc Hacc H; simpl in H.
  - eauto.
  - apply IH in H; [assumption|]. intros c' q Hq.
    destruct (String.eqb_spec c' c) as [->|Hne].
    + rewrite DictFacts.get_set_eq in Hq. congruence.
    + rewrite DictFacts.get_set_ne in Hq by assumption. eauto.
Qed.

Lemma init_history_keys n ids (acc : Dict.t (deque CryptoTick)) coin :
  In coin (Dict.keys (fold_left (fun d c => Dict.set c (deque_new n) d) ids acc))
  <-> In coin (Dict.keys acc) \/ In coin ids.
Proof.
  revert acc. induction ids as [|c ids IH]; intros acc; simpl.
  - tauto.
  - rewrite IH, DictFacts.In_keys_set. split; intros H; intuition auto.
Qed.

Lemma init_history_NoDup n ids (acc : Dict.t (deque CryptoTick)) :
  NoDup (Dict.keys acc) ->
  NoDup (Dict.keys (fold_left (fun d c => Dict.set c (deque_new n) d) ids acc)).
Proof.
  revert acc. induction ids as [|c ids IH]; intros acc H; simpl; auto.
  apply IH. now apply DictFacts.NoDup_keys_set.
Qed.

(** ** The history buffers *)

Lemma appended_to_refl d : appended_to d d.
Proof. destruct d; simpl; auto. now exists []. Qed.

Lemma appended_to_trans d1 d2 d3 :
  appended_to d1 d2 -> appended_to d2 d3 -> appended_to d1 d3.
Proof.
  destruct d1, d2, d3; simpl; try tauto.
  intros [t1 ->] [t2 ->]. exists (t1 ++ t2). now rewrite fold_left_app.
Qed.

Lemma only_appends_same w w' :
  price_history (mon w') = price_history (mon w) -> only_appends w w'.
Proof. intros H coin. rewrite H. apply appended_to_refl. Qed.

Lemma only_appends_store coin tk : respects only_appends (store_tick coin tk).
Proof.
  intros w. unfold store_tick, bind, modify_mon, get_mon. simpl.
  destruct (Dict.get coin (price_history (mon w))) as [dq|] eqn:E; simpl.
  - intros c. simpl. destruct (String.eqb_spec c coin) as [->|Hne].
    + rewrite DictFacts.get_set_eq, E. now exists [tk].
    + rewrite DictFacts.get_set_ne by assumption. apply appended_to_refl.
  - now apply only_appends_same.
Qed.

(** Whatever the loop is given, each buffer ends as what it was with ticks
    appended. *)
Lemma only_appends_loop X inputs : respects only_appends (_monitoring_loop X inputs).
Proof.
  apply (@respects_monitoring_loop X only_appends)
    with (P := fun _ => True) (Q := fun _ => True).
  - intros w. now apply only_appends_same.
  - intros w1 w2 w3 H1 H2 coin. eapply appended_to_trans; [apply H1 | apply H2].
  - intros e w _. now apply only_appends_same.
  - intros s w. now apply only_appends_same.
  - intros w. now apply only_appends_same.
  - intros w w' H. apply H. apply Forall_forall. exact (fun _ _ => I).
  - exact (fun _ _ _ => I).
  - intros coin tk _ _. apply only_appends_store.
  - intros d w. now apply only_appends_same.
  - apply respects_stop; intros; try now apply only_appends_same.
    intros coin. eapply appended_to_trans; eauto.
Qed.

Lemma only_appends_trans w1 w2 w3 :
  only_appends w1 w2 -> only_appends w2 w3 -> only_appends w1 w3.
Proof. intros H1 H2 coin. eapply appended_to_trans; [apply H1 | apply H2]. Qed.

Lemma only_appends_call X c w : only_appends w (run_call X w c).
Proof.
  destruct c as [| |[o|o]|inputs]; simpl.
  - apply respects_start; intros; try now apply only_appends_same.
    eapply only_appends_trans; eauto.
  - apply respects_stop; intros; try now apply only_appends_same.
    eapply only_appends_trans; eauto.
  - now apply only_appends_same.
  - now apply only_appends_same.
  - apply only_appends_loop.
Qed.

Lemma only_appends_run X calls : forall w, only_appends w (run X calls w).
Proof.
  induction calls as [|c calls IH]; intros w; simpl.
  - now apply only_appends_same.
  - eapply only_appends_trans; [apply only_appends_call | apply IH].
Qed.

(** The buffers of an engine are those of its constructor with ticks
    appended: they keep its capacity and stay within it. *)
Lemma buffers_bounded X s calls coin dq :
  Dict.get coin (price_history (mon (run X calls (world_of (init s))))) = Some dq ->
  maxlen dq = STATISTICS_BUFFER_SIZE s
  /\ length (items dq) <= STATISTICS_BUFFER_SIZE s.
Proof.
  intros H.
  pose proof (@only_appends_run X calls (world_of (init s)) coin) as Ha.
  rewrite H in Ha. unfold appended_to in Ha.
  destruct (Dict.get coin (price_history (mon (world_of (init s))))) as [q|] eqn:E;
    [|contradiction].
  destruct Ha as [tks ->]. simpl in E. apply init_history_get in E.
  - subst q. rewrite maxlen_fold_append. simpl. split; [reflexivity|].
    change (STATISTICS_BUFFER_SIZE s)
      with (maxlen (@deque_new CryptoTick (STATISTICS_BUFFER_SIZE s))).
    apply length_items_fold_append. simpl. lia.
  - intros c q' Hq. discriminate.
Qed.

(** C2. A history buffer of capacity [C] that was given more than [C]
    ticks holds exactly the last [C] of them, in the order they came; its
    length never exceeds [C]; an append to a full buffer drops its oldest
    tick; whatever is called on an engine, each of its buffers is what it
    was with ticks appended, has the configured capacity and stays within
    it; and capacity 3 with 10, 20, 30, 40 appended leaves 20, 30, 40. *)
Theorem history_buffer_keeps_most_recent :
  forall (A : Type) (d : deque A) (xs : list A),
    length (items d) <= maxlen d ->
    maxlen d < length xs ->
    items (fold_left deque_append xs d) = skipn (length xs - maxlen d) xs
    /\ (forall k, length (items (fold_left deque_append (firstn k xs) d)) <= maxlen d)
    /\ (forall x, length (items d) = maxlen d -> 0 < maxlen d ->
                  items (deque_append d x) = tl (items d) ++ [x])
    /\ (forall X calls w, only_appends w (run X calls w))
    /\ (forall X s calls coin dq,
          Dict.get coin (price_history (mon (run X calls (world_of (init s)))))
          = Some dq ->
          maxlen dq = STATISTICS_BUFFER_SIZE s
          /\ length (items dq) <= STATISTICS_BUFFER_SIZE s)
    /\ items (fold_left deque_append [10; 20; 30; 40]%float (deque_new 3))
       = [20; 30; 40]%float.
Proof.
  intros A d xs Hd Hlen.
  split; [|split; [|split; [|split; [|split]]]].
  - rewrite items_fold_append by assumption. unfold lastn.
    rewrite length_app, skipn_app.
    replace (length (items d) + length xs - maxlen d - length (items d))
      with (length xs - maxlen d) by lia.
    rewrite skipn_all2 by lia. reflexivity.
  - intros k. now apply length_items_fold_append.
  - intros x Hfull Hpos. unfold deque_append. simpl.
    rewrite length_app. simpl.
    destruct (Nat.ltb_spec (maxlen d) (length (items d) + 1)); [|lia].
    destruct (items d); simpl in *; [lia | reflexivity].
  - intros X calls w. apply only_appends_run.
  - intros X s calls coin dq. apply buffers_bounded.
  - reflexivity.
Qed.

Lemma history_buffer_keeps_most_recent_witness :
  items (fold_left deque_append [1; 2; 3; 4; 5] (deque_new 2)) = [4; 5].
Proof.
  exact (proj1 (@history_buffer_keeps_most_recent nat (deque_new 2) [1; 2; 3; 4; 5]
                  ltac:(simpl; lia) ltac:(simpl; lia))).
Defined.

(** ** Instruments missing from the response *)

Lemma for_each_app {A} (l1 l2 : list A) (body : A -> M unit) (w : World) :
  for_each (l1 ++ l2) body w = (for_each l1 body ;; for_each l2 body) w.
Proof.
  revert w. induction l1 as [|x l1 IH]; intros w; simpl; [reflexivity|].
  unfold bind in *. destruct (body x w) as [[[]|e] w1]; [|reflexivity].
  apply IH.
Qed.

Lemma skipped_refl coin w : skipped coin w w.
Proof.
  repeat split. exists []. now rewrite app_nil_r.
Qed.

Lemma skipped_trans coin w1 w2 w3 :
  skipped coin w1 w2 -> skipped coin w2 w3 -> skipped coin w1 w3.
Proof.
  intros (H1 & H2 & tr & H3 & H4) (K1 & K2 & tr' & K3 & K4).
  repeat split; try congruence.
  exists (tr ++ tr'). split.
  - rewrite K3, H3. now rewrite app_assoc.
  - apply Forall_app. now split.
Qed.

Lemma skipped_push coin e w : ~ effect_about coin e -> skipped coin w (push e w).
Proof.
  intros H. repeat split. exists [e]. split; [reflexivity|]. now constructor.
Qed.

Lemma skipped_same_trace coin w w' :
  Dict.get coin (latest_ticks (mon w')) = Dict.get coin (latest_ticks (mon w)) ->
  Dict.get coin (price_history (mon w')) = Dict.get coin (price_history (mon w)) ->
  trace w' = trace w ->
  skipped coin w w'.
Proof.
  intros H1 H2 H3. repeat split; auto. exists []. now rewrite app_nil_r.
Qed.

Lemma skipped_store coin c tk :
  c <> coin -> respects (skipped coin) (store_tick c tk).
Proof.
  intros Hne w. unfold store_tick, bind, modify_mon, get_mon. simpl.
  destruct (Dict.get c (price_history (mon w))) as [dq|]; simpl;
    apply skipped_same_trace; simpl; auto;
    rewrite DictFacts.get_set_ne; auto.
Qed.

Lemma skipped_process_coin X pd coin c :
  Dict.get coin pd = None -> respects (skipped coin) (process_coin X pd c).
Proof.
  intros Habs.
  pose proof (skipped_refl coin) as Hr.
  pose proof (@skipped_trans coin) as Ht.
  assert (Hp : forall e w, (fun e => ~ effect_about coin e) e ->
             match e with Suspend _ m => m = mon w | _ => True end ->
             skipped coin w (push e w)) by (intros; now apply skipped_push).
  assert (Ho : forall s w, skipped coin w (upd_mon (with_observers s) w))
    by (intros; now apply skipped_same_trace).
  assert (Hc : forall w, skipped coin w (advance w))
    by (intros; now apply skipped_same_trace).
  unfold process_coin. destruct (Dict.get c pd) eqn:Ec.
  - assert (Hne : c <> coin) by congruence.
    respects_auto.
    + apply (@respects_check_change X _ (fun e => ~ effect_about coin e)); auto.
      intros al Hal. simpl. split.
      * intros [(tk & H & _)|(a' & H & Ha)]; simpl in H; [discriminate|].
        congruence.
      * intros o m [(tk & H & _)|(a' & H & Ha)]; simpl in H; [discriminate|].
        congruence.
    + now apply skipped_store.
    + apply (@respects_notify_observers X _ (fun e => ~ effect_about coin e)); auto.
      * intros [(tk & H & Hk)|(a' & H & _)]; simpl in H; [|discriminate].
        injection H as <-. simpl in Hk. contradiction.
      * intros o m [(tk & H & Hk)|(a' & H & _)]; simpl in H; [|discriminate].
        injection H as <-. simpl in Hk. contradiction.
  - apply (@respects_logger _ (fun e => ~ effect_about coin e)); auto.
Qed.

(** C8. An instrument that the response lacks is skipped: its turn in the
    loop only logs a warning (no tick is built, the clock is not even
    read), the loop goes on with the other instruments, and over the whole
    pass its latest tick and its buffer stay as they were and nothing about
    it reaches the hub. *)
Theorem absent_instrument_is_skipped :
  forall (X : Externals) (pd : Dict.t (Dict.t float)) (coin : string),
    Dict.get coin pd = None ->
    (forall w, process_coin X pd coin w = (Ok tt, push (Log (NoDataFor coin)) w))
    /\ (forall ids1 ids2 w,
          for_each (ids1 ++ coin :: ids2) (process_coin X pd) w
          = (for_each ids1 (process_coin X pd) ;;
             logger (NoDataFor coin) ;;
             for_each ids2 (process_coin X pd)) w)
    /\ (forall inp w,
          fetched inp = Returns pd ->
          skipped coin w (snd (_fetch_and_process_prices X inp w))).
Proof.
  intros X pd coin Habs. split; [|split].
  - intros w. unfold process_coin. rewrite Habs. reflexivity.
  - intros ids1 ids2 w. rewrite for_each_app. unfold bind.
    destruct (for_each ids1 (process_coin X pd) w) as [[[]|e] w1]; [|reflexivity].
    simpl. unfold bind, process_coin at 1. rewrite Habs. reflexivity.
  - intros inp w Hf. unfold _fetch_and_process_prices. rewrite Hf.
    pose proof (skipped_refl coin) as Hr.
    pose proof (@skipped_trans coin) as Ht.
    revert w. change (respects (skipped coin)
      (m <- get_mon ;;
       suspend (AtGetPrice (crypto_ids m)) (during_fetch inp) ;;
       m' <- get_mon ;;
       for_each (crypto_ids m') (process_coin X pd))).
    respects_auto.
    + apply (@respects_suspend _ (fun e => ~ effect_about coin e)); auto;
        intros; first [now apply skipped_push | now apply skipped_same_trace].
    + apply respects_for_each; auto.
      intros c _. now apply skipped_process_coin.
Qed.

Lemma absent_instrument_is_skipped_witness :
  process_coin quiet [usd "bitcoin" 100%float] "ethereum" (world_of (init two_coins))
  = (Ok tt, push (Log (NoDataFor "ethereum")) (world_of (init two_coins))).
Proof.
  exact (proj1 (@absent_instrument_is_skipped quiet [usd "bitcoin" 100%float]
                  "ethereum"%string eq_refl)
               (world_of (init two_coins))).
Defined.

(** ** The life cycle *)

Lemma count_active_app ts ts' :
  count_active (ts ++ ts') = count_active ts + count_active ts'.
Proof. unfold count_active. now rewrite filter_app, length_app. Qed.

Lemma nth_error_set_nth {A} (t : nat) (x : A) (l : list A) :
  t < length l -> nth_error (set_nth t x l) t = Some x.
Proof.
  revert t. induction l as [|y l IH]; intros [|t] H; simpl in *; try lia; auto.
  apply IH. lia.
Qed.

Lemma count_active_cancel (t : nat) (ts : list TaskStatus) :
  nth_error ts t = Some Active ->
  count_active (set_nth t Cancelled ts) = count_active ts - 1.
Proof.
  revert t. induction ts as [|st ts IH]; intros [|t] H; simpl in *;
    try discriminate.
  - injection H as ->. unfold count_active. simpl. lia.
  - unfold count_active in *. simpl. destruct (is_active st); simpl.
    + rewrite (IH t H).
      assert (0 < length (filter is_active ts)); [|lia].
      clear IH. revert t H. induction ts as [|s ts IH]; intros [|t] H;
        simpl in *; try discriminate.
      * injection H as ->. simpl. lia.
      * destruct (is_active s); simpl; [lia | eauto].
    + now apply IH.
Qed.

(** [start] on a stopped engine, step by step. *)
Lemma start_stopped w :
  is_running (mon w) = false ->
  start w
  = (Ok tt,
     push (Log (MonitorStarted (crypto_ids (mon w))))
       (upd_mon (with_task (Some (length (tasks w))))
          (upd_tasks (fun ts => ts ++ [Active])
             (upd_mon (with_is_running true) w)))).
Proof. intros H. unfold start, bind, get_mon. rewrite H. reflexivity. Qed.

Lemma start_running w :
  is_running (mon w) = true ->
  start w = (Ok tt, push (Log MonitorAlreadyRunning) w).
Proof. intros H. unfold start, bind, get_mon. rewrite H. reflexivity. Qed.

Lemma stop_stopped w : is_running (mon w) = false -> stop w = (Ok tt, w).
Proof. intros H. unfold stop, bind, get_mon. rewrite H. reflexivity. Qed.

(** [stop] on a running engine whose task is active: the task is
    cancelled, awaiting it raises [CancelledError], which is caught. *)
Lemma stop_running w t :
  is_running (mon w) = true ->
  _task (mon w) = Some t ->
  nth_error (tasks w) t = Some Active ->
  let w1 := upd_tasks (set_nth t Cancelled) (upd_mon (with_is_running false) w) in
  fst (await_task t w1) = Raise CancelledError
  /\ stop w = (Ok tt, push (Log MonitorStopped)
                       (upd_mon (with_task None) (snd (await_task t w1)))).
Proof.
  intros Hr Ht Hn w1.
  assert (Hlt : t < length (tasks w)) by (apply nth_error_Some; congruence).
  assert (Ha : await_task t w1
               = (Raise CancelledError,
                  upd_mon (fun m => with_observers (_observers m) m)
                    (push (Suspend (AtTask t) (mon w1)) w1))).
  { unfold await_task, bind, suspend, get_mon, get_tasks, emit, modify_mon.
    simpl. rewrite nth_error_set_nth by assumption. reflexivity. }
  split; [now rewrite Ha|].
  unfold stop, bind, get_mon. rewrite Hr. simpl. rewrite Ht.
  unfold try_except, task_cancel, modify_tasks. simpl.
  replace (upd_tasks _ (upd_mon (with_is_running false) w)) with w1
    by (unfold w1, upd_tasks; simpl; now rewrite Hn).
  rewrite Ha. reflexivity.
Qed.

Lemma lifecycle_ok_start w : lifecycle_ok w -> lifecycle_ok (snd (start w)).
Proof.
  intros H. destruct (is_running (mon w)) eqn:Hr.
  - rewrite start_running by assumption. unfold lifecycle_ok in *. simpl.
    now rewrite Hr in *.
  - rewrite start_stopped by assumption. unfold lifecycle_ok in *.
    rewrite Hr in H. destruct H as [_ Hc]. simpl.
    exists (length (tasks w)). repeat split.
    + rewrite nth_error_app2, Nat.sub_diag by lia. reflexivity.
    + rewrite count_active_app, Hc. reflexivity.
Qed.

Lemma lifecycle_ok_stop w : lifecycle_ok w -> lifecycle_ok (snd (stop w)).
Proof.
  intros H. destruct (is_running (mon w)) eqn:Hr.
  - pose proof H as H'. unfold lifecycle_ok in H'. rewrite Hr in H'.
    destruct H' as (t & Ht & Hn & Hc).
    destruct (@stop_running w t Hr Ht Hn) as [_ ->].
    unfold lifecycle_ok, await_task, bind, suspend, get_mon, get_tasks,
      emit, modify_mon. simpl.
    rewrite nth_error_set_nth by (apply nth_error_Some; congruence). simpl.
    rewrite count_active_cancel by assumption. split; [reflexivity | lia].
  - now rewrite stop_stopped.
Qed.

Lemma lifecycle_ok_same w w' :
  is_running (mon w') = is_running (mon w) ->
  _task (mon w') = _task (mon w) ->
  tasks w' = tasks w ->
  lifecycle_ok w -> lifecycle_ok w'.
Proof. unfold lifecycle_ok. intros -> -> ->. auto. Qed.

Lemma lifecycle_ok_loop X inputs w :
  lifecycle_ok w -> lifecycle_ok (snd (_monitoring_loop X inputs w)).
Proof.
  revert w.
  apply (@respects_monitoring_loop X (fun w w' => lifecycle_ok w -> lifecycle_ok w'))
    with (P := fun _ => True) (Q := fun _ => True).
  - auto.
  - auto.
  - intros e w _. now apply lifecycle_ok_same.
  - intros s w. now apply lifecycle_ok_same.
  - intros w. now apply lifecycle_ok_same.
  - intros w w' H. apply H. apply Forall_forall. exact (fun _ _ => I).
  - exact (fun _ _ _ => I).
  - intros coin tk _ _ w. unfold store_tick, bind, modify_mon, get_mon. simpl.
    destruct (Dict.get coin _); now apply lifecycle_ok_same.
  - intros d w. now apply lifecycle_ok_same.
  - intros w. apply lifecycle_ok_stop.
Qed.

Lemma lifecycle_ok_init s : lifecycle_ok (world_of (init s)).
Proof. unfold lifecycle_ok. simpl. auto. Qed.

Lemma lifecycle_ok_run X calls w : lifecycle_ok w -> lifecycle_ok (run X calls w).
Proof.
  revert w. induction calls as [|c calls IH]; intros w H; simpl; [assumption|].
  apply IH. destruct c as [| |[o|o]|inputs]; simpl.
  - now apply lifecycle_ok_start.
  - now apply lifecycle_ok_stop.
  - revert H. now apply lifecycle_ok_same.
  - revert H. now apply lifecycle_ok_same.
  - now apply lifecycle_ok_loop.
Qed.

(** C7. On an engine in a state of its life cycle: [start] when stopped
    sets it running and creates one task, its own; [start] when running
    only logs; [stop] when running clears the flag, cancels the task,
    catches the [CancelledError] that awaiting it raises and forgets the
    task; [stop] when stopped does nothing; both keep the life cycle, so a
    second [start] only logs and a second [stop] does nothing; and whatever
    is called on an engine since its construction, one task is active while
    it runs and none while it does not. *)
Theorem start_stop_idempotent :
  forall w : World,
    lifecycle_ok w ->
    (is_running (mon w) = false ->
       fst (start w) = Ok tt
       /\ is_running (mon (snd (start w))) = true
       /\ tasks (snd (start w)) = tasks w ++ [Active]
       /\ _task (mon (snd (start w))) = Some (length (tasks w))
       /\ count_active (tasks (snd (start w))) = 1)
    /\ (is_running (mon w) = true ->
          start w = (Ok tt, push (Log MonitorAlreadyRunning) w))
    /\ (is_running (mon w) = true ->
          exists t,
            _task (mon w) = Some t
            /\ fst (await_task t
                      (snd (task_cancel t (upd_mon (with_is_running false) w))))
               = Raise CancelledError
            /\ fst (stop w) = Ok tt
            /\ is_running (mon (snd (stop w))) = false
            /\ _task (mon (snd (stop w))) = None
            /\ tasks (snd (stop w)) = set_nth t Cancelled (tasks w)
            /\ count_active (tasks (snd (stop w))) = 0)
    /\ (is_running (mon w) = false -> stop w = (Ok tt, w))
    /\ start (snd (start w))
       = (Ok tt, push (Log MonitorAlreadyRunning) (snd (start w)))
    /\ stop (snd (stop w)) = (Ok tt, snd (stop w))
    /\ lifecycle_ok (snd (start w))
    /\ lifecycle_ok (snd (stop w))
    /\ (forall X calls s,
          let w' := run X calls (world_of (init s)) in
          count_active (tasks w') = if is_running (mon w') then 1 else 0).
Proof.
  intros w H.
  assert (Hstart : is_running (mon (snd (start w))) = true).
  { destruct (is_running (mon w)) eqn:Hr.
    - now rewrite start_running.
    - now rewrite start_stopped. }
  assert (Hstop : is_running (mon (snd (stop w))) = false).
  { destruct (is_running (mon w)) eqn:Hr.
    - unfold lifecycle_ok in H. rewrite Hr in H. destruct H as (t & Ht & Hn & _).
      destruct (@stop_running w t Hr Ht Hn) as [_ ->].
      unfold await_task, bind, suspend, get_mon, get_tasks, emit, modify_mon.
      simpl. rewrite nth_error_set_nth by (apply nth_error_Some; congruence).
      reflexivity.
    - now rewrite stop_stopped. }
  repeat match goal with |- _ /\ _ => split end.
  - intros Hr. rewrite start_stopped by assumption. simpl.
    unfold lifecycle_ok in H. rewrite Hr in H. destruct H as [_ Hc].
    repeat split. now rewrite count_active_app, Hc.
  - apply start_running.
  - intros Hr. unfold lifecycle_ok in H. rewrite Hr in H.
    destruct H as (t & Ht & Hn & Hc). exists t.
    destruct (@stop_running w t Hr Ht Hn) as [Ha Hs].
    assert (Hw : snd (task_cancel t (upd_mon (with_is_running false) w))
                 = upd_tasks (set_nth t Cancelled)
                     (upd_mon (with_is_running false) w)).
    { unfold task_cancel, modify_tasks, upd_tasks. simpl. now rewrite Hn. }
    rewrite Hw. split; [assumption|]. split; [assumption|].
    rewrite Hs. simpl.
    unfold await_task, bind, suspend, get_mon, get_tasks, emit, modify_mon.
    simpl. rewrite nth_error_set_nth by (apply nth_error_Some; congruence).
    simpl. repeat split. rewrite count_active_cancel by assumption. lia.
  - apply stop_stopped.
  - now apply start_running.
  - now apply stop_stopped.
  - now apply lifecycle_ok_start.
  - now apply lifecycle_ok_stop.
  - intros X calls s w'.
    pose proof (@lifecycle_ok_run X calls _ (lifecycle_ok_init s)) as Hl.
    fold w' in Hl. unfold lifecycle_ok in Hl.
    destruct (is_running (mon w')).
    + now destruct Hl as (t & _ & _ & Hc).
    + now destruct Hl.
Qed.

Lemma start_stop_idempotent_witness :
  start (snd (start (world_of (init two_coins))))
  = (Ok tt, push (Log MonitorAlreadyRunning) (snd (start (world_of (init two_coins)))))
  /\ stop (snd (stop (world_of (init two_coins))))
     = (Ok tt, snd (stop (world_of (init two_coins)))).
Proof.
  pose proof (@start_stop_idempotent (world_of (init two_coins))
                (lifecycle_ok_init two_coins)) as H.
  split; apply H.
Defined.

(** ** Coherence of the maps *)

Lemma snapshots_of_app tr tr' :
  snapshots_of (tr ++ tr') = snapshots_of tr ++ snapshots_of tr'.
Proof. unfold snapshots_of. apply flat_map_app. Qed.

Lemma coherent_init s : coherent (init s).
Proof.
  unfold coherent. simpl. repeat split.
  - apply init_history_NoDup. constructor.
  - intros H. apply init_history_keys in H. simpl in H. tauto.
  - intros H. apply init_history_keys. auto.
  - tauto.
  - intros coin dq H Hne. apply init_history_get in H.
    + subst. now contradiction Hne.
    + intros c q Hq. discriminate.
Qed.

Lemma engine_inv_init s : engine_inv s (world_of (init s)).
Proof.
  repeat split; try apply coherent_init. constructor.
Qed.

(** Coherence reads four fields. *)
Lemma coherent_same m m' :
  crypto_ids m' = crypto_ids m ->
  latest_ticks m' = latest_ticks m ->
  price_history m' = price_history m ->
  coherent m -> coherent m'.
Proof. unfold coherent. intros -> -> ->. auto. Qed.

Lemma engine_inv_same s w w' :
  crypto_ids (mon w') = crypto_ids (mon w) ->
  latest_ticks (mon w') = latest_ticks (mon w) ->
  price_history (mon w') = price_history (mon w) ->
  trace w' = trace w ->
  engine_inv s w -> engine_inv s w'.
Proof.
  unfold engine_inv. intros H1 H2 H3 -> (Hc & Ht & Hk & Hi).
  rewrite H3, H1. split; [|auto]. revert Hc. now apply coherent_same.
Qed.

Lemma engine_inv_push s e w :
  match e with Suspend _ m => m = mon w | _ => True end ->
  engine_inv s w -> engine_inv s (push e w).
Proof.
  unfold engine_inv. intros He (Hc & Ht & Hk & Hi). simpl.
  split; [assumption|]. split; [|auto].
  rewrite snapshots_of_app. apply Forall_app. split; [assumption|].
  destruct e as [r|n|p m]; simpl; auto. subst. auto.
Qed.

Lemma items_append_last {A} (dq : deque A) (x : A) :
  items (deque_append dq x) <> [] ->
  exists older, items (deque_append dq x) = older ++ [x].
Proof.
  unfold deque_append. simpl. destruct (_ <? _).
  - destruct (items dq) as [|y l]; simpl; [tauto|]. now exists l.
  - now exists (items dq).
Qed.

(** Storing a tick of a tracked instrument keeps the maps coherent. *)
Lemma coherent_store coin tk w :
  In coin (crypto_ids (mon w)) ->
  coherent (mon w) ->
  coherent (mon (snd (store_tick coin tk w)))
  /\ Dict.keys (price_history (mon (snd (store_tick coin tk w))))
     = Dict.keys (price_history (mon w))
  /\ crypto_ids (mon (snd (store_tick coin tk w))) = crypto_ids (mon w)
  /\ trace (snd (store_tick coin tk w)) = trace w.
Proof.
  intros Hin (Hnd & Hk & Hl & Hh).
  assert (Hkey : In coin (Dict.keys (price_history (mon w)))) by now apply Hk.
  destruct (proj2 (DictFacts.get_In_keys coin (price_history (mon w))) Hkey)
    as [dq Hdq].
  unfold store_tick, bind, modify_mon, get_mon. simpl. rewrite Hdq.
  unfold with_price_history, with_latest_ticks, coherent. simpl.
  rewrite DictFacts.keys_set_present by assumption.
  repeat split; auto.
  - now apply Hk.
  - now apply Hk.
  - intros c H. apply DictFacts.In_keys_set in H. destruct H as [->|H]; auto.
  - intros c q Hq Hne. destruct (String.eqb_spec c coin) as [->|Hc].
    + rewrite DictFacts.get_set_eq. rewrite DictFacts.get_set_eq in Hq.
      injection Hq as <-.
      destruct (items_append_last dq tk Hne) as [older Ho].
      now exists tk, older.
    + rewrite DictFacts.get_set_ne by assumption.
      rewrite DictFacts.get_set_ne in Hq by assumption. now apply Hh.
Qed.

Lemma engine_inv_store s coin tk w :
  In coin (crypto_id_list s) ->
  engine_inv s w -> engine_inv s (snd (store_tick coin tk w)).
Proof.
  intros Hin (Hc & Ht & Hk & Hi).
  rewrite <- Hi in Hin.
  destruct (@coherent_store coin tk w Hin Hc) as (H1 & H2 & H3 & H4).
  unfold engine_inv. rewrite H2, H3, H4. auto.
Qed.

Section Invariant.
Variable X : Externals.
Variable s : Settings.

Let R (w w' : World) : Prop := engine_inv s w -> engine_inv s w'.

Lemma engine_inv_stop : respects R stop.
Proof.
  apply respects_stop; unfold R; auto; intros;
    first [now apply engine_inv_push | revert H; now apply engine_inv_same].
Qed.

Lemma engine_inv_start : respects R start.
Proof.
  apply respects_start; unfold R; auto; intros;
    first [now apply engine_inv_push | revert H; now apply engine_inv_same].
Qed.

Lemma engine_inv_loop inputs : respects R (_monitoring_loop X inputs).
Proof.
  apply (@respects_monitoring_loop X R)
    with (P := fun c => In c (crypto_id_list s)) (Q := fun _ => True);
    unfold R.
  - auto.
  - auto.
  - intros e w He. now apply engine_inv_push.
  - intros o w. now apply engine_inv_same.
  - intros w. now apply engine_inv_same.
  - intros w w' H Hw. apply H; [|assumption].
    destruct Hw as (_ & _ & _ & ->). apply Forall_forall. auto.
  - exact (fun _ _ _ => I).
  - intros coin tk Hin _ w. now apply engine_inv_store.
  - intros d w. now apply engine_inv_same.
  - apply engine_inv_stop.
Qed.

Lemma engine_inv_run calls w : engine_inv s w -> engine_inv s (run X calls w).
Proof.
  revert w. induction calls as [|c calls IH]; intros w H; simpl; [assumption|].
  apply IH. destruct c as [| |[o|o]|inputs]; simpl.
  - now apply engine_inv_start.
  - now apply engine_inv_stop.
  - revert H. now apply engine_inv_same.
  - revert H. now apply engine_inv_same.
  - now apply engine_inv_loop.
Qed.
End Invariant.

(** C10. Whatever is called on an engine since its construction and
    whatever its loop is given, at the end and at every point where a
    coroutine of the engine was suspended: the buffers are keyed by the
    tracked instruments (the keys, and their order, are those made by the
    constructor), the latest ticks are keyed by tracked instruments, and
    every buffer that holds ticks ends with the latest tick of its
    instrument. *)
Theorem engine_maps_stay_coherent :
  forall (X : Externals) (s : Settings) (calls : list Call),
    let w := run X calls (world_of (init s)) in
    coherent (mon w)
    /\ Forall coherent (snapshots_of (trace w))
    /\ Dict.keys (price_history (mon w)) = Dict.keys (price_history (init s))
    /\ crypto_ids (mon w) = crypto_id_list s.
Proof.
  intros X s calls. apply (@engine_inv_run X s calls). apply engine_inv_init.
Qed.

(** ** Statistics *)

Lemma length_insert_row r l : length (insert_row r l) = S (length l).
Proof.
  induction l as [|r' l IH]; simpl; [reflexivity|].
  destruct (_ <? _); simpl; congruence.
Qed.

Lemma length_sort_values l : length (sort_values l) = length l.
Proof.
  unfold sort_values.
  assert (H : forall acc, length (fold_left (fun acc r => insert_row r acc) l acc)
                          = length acc + length l).
  { induction l as [|r l IH]; intros acc; simpl; [lia|].
    rewrite IH, length_insert_row. lia. }
  apply H.
Qed.

Lemma length_frame_of history : length (frame_of history) = deque_len history.
Proof.
  unfold frame_of, deque_len. now rewrite length_sort_values, length_map.
Qed.

(** [statistics_of] reads the latest ticks and the clock, and moves the
    clock when it succeeds. *)
Lemma statistics_of_pure X coin df w :
  statistics_of X coin df w
  = match statistics_pure X (latest_ticks (mon w)) coin df with
    | Returns f => (Ok (f (clock w)), advance w)
    | Raises e => (Raise (Exception e), w)
    end.
Proof.
  unfold statistics_of, statistics_pure, column. cbv zeta.
  destruct (20 <=? length df); destruct (5 <=? length df);
    destruct (map_outcome (rolling_mean X 20 (Nat.min 20 (length df - 1)))
                (prefixes (map fst df)));
    destruct (map_outcome (ewm_mean X 20 (Nat.min 20 (length df - 1)))
                (prefixes (map fst df)));
    destruct (series_mean X (map fst df));
    destruct (map_outcome (rolling_std X (Nat.min 24 (length df)) 5)
                (prefixes (map fst df)));
    destruct (rev (map fst df));
    unfold bind, get_mon; simpl;
    try reflexivity;
    destruct (Dict.get coin (latest_ticks (mon w))); reflexivity.
Qed.

(** The columns exist by the length of the frame alone. *)
Lemma statistics_pure_gated X latest coin df f now :
  statistics_pure X latest coin df = Returns f ->
  gated (f now) (length df).
Proof.
  unfold statistics_pure, gated. cbv zeta.
  destruct (Nat.leb_spec 20 (length df)) as [H20|H20];
    destruct (Nat.leb_spec 5 (length df)) as [H5|H5];
    destruct (map_outcome (rolling_mean X 20 (Nat.min 20 (length df - 1)))
                (prefixes (map fst df)));
    destruct (map_outcome (ewm_mean X 20 (Nat.min 20 (length df - 1)))
                (prefixes (map fst df)));
    destruct (series_mean X (map fst df));
    destruct (map_outcome (rolling_std X (Nat.min 24 (length df)) 5)
                (prefixes (map fst df)));
    destruct (rev (map fst df));
    destruct (Dict.get coin latest);
    simpl; try discriminate;
    intros [= <-]; simpl; repeat split; intros; try discriminate; try lia.
Qed.

Lemma statistics_step_spec X coin history w :
  statistics_step X (coin, history) w
  = if deque_len history <? 2 then (Ok tt, w)
    else
      match statistics_pure X (latest_ticks (mon w)) coin (frame_of history) with
      | Returns f =>
          (Ok tt,
           upd_mon (fun m => with_latest_stats
                               (Dict.set coin (f (clock w)) (latest_stats m)) m)
             (advance w))
      | Raises e => (Ok tt, push (Log (StatisticsError coin e)) w)
      end.
Proof.
  unfold statistics_step. destruct (deque_len history <? 2); [reflexivity|].
  unfold try_except, bind. fold (frame_of history).
  rewrite statistics_of_pure.
  destruct (statistics_pure X _ coin _); reflexivity.
Qed.

(** A pass over the items [l] of the dict of buffers. *)
Lemma statistics_pass X l :
  NoDup (Dict.keys l) ->
  forall w,
    let r := for_each l (statistics_step X) w in
    fst r = Ok tt
    /\ latest_ticks (mon (snd r)) = latest_ticks (mon w)
    /\ price_history (mon (snd r)) = price_history (mon w)
    /\ (forall e, In e (trace w) -> In e (trace (snd r)))
    /\ forall coin,
         let unchanged :=
           Dict.get coin (latest_stats (mon (snd r)))
           = Dict.get coin (latest_stats (mon w)) in
         match Dict.get coin l with
         | None => unchanged
         | Some history =>
             if deque_len history <? 2 then unchanged
             else
               match statistics_pure X (latest_ticks (mon w)) coin
                       (frame_of history) with
               | Raises e =>
                   unchanged /\ In (Log (StatisticsError coin e)) (trace (snd r))
               | Returns f =>
                   exists now,
                     Dict.get coin (latest_stats (mon (snd r))) = Some (f now)
                     /\ gated (f now) (deque_len history)
               end
         end.
Proof.
  induction l as [|[c h] l IH]; intros Hnd w.
  - simpl. repeat split; auto.
  - inversion Hnd as [|? ? Hc Hnd']; subst.
    change (for_each ((c, h) :: l) (statistics_step X) w)
      with ((statistics_step X (c, h) ;; for_each l (statistics_step X)) w).
    unfold bind. rewrite statistics_step_spec.
    set (w1 := snd (if deque_len h <? 2 then (Ok tt, w)
                    else match statistics_pure X (latest_ticks (mon w)) c (frame_of h) with
                         | Returns f =>
                             (Ok tt,
                              upd_mon (fun m => with_latest_stats
                                 (Dict.set c (f (clock w)) (latest_stats m)) m)
                                (advance w))
                         | Raises e => (Ok tt, push (Log (StatisticsError c e)) w)
                         end)).
    assert (Hstep :
      (if deque_len h <? 2 then (Ok tt, w)
       else match statistics_pure X (latest_ticks (mon w)) c (frame_of h) with
            | Returns f =>
                (Ok tt,
                 upd_mon (fun m => with_latest_stats
                    (Dict.set c (f (clock w)) (latest_stats m)) m)
                   (advance w))
            | Raises e => (Ok tt, push (Log (StatisticsError c e)) w)
            end) = (Ok tt, w1)).
    { unfold w1. destruct (deque_len h <? 2); [reflexivity|].
      destruct (statistics_pure X _ c _); reflexivity. }
    rewrite Hstep.
    assert (H1 : latest_ticks (mon w1) = latest_ticks (mon w)
                 /\ price_history (mon w1) = price_history (mon w)
                 /\ (forall e, In e (trace w) -> In e (trace w1))).
    { unfold w1. destruct (deque_len h <? 2); [auto|].
      destruct (statistics_pure X _ c _); simpl; repeat split; auto.
      intros e0 H. apply in_or_app. auto. }
    destruct H1 as (Hl1 & Hp1 & Ht1).
    destruct (IH Hnd' w1) as (Hr & Hl & Hp & Ht & Hcoin).
    split; [assumption|]. split; [congruence|]. split; [congruence|].
    split; [auto|].
    intros coin. simpl Dict.get.
    destruct (String.eqb_spec coin c) as [->|Hne].
    + specialize (Hcoin c). cbv zeta in Hcoin.
      assert (Hnone : Dict.get c l = None)
        by (now apply DictFacts.get_None_keys).
      rewrite Hnone in Hcoin. cbv zeta. rewrite Hcoin.
      unfold w1. destruct (deque_len h <? 2) eqn:E2; [reflexivity|].
      destruct (statistics_pure X _ c _) as [f|e] eqn:Ef; simpl.
      * exists (clock w). rewrite DictFacts.get_set_eq. split; [reflexivity|].
        rewrite <- length_frame_of. eapply statistics_pure_gated; eassumption.
      * split; [reflexivity|]. apply Ht. unfold w1. simpl.
        apply in_or_app. simpl. auto.
    + specialize (Hcoin coin). cbv zeta in Hcoin. rewrite Hl1 in Hcoin.
      assert (Hs : Dict.get coin (latest_stats (mon w1))
                   = Dict.get coin (latest_stats (mon w))).
      { unfold w1. destruct (deque_len h <? 2); [reflexivity|].
        destruct (statistics_pure X _ c _); simpl; [|reflexivity].
        now apply DictFacts.get_set_ne. }
      rewrite Hs in Hcoin. exact Hcoin.
Qed.

(** C6. A pass of [_calculate_statistics] over buffers keyed once each
    never raises, and instrument by instrument: a buffer of fewer than two
    ticks leaves the statistics alone; a failed computation is logged and
    leaves them alone; a computed snapshot has [sma_20] and [ema_20] unset
    exactly when the buffer holds fewer than 20 ticks and [volatility_24h]
    unset exactly when it holds fewer than 5. *)
Theorem statistics_fields_follow_buffer_length :
  forall (X : Externals) (w : World),
    NoDup (Dict.keys (price_history (mon w))) ->
    fst (_calculate_statistics X w) = Ok tt
    /\ (forall coin, recomputed X w (snd (_calculate_statistics X w)) coin)
    /\ (forall coin df w0 st w1,
          statistics_of X coin df w0 = (Ok st, w1) -> gated st (length df)).
Proof.
  intros X w Hnd.
  destruct (@statistics_pass X (price_history (mon w)) Hnd w)
    as (Hr & _ & _ & _ & Hcoin).
  split; [exact Hr|]. split.
  - intros coin. unfold recomputed. exact (Hcoin coin).
  - intros coin df w0 st w1 H. rewrite statistics_of_pure in H.
    destruct (statistics_pure X _ coin df) as [f|e] eqn:Ef; [|discriminate].
    injection H as <- _. eapply statistics_pure_gated; eassumption.
Qed.

Lemma statistics_fields_follow_buffer_length_witness :
  fst (_calculate_statistics quiet after_two_turns) = Ok tt.
Proof.
  refine (proj1 (@statistics_fields_follow_buffer_length quiet after_two_turns _)).
  vm_compute. repeat constructor; simpl; intuition discriminate.
Defined.

(** ** The price of a stored tick *)

Lemma stores_at_most_refl tk w : stores_at_most tk w w.
Proof. intros tk' H. now left. Qed.

Lemma stores_at_most_trans tk w1 w2 w3 :
  stores_at_most tk w1 w2 -> stores_at_most tk w2 w3 -> stores_at_most tk w1 w3.
Proof.
  intros H12 H23 tk' H. destruct (H23 tk' H) as [H2|H2]; [|now right].
  now apply H12.
Qed.

Lemma stores_at_most_same tk w w' :
  latest_ticks (mon w') = latest_ticks (mon w) ->
  price_history (mon w') = price_history (mon w) ->
  stores_at_most tk w w'.
Proof. intros Hl Hp tk' H. left. unfold stored in *. now rewrite Hl, Hp in H. Qed.

Lemma In_items_append {A} (dq : deque A) (x y : A) :
  In y (items (deque_append dq x)) -> In y (items dq) \/ y = x.
Proof.
  unfold deque_append. simpl. intros H.
  assert (H' : In y (items dq ++ [x])).
  { destruct (_ <? _); [|assumption].
    destruct (items dq ++ [x]); simpl in *; auto. }
  apply in_app_or in H'. simpl in H'. intuition auto.
Qed.

Lemma stores_at_most_store coin tk : respects (stores_at_most tk) (store_tick coin tk).
Proof.
  intros w tk' H. unfold store_tick, bind, modify_mon, get_mon in H. simpl in H.
  unfold stored in H.
  assert (Hlatest : forall c, Dict.get c (Dict.set coin tk (latest_ticks (mon w)))
                              = Some tk' ->
                              stored w tk' \/ tk' = tk).
  { intros c Hc. destruct (String.eqb_spec c coin) as [->|Hne].
    - rewrite DictFacts.get_set_eq in Hc. right. congruence.
    - rewrite DictFacts.get_set_ne in Hc by assumption. left. left. eauto. }
  destruct (Dict.get coin (price_history (mon w))) as [dq|] eqn:E;
    unfold with_price_history, with_latest_ticks in H; simpl in H;
    destruct H as [[c Hc]|(c & q & Hq & Hin)]; eauto.
  - destruct (String.eqb_spec c coin) as [->|Hne].
    + rewrite DictFacts.get_set_eq in Hq. injection Hq as <-.
      apply In_items_append in Hin. destruct Hin; [|now right].
      left. right. eauto.
    + rewrite DictFacts.get_set_ne in Hq by assumption. left. right. eauto.
  - left. right. eauto.
Qed.

(** One turn of the loop body stores the tick it built, or nothing. *)
Lemma process_coin_stores X pd coin d w :
  Dict.get coin pd = Some d ->
  stores_at_most (new_tick coin d (clock w)) w (snd (process_coin X pd coin w)).
Proof.
  intros Hd. unfold process_coin. rewrite Hd.
  set (tk := new_tick coin d (clock w)).
  change (stores_at_most tk w
            (snd ((check_change X coin tk ;;
                   store_tick coin tk ;;
                   notify_observers X {| tick := Some tk; alert := None |})
                    (advance w)))).
  apply stores_at_most_trans with (advance w);
    [now apply stores_at_most_same|].
  generalize (advance w).
  pose proof (stores_at_most_refl tk) as Hr.
  pose proof (@stores_at_most_trans tk) as Ht.
  assert (Hp : forall e w0, (fun _ : Effect => True) e ->
             match e with Suspend _ m => m = mon w0 | _ => True end ->
             stores_at_most tk w0 (push e w0))
    by (intros; now apply stores_at_most_same).
  assert (Ho : forall s w0, stores_at_most tk w0 (upd_mon (with_observers s) w0))
    by (intros; now apply stores_at_most_same).
  assert (Hc : forall w0, stores_at_most tk w0 (advance w0))
    by (intros; now apply stores_at_most_same).
  change (respects (stores_at_most tk)
            (check_change X coin tk ;;
             store_tick coin tk ;;
             notify_observers X {| tick := Some tk; alert := None |})).
  apply respects_bind; [assumption | | intros _].
  - apply (@respects_check_change X _ (fun _ => True)); auto.
  - apply respects_bind; [assumption | apply stores_at_most_store | intros _].
    apply (@respects_notify_observers X _ (fun _ => True)); auto.
Qed.

Section Quoted.
Variable X : Externals.

Let R (w w' : World) : Prop :=
  (forall tk, stored w tk -> quoted tk) -> (forall tk, stored w' tk -> quoted tk).

Lemma quoted_same w w' :
  latest_ticks (mon w') = latest_ticks (mon w) ->
  price_history (mon w') = price_history (mon w) ->
  R w w'.
Proof.
  intros Hl Hp H tk Htk. apply H.
  destruct (@stores_at_most_same tk w w' Hl Hp tk Htk); [assumption|].
  unfold stored in *. now rewrite Hl, Hp in Htk.
Qed.

Lemma quoted_stop : respects R stop.
Proof.
  apply respects_stop; try (intros; now apply quoted_same); unfold R; auto.
Qed.

Lemma quoted_start : respects R start.
Proof.
  apply respects_start; try (intros; now apply quoted_same); unfold R; auto.
Qed.

Lemma quoted_loop inputs : respects R (_monitoring_loop X inputs).
Proof.
  apply (@respects_monitoring_loop X R) with (P := fun _ => True) (Q := quoted).
  - unfold R; auto.
  - unfold R; auto.
  - intros e w _. now apply quoted_same.
  - intros o w. now apply quoted_same.
  - intros w. now apply quoted_same.
  - intros w w' H. apply H. apply Forall_forall. exact (fun _ _ => I).
  - intros coin d now. now exists coin, d, now.
  - intros coin tk _ Hq w H tk' Htk'.
    destruct (@stores_at_most_store coin tk w tk' Htk') as [Hold| ->]; auto.
  - intros d w. now apply quoted_same.
  - apply quoted_stop.
Qed.

Lemma quoted_run calls w :
  (forall tk, stored w tk -> quoted tk) ->
  forall tk, stored (run X calls w) tk -> quoted tk.
Proof.
  revert w. induction calls as [|c calls IH]; intros w H; simpl; [assumption|].
  apply IH. destruct c as [| |[o|o]|inputs]; simpl.
  - now apply quoted_start.
  - now apply quoted_stop.
  - revert H. now apply quoted_same.
  - revert H. now apply quoted_same.
  - now apply quoted_loop.
Qed.
End Quoted.

Lemma stored_init s tk : ~ stored (world_of (init s)) tk.
Proof.
  intros [[c H]|(c & dq & H & Hin)]; simpl in H; [discriminate|].
  apply init_history_get in H.
  - subst. contradiction.
  - intros c' q Hq. discriminate.
Qed.

(** C9, as the code has it.  A response entry without a price gives a
    tick of price 0.0, which is stored like any other. *)
Lemma stored_tick_with_price_zero :
  exists tk,
    stored after_no_price tk
    /\ Dict.get "bitcoin" (latest_ticks (mon after_no_price)) = Some tk
    /\ (exists dq, Dict.get "bitcoin" (price_history (mon after_no_price)) = Some dq
                   /\ items dq = [tk])
    /\ price_usd tk = 0%float
    /\ (0 <? price_usd tk)%float = false.
Proof.
  exists (new_tick "bitcoin" [] 0).
  split; [left; exists "bitcoin"%string; reflexivity|].
  split; [reflexivity|].
  split; [eexists; split; reflexivity|].
  split; reflexivity.
Qed.

(** C9, amended.  The price of a tick the loop builds is the ["usd"] value
    of the instrument's entry in the response, and 0.0 when the entry has
    none, so it is strictly positive exactly when the response gives a
    strictly positive value; a turn of the loop body stores that tick or
    nothing; and every tick stored in an engine, whatever was called on it
    since its construction, was built that way. *)
Theorem stored_tick_price_is_the_quoted_price :
  (forall coin d now,
     price_usd (new_tick coin d now) = get_default "usd" 0%float d)
  /\ (forall coin d now,
        (0 <? price_usd (new_tick coin d now))%float = true
        <-> exists p, Dict.get "usd" d = Some p /\ (0 <? p)%float = true)
  /\ (forall X pd coin d w,
        Dict.get coin pd = Some d ->
        stores_at_most (new_tick coin d (clock w)) w
          (snd (process_coin X pd coin w)))
  /\ (forall X s calls tk,
        stored (run X calls (world_of (init s))) tk -> quoted tk).
Proof.
  split; [reflexivity|]. split; [|split].
  - intros coin d now. simpl. unfold get_default.
    destruct (Dict.get "usd" d) as [p|].
    + split; [eauto | now intros (p' & [= <-] & H)].
    + split; [intros H; vm_compute in H; discriminate|].
      intros (p & H & _). discriminate.
  - intros X pd coin d w. apply process_coin_stores.
  - intros X s calls tk. apply quoted_run.
    intros tk' H. now apply stored_init in H.
Qed.

Lemma stored_tick_price_is_the_quoted_price_witness :
  stores_at_most (new_tick "bitcoin" [] 0) (world_of (init two_coins))
    (snd (process_coin quiet [("bitcoin"%string, [])] "bitcoin"
            (world_of (init two_coins)))).
Proof.
  exact (proj1 (proj2 (proj2 stored_tick_price_is_the_quoted_price))
           quiet [("bitcoin"%string, [])] "bitcoin"%string []
           (world_of (init two_coins)) eq_refl).
Defined.

(** ** The hub *)

Lemma with_observers_same m : with_observers (_observers m) m = m.
Proof. destruct m; reflexivity. Qed.

Lemma updates_of_app tr tr' :
  updates_of (tr ++ tr') = updates_of tr ++ updates_of tr'.
Proof. unfold updates_of. apply flat_map_app. Qed.

Lemma mon_delivered n l w : mon (delivered n l w) = mon w.
Proof.
  revert w. induction l as [|o l IH]; intros w; [reflexivity|].
  change (mon (delivered n l (push (Suspend (AtUpdate o n) (mon w)) w)) = mon w).
  now rewrite IH.
Qed.

Lemma updates_of_delivered n l w :
  updates_of (trace (delivered n l w))
  = updates_of (trace w) ++ map (fun o => (o, n)) l.
Proof.
  revert w. induction l as [|o l IH]; intros w.
  - simpl. now rewrite app_nil_r.
  - change (delivered n (o :: l) w)
      with (delivered n l (push (Suspend (AtUpdate o n) (mon w)) w)).
    rewrite IH. unfold push. cbn [trace]. rewrite updates_of_app. simpl.
    now rewrite <- app_assoc.
Qed.

Lemma call_update_takes X n o w :
  takes X n o ->
  call_update X o n w = (Ok tt, push (Suspend (AtUpdate o n) (mon w)) w).
Proof.
  unfold takes, call_update. intros ->.
  unfold bind, suspend, bind, get_mon, emit, modify_mon. simpl.
  unfold upd_mon. simpl. rewrite with_observers_same. reflexivity.
Qed.

(** What [call_update] does in general: the suspension is recorded, the
    registry undergoes the calls made meanwhile, the handler's end is the
    call's. *)
Lemma call_update_spec X n o w :
  call_update X o n w
  = (match snd (update X o n) with
     | Returns _ => Ok tt
     | Raises e => Raise (Exception e)
     end,
     upd_mon (fun m => with_observers
                         (fold_left apply_op (fst (update X o n)) (_observers m)) m)
       (push (Suspend (AtUpdate o n) (mon w)) w)).
Proof.
  unfold call_update, bind, suspend, bind, get_mon, emit, modify_mon. simpl.
  destruct (snd (update X o n)) as [[]|e]; reflexivity.
Qed.

(** The loop passes over observers that take the notification. *)
Lemma iterate_takes X n before : forall done rest w,
  _observers (mon w) = done ++ before ++ rest ->
  (forall o, In o before -> takes X n o) ->
  iterate X (length before + length rest) (length done)
    (length (done ++ before ++ rest)) n w
  = iterate X (length rest) (length done + length before)
      (length (done ++ before ++ rest)) n (delivered n before w).
Proof.
  induction before as [|o before IH]; intros done rest w Hobs Htakes.
  - simpl. now rewrite Nat.add_0_r.
  - cbn [length Nat.add iterate]. rewrite Hobs, Nat.eqb_refl.
    rewrite nth_error_app2, Nat.sub_diag by lia. cbn [nth_error app].
    unfold bind. rewrite call_update_takes by (apply Htakes; now left).
    specialize (IH (done ++ [o]) rest (push (Suspend (AtUpdate o n) (mon w)) w)).
    rewrite <- !app_assoc in IH. cbn [app] in IH.
    rewrite length_app in IH. cbn [length] in IH.
    replace (length done + 1) with (S (length done)) in IH by lia.
    rewrite IH; [|assumption | intros; apply Htakes; now right].
    change (delivered n (o :: before) w)
      with (delivered n before (push (Suspend (AtUpdate o n) (mon w)) w)).
    f_equal. lia.
Qed.

(** The call reaches an observer when those before it take the
    notification. *)
Lemma notify_reaches X n w before o after :
  _observers (mon w) = before ++ o :: after ->
  (forall o', In o' before -> takes X n o') ->
  notify_observers X n w
  = (call_update X o n ;;
     iterate X (length after) (S (length before))
       (length (before ++ o :: after)) n)
      (delivered n before (push (Notify n) w)).
Proof.
  intros Hobs Htakes.
  change (notify_observers X n w)
    with (iterate X (length (_observers (mon w))) 0
            (length (_observers (mon w))) n (push (Notify n) w)).
  rewrite Hobs.
  pose proof (@iterate_takes X n before [] (o :: after) (push (Notify n) w)
                Hobs Htakes) as H.
  cbn [app length] in H. rewrite length_app. cbn [length].
  rewrite length_app in H. cbn [length] in H. rewrite H.
  cbn [iterate]. rewrite mon_delivered. cbn [push mon]. rewrite Hobs.
  rewrite length_app. cbn [length]. rewrite Nat.eqb_refl.
  rewrite nth_error_app2, Nat.sub_diag by lia. cbn [nth_error].
  reflexivity.
Qed.

Lemma notify_all_take X n w :
  (forall o, In o (_observers (mon w)) -> takes X n o) ->
  notify_observers X n w
  = (Ok tt, delivered n (_observers (mon w)) (push (Notify n) w)).
Proof.
  intros Htakes.
  change (notify_observers X n w)
    with (iterate X (length (_observers (mon w))) 0
            (length (_observers (mon w))) n (push (Notify n) w)).
  pose proof (@iterate_takes X n (_observers (mon w)) [] [] (push (Notify n) w)) as H.
  cbn [app length] in H. rewrite app_nil_r, Nat.add_0_r in H.
  rewrite H; [|reflexivity | assumption].
  cbn [iterate]. rewrite mon_delivered. cbn [push mon].
  now rewrite Nat.eqb_refl.
Qed.

(** C4, as the code has it.  With one subscriber, whose delivery sees
    another one registered, and with two, the delivery to observer 1
    seeing observer 2 unregistered, in either order of the set: the
    broadcast raises [RuntimeError].  When observer 1 comes first,
    observer 2, registered when the broadcast started, is not handed the
    event a snapshot would have handed it. *)
Lemma broadcast_fails_when_registry_changes :
  fst (notify_observers registers_another tick_event one_subscriber)
  = Raise (Exception SetChangedSize)
  /\ fst (notify_observers unregisters_other tick_event two_subscribers)
     = Raise (Exception SetChangedSize)
  /\ fst (notify_observers unregisters_other tick_event two_subscribers_reversed)
     = Raise (Exception SetChangedSize)
  /\ _observers (mon two_subscribers) = [1; 2]
  /\ updates_of (trace (snd (notify_observers unregisters_other tick_event
                               two_subscribers)))
     = [(1, tick_event)].
Proof. repeat split. Qed.

(** C4, amended.  The broadcast walks the live set.  When every
    subscriber takes the event and the registry is left alone meanwhile,
    each subscriber registered at the start is handed the event once, in
    the order of the set, and the call returns.  When the subscribers
    before one take it and the calls made to the registry during the
    delivery to that one change the size of the set, the broadcast raises
    [RuntimeError] at its next step, and the subscribers after it are not
    handed the event. *)
Theorem broadcast_walks_the_live_set :
  forall (X : Externals) (n : Notification) (w : World),
    ((forall o, In o (_observers (mon w)) -> takes X n o) ->
     let r := notify_observers X n w in
     fst r = Ok tt
     /\ updates_of (trace (snd r))
        = updates_of (trace w) ++ map (fun o => (o, n)) (_observers (mon w))
     /\ mon (snd r) = mon w)
    /\ (forall before o after,
          _observers (mon w) = before ++ o :: after ->
          (forall o', In o' before -> takes X n o') ->
          snd (update X o n) = Returns tt ->
          length (fold_left apply_op (fst (update X o n)) (before ++ o :: after))
          <> length (before ++ o :: after) ->
          let r := notify_observers X n w in
          fst r = Raise (Exception SetChangedSize)
          /\ updates_of (trace (snd r))
             = updates_of (trace w) ++ map (fun o' => (o', n)) (before ++ [o])).
Proof.
  intros X n w. split.
  - intros Htakes. cbv zeta. rewrite notify_all_take by assumption. cbn [fst snd].
    rewrite updates_of_delivered, mon_delivered. cbn [push trace mon].
    rewrite updates_of_app. cbn. rewrite app_nil_r. auto.
  - intros before o after Hobs Htakes Hret Hsize. cbv zeta.
    rewrite (@notify_reaches X n w before o after Hobs Htakes).
    unfold bind. rewrite call_update_spec, Hret.
    set (w1 := delivered n before (push (Notify n) w)).
    set (w2 := upd_mon _ (push (Suspend (AtUpdate o n) (mon w1)) w1)).
    assert (Hlen : (length (_observers (mon w2)) =? length (before ++ o :: after))
                   = false).
    { apply Nat.eqb_neq. unfold w2, w1. cbn [upd_mon mon push].
      rewrite mon_delivered. cbn [push mon]. cbn [with_observers _observers].
      now rewrite Hobs. }
    assert (Hit : iterate X (length after) (S (length before))
                    (length (before ++ o :: after)) n w2
                  = (Raise (Exception SetChangedSize), w2)).
    { destruct (length after); cbn [iterate]; now rewrite Hlen. }
    rewrite Hit. cbn [fst snd]. split; [reflexivity|].
    unfold w2, w1. cbn [upd_mon trace push].
    rewrite updates_of_app, updates_of_delivered. cbn [push trace].
    rewrite updates_of_app. cbn. rewrite app_nil_r, map_app, <- app_assoc.
    reflexivity.
Qed.

Lemma broadcast_walks_the_live_set_witness :
  fst (notify_observers quiet tick_event two_subscribers) = Ok tt.
Proof.
  exact (proj1 (proj1 (@broadcast_walks_the_live_set quiet tick_event two_subscribers)
                  (fun _ _ => eq_refl))).
Defined.

(** ** What a turn of the loop can raise *)

Lemma safe_ret {A} (a : A) : safe (ret a).
Proof. intros w. discriminate. Qed.

Lemma safe_raise {A} (e : error) : safe (@raise A (Exception e)).
Proof. intros w. discriminate. Qed.

Lemma safe_bind {A B} (c : M A) (k : A -> M B) :
  safe c -> (forall a, safe (k a)) -> safe (bind c k).
Proof.
  intros Hc Hk w. unfold bind. specialize (Hc w).
  destruct (c w) as [[a|e] w']; [apply Hk|].
  simpl in *. intros [= ->]. now apply Hc.
Qed.

Lemma safe_try_except {A} (c : M A) (h : exn -> M A) :
  (forall e, safe (h (Exception e))) -> safe c -> safe (try_except c h).
Proof.
  intros Hh Hc w. unfold try_except. specialize (Hc w).
  destruct (c w) as [[a|[e|]] w']; simpl in *;
    [discriminate | apply Hh | contradiction].
Qed.

Lemma safe_for_each {A} (l : list A) (body : A -> M unit) :
  (forall x, safe (body x)) -> safe (for_each l body).
Proof.
  intros H. induction l as [|x l IH]; simpl.
  - apply safe_ret.
  - apply safe_bind; auto.
Qed.

Lemma safe_lift {A} (o : outcome A) : safe (lift_outcome o).
Proof. destruct o; [apply safe_ret | apply safe_raise]. Qed.

Lemma safe_get_mon : safe get_mon.
Proof. intros w. discriminate. Qed.

Lemma safe_modify_mon f : safe (modify_mon f).
Proof. intros w. discriminate. Qed.

Lemma safe_emit e : safe (emit e).
Proof. intros w. discriminate. Qed.

Lemma safe_datetime_now : safe datetime_now.
Proof. intros w. discriminate. Qed.

Ltac safe_step :=
  lazymatch goal with
  | |- safe (ret _) => apply safe_ret
  | |- safe (raise (Exception _)) => apply safe_raise
  | |- safe get_mon => apply safe_get_mon
  | |- safe (modify_mon _) => apply safe_modify_mon
  | |- safe (emit _) => apply safe_emit
  | |- safe (logger _) => apply safe_emit
  | |- safe datetime_now => apply safe_datetime_now
  | |- safe (lift_outcome _) => apply safe_lift
  | |- safe (bind _ _) => apply safe_bind; [|intros ?]
  | |- safe (try_except _ _) => apply safe_try_except; [intros ?|]
  | |- safe (match ?x with _ => _ end) => destruct x
  end.

Ltac safe_auto := repeat safe_step.

Section Safe.
Variable X : Externals.

Lemma safe_suspend p ops : safe (suspend p ops).
Proof. unfold suspend. safe_auto. Qed.

Lemma safe_call_update o n : safe (call_update X o n).
Proof. unfold call_update. safe_auto. apply safe_suspend. Qed.

Lemma safe_iterate k pos used n : safe (iterate X k pos used n).
Proof.
  revert pos. induction k as [|k IH]; intros pos w; simpl.
  - destruct (_ =? _); discriminate.
  - destruct (_ =? _); [|discriminate].
    destruct (nth_error _ _); [|discriminate].
    apply safe_bind; auto using safe_call_update.
Qed.

Lemma safe_notify_observers n : safe (notify_observers X n).
Proof. unfold notify_observers. safe_auto. apply safe_iterate. Qed.

Lemma safe_py_truediv x y : safe (py_truediv x y).
Proof. unfold py_truediv. safe_auto. Qed.

Lemma safe_check_change coin tk : safe (check_change X coin tk).
Proof.
  unfold check_change. safe_auto;
    first [apply safe_py_truediv | apply safe_notify_observers].
Qed.

Lemma safe_store_tick coin tk : safe (store_tick coin tk).
Proof. unfold store_tick. safe_auto. Qed.

Lemma safe_process_coin pd coin : safe (process_coin X pd coin).
Proof.
  unfold process_coin. safe_auto;
    first [apply safe_check_change | apply safe_store_tick
          | apply safe_notify_observers].
Qed.

Lemma safe_fetch_and_process inp : safe (_fetch_and_process_prices X inp).
Proof.
  unfold _fetch_and_process_prices. safe_auto; [apply safe_suspend|].
  apply safe_for_each. intros; apply safe_process_coin.
Qed.

Lemma safe_statistics_of coin df : safe (statistics_of X coin df).
Proof. unfold statistics_of, column. safe_auto. Qed.

Lemma safe_statistics_step item : safe (statistics_step X item).
Proof. unfold statistics_step. safe_auto. apply safe_statistics_of. Qed.

Lemma safe_calculate_statistics : safe (_calculate_statistics X).
Proof.
  unfold _calculate_statistics. safe_auto.
  apply safe_for_each. intros; apply safe_statistics_step.
Qed.

(** Without a [stop()] during its sleep, a turn of the loop returns:
    whatever the data source, the observers and the kernels raised was
    caught and logged. *)
Lemma cycle_returns inp w :
  stop_during_sleep inp = false -> fst (cycle X inp w) = Ok tt.
Proof.
  intros Hs. unfold cycle, bind, try_except.
  pose proof (@safe_bind _ _ (_fetch_and_process_prices X inp)
                (fun _ => _calculate_statistics X)
                (safe_fetch_and_process inp)
                (fun _ => safe_calculate_statistics) w) as Hsafe.
  unfold bind in Hsafe.
  destruct (_fetch_and_process_prices X inp w) as [[[]|e] w1].
  - destruct (_calculate_statistics X w1) as [[[]|[e|]] w2]; simpl in *.
    + unfold sleep, bind, get_mon, suspend, bind, get_mon, emit, modify_mon.
      simpl. now rewrite Hs.
    + destruct (is_CoinGeckoAPIError e); simpl;
        unfold sleep, bind, get_mon, suspend, bind, get_mon, emit, modify_mon;
        simpl; now rewrite Hs.
    + contradiction.
  - destruct e as [e|]; simpl in *; [|contradiction].
    destruct (is_CoinGeckoAPIError e); simpl;
      unfold sleep, bind, get_mon, suspend, bind, get_mon, emit, modify_mon;
      simpl; now rewrite Hs.
Qed.
End Safe.

(** ** Handlers that raise *)

(** C5, as the code has it.  Two observers that raise on alerts, as the
    application's do, and an alert: the first one reached raises, the
    broadcast raises with it, and the other one is not handed the alert,
    whichever comes first. *)
Lemma raising_subscriber_stops_the_broadcast :
  fst (notify_observers websocket_observers alert_event two_subscribers)
  = Raise (Exception AttributeError)
  /\ _observers (mon two_subscribers) = [1; 2]
  /\ updates_of (trace (snd (notify_observers websocket_observers alert_event
                               two_subscribers)))
     = [(1, alert_event)]
  /\ fst (notify_observers websocket_observers alert_event two_subscribers_reversed)
     = Raise (Exception AttributeError)
  /\ updates_of (trace (snd (notify_observers websocket_observers alert_event
                               two_subscribers_reversed)))
     = [(2, alert_event)].
Proof. repeat split. Qed.

(** C5, amended.  The hub catches nothing: when the subscribers before one
    take the event and the handler of that one raises, the broadcast
    raises the same exception to its caller, and the subscribers after it
    are not handed the event.  The loop of the engine is where it is
    caught: a turn that no [stop()] interrupts returns. *)
Theorem handler_exception_reaches_the_caller :
  forall (X : Externals) (n : Notification) (w : World)
         (before : list Observer) (o : Observer) (after : list Observer)
         (e : error),
    _observers (mon w) = before ++ o :: after ->
    (forall o', In o' before -> takes X n o') ->
    snd (update X o n) = Raises e ->
    fst (notify_observers X n w) = Raise (Exception e)
    /\ updates_of (trace (snd (notify_observers X n w)))
       = updates_of (trace w) ++ map (fun o' => (o', n)) (before ++ [o])
    /\ (forall inp w0, stop_during_sleep inp = false -> fst (cycle X inp w0) = Ok tt).
Proof.
  intros X n w before o after e Hobs Htakes Hraise.
  rewrite (@notify_reaches X n w before o after Hobs Htakes).
  unfold bind. rewrite call_update_spec, Hraise. cbn [fst snd].
  split; [reflexivity|]. split.
  - cbn [upd_mon trace push].
    rewrite updates_of_app, updates_of_delivered. cbn [push trace].
    rewrite updates_of_app. cbn. rewrite app_nil_r, map_app, <- app_assoc.
    reflexivity.
  - intros inp w0. apply cycle_returns.
Qed.

Lemma handler_exception_reaches_the_caller_witness :
  fst (notify_observers websocket_observers alert_event two_subscribers)
  = Raise (Exception AttributeError).
Proof.
  refine (proj1 (@handler_exception_reaches_the_caller websocket_observers
                   alert_event two_subscribers [] 1 [2] AttributeError
                   eq_refl _ eq_refl)).
  intros o' [].
Defined.

(** ** A fetch that fails *)

(** A turn whose fetch raises: the error is logged and the turn sleeps. *)
Lemma cycle_failed_fetch X inp w e :
  fetched inp = Raises e ->
  cycle X inp w
  = (suspend (AtGetPrice (crypto_ids (mon w))) (during_fetch inp) ;;
     logger (if is_CoinGeckoAPIError e then ApiError e else UnexpectedError e) ;;
     sleep inp) w.
Proof.
  intros Hf. unfold cycle, _fetch_and_process_prices, try_except, bind.
  rewrite Hf. simpl. destruct (is_CoinGeckoAPIError e); reflexivity.
Qed.

Lemma is_running_cycle X inp w :
  stop_during_sleep inp = false ->
  is_running (mon (snd (cycle X inp w))) = is_running (mon w).
Proof.
  intros Hs. unfold cycle.
  set (R := fun w w' : World => is_running (mon w') = is_running (mon w)).
  assert (Hr : forall w0, R w0 w0) by reflexivity.
  assert (Ht : forall w1 w2 w3, R w1 w2 -> R w2 w3 -> R w1 w3)
    by (unfold R; intros; congruence).
  change (R w (snd ((try_except
                       (_fetch_and_process_prices X inp ;; _calculate_statistics X)
                       (fun e => match e with
                                 | Exception e' =>
                                     if is_CoinGeckoAPIError e'
                                     then logger (ApiError e')
                                     else logger (UnexpectedError e')
                                 | CancelledError => raise e
                                 end) ;; sleep inp) w))).
  revert w. apply respects_bind; [assumption | | intros _].
  - apply (@respects_cycle_work X R) with (P := fun _ => True) (Q := fun _ => True);
      try reflexivity; auto.
    + intros w w' H. apply H. apply Forall_forall. exact (fun _ _ => I).
    + intros coin tk _ _ w. unfold store_tick, bind, modify_mon, get_mon. simpl.
      destruct (Dict.get coin _); reflexivity.
  - unfold sleep. rewrite Hs. intros w. reflexivity.
Qed.

Lemma loop_turn X inp rest w :
  is_running (mon w) = true ->
  _monitoring_loop X (inp :: rest) w
  = (cycle X inp ;; _monitoring_loop X rest) w.
Proof.
  intros H. cbn [_monitoring_loop]. unfold bind at 1. cbn [get_mon].
  now rewrite H.
Qed.

(** Turns that no [stop()] interrupts leave the loop looping. *)
Lemma loop_keeps_looping X inputs : forall w,
  is_running (mon w) = true ->
  Forall (fun inp => stop_during_sleep inp = false) inputs ->
  fst (_monitoring_loop X inputs w) = Ok Looping
  /\ is_running (mon (snd (_monitoring_loop X inputs w))) = true.
Proof.
  induction inputs as [|inp rest IH]; intros w Hrun Hall.
  - now split.
  - inversion Hall as [|? ? Hs Hrest]; subst.
    rewrite loop_turn by assumption. unfold bind.
    pose proof (@cycle_returns X inp w Hs) as Hret.
    pose proof (@is_running_cycle X inp w Hs) as Hkeep.
    destruct (cycle X inp w) as [[[]|e] w1]; simpl in Hret; [|discriminate].
    apply IH; [|assumption]. simpl in Hkeep. congruence.
Qed.

(** C3, as the code has it.  A fetch that fails ends the work of the turn:
    the statistics are not recomputed.  After two full turns, a turn whose
    fetch fails leaves the statistics with the timestamps they had and the
    clock unread, where a recomputation stamps them anew; after two turns
    cut short, the buffers hold two ticks each and the failed turn leaves
    the statistics empty, where a recomputation fills them. *)
Lemma failed_fetch_skips_statistics :
  fst (cycle quiet (failed_fetch CoinGeckoAPIError) after_two_turns) = Ok tt
  /\ timestamps (latest_stats (mon after_two_turns)) = [5; 6]
  /\ timestamps (latest_stats (mon (snd (cycle quiet (failed_fetch CoinGeckoAPIError)
                                           after_two_turns)))) = [5; 6]
  /\ clock (snd (cycle quiet (failed_fetch CoinGeckoAPIError) after_two_turns))
     = clock after_two_turns
  /\ timestamps (latest_stats (mon (snd (_calculate_statistics quiet
                                           after_two_turns)))) = [7; 8]
  /\ map (fun kv => deque_len (snd kv)) (price_history (mon after_two_broken_turns))
     = [2; 2]
  /\ latest_stats (mon (snd (cycle (breaks_on 10) (failed_fetch RateLimitError)
                               after_two_broken_turns))) = []
  /\ Dict.keys (latest_stats (mon (snd (_calculate_statistics (breaks_on 10)
                                          after_two_broken_turns))))
     = ["bitcoin"; "ethereum"]%string.
Proof. vm_compute. repeat split. Qed.

(** C3, amended.  A turn whose fetch fails, with any exception, logs it
    and goes to sleep, skipping the rest of the turn, the statistics as
    well: the monitor is as it was, but for what other tasks did to the
    registry; the clock was not read; the trace gained the two suspensions
    and the log record.  And the loop does not end for it: turns that no
    [stop()] interrupts, whatever they are given, leave the loop looping
    and the engine running. *)
Theorem fetch_failure_skips_to_the_sleep :
  forall (X : Externals) (inp : CycleInput) (w : World) (e : error),
    fetched inp = Raises e ->
    stop_during_sleep inp = false ->
    fst (cycle X inp w) = Ok tt
    /\ mon (snd (cycle X inp w))
       = with_observers
           (fold_left apply_op (during_fetch inp ++ during_sleep inp)
              (_observers (mon w)))
           (mon w)
    /\ clock (snd (cycle X inp w)) = clock w
    /\ tasks (snd (cycle X inp w)) = tasks w
    /\ trace (snd (cycle X inp w))
       = trace w
         ++ [Suspend (AtGetPrice (crypto_ids (mon w))) (mon w);
             Log (if is_CoinGeckoAPIError e then ApiError e else UnexpectedError e);
             Suspend (AtSleep (interval (mon w)))
               (with_observers
                  (fold_left apply_op (during_fetch inp) (_observers (mon w)))
                  (mon w))]
    /\ (forall inputs w0,
          is_running (mon w0) = true ->
          Forall (fun i => stop_during_sleep i = false) inputs ->
          fst (_monitoring_loop X inputs w0) = Ok Looping
          /\ is_running (mon (snd (_monitoring_loop X inputs w0))) = true).
Proof.
  intros X inp w e Hf Hs. rewrite (@cycle_failed_fetch X inp w e Hf).
  unfold sleep. rewrite Hs.
  unfold bind, suspend, bind, get_mon, emit, logger, emit, modify_mon, ret.
  cbn [fst snd upd_mon push mon clock tasks trace].
  repeat split.
  - rewrite fold_left_app. reflexivity.
  - rewrite <- !app_assoc. reflexivity.
  - now apply loop_keeps_looping.
  - now apply loop_keeps_looping.
Qed.

Lemma fetch_failure_skips_to_the_sleep_witness :
  fst (cycle quiet (failed_fetch RateLimitError) after_two_turns) = Ok tt.
Proof.
  exact (proj1 (@fetch_failure_skips_to_the_sleep quiet (failed_fetch RateLimitError)
                  after_two_turns RateLimitError eq_refl eq_refl)).
Defined.

(** ** The alert policy *)

Lemma alerts_of_app tr tr' : alerts_of (tr ++ tr') = alerts_of tr ++ alerts_of tr'.
Proof. unfold alerts_of. apply flat_map_app. Qed.

Section Alerts.
Variable X : Externals.

(** No alert went to the hub between two worlds. *)
Let R (w w' : World) : Prop := alerts_of (trace w') = alerts_of (trace w).

(** The effects that carry no alert to the hub. *)
Let E (e : Effect) : Prop := alerts_of [e] = [].

Let R_refl : forall w, R w w.
Proof. reflexivity. Qed.

Let R_trans : forall w1 w2 w3, R w1 w2 -> R w2 w3 -> R w1 w3.
Proof. unfold R. intros. congruence. Qed.

Let R_push : forall e w,
  E e -> match e with Suspend _ m => m = mon w | _ => True end -> R w (push e w).
Proof.
  unfold R, E. intros e w He _. cbn [push trace].
  now rewrite alerts_of_app, He, app_nil_r.
Qed.

Let R_observers : forall s w, R w (upd_mon (with_observers s) w).
Proof. reflexivity. Qed.

Lemma alerts_iterate k pos used n : respects R (iterate X k pos used n).
Proof. apply respects_iterate with (E := E); auto. reflexivity. Qed.

(** A broadcast hands the hub the alert of its notification, whatever
    the observers do with it. *)
Lemma alerts_notify n w :
  alerts_of (trace (snd (notify_observers X n w)))
  = alerts_of (trace w) ++ alerts_of [Notify n].
Proof.
  change (notify_observers X n w)
    with (iterate X (length (_observers (mon w))) 0
            (length (_observers (mon w))) n (push (Notify n) w)).
  rewrite alerts_iterate. cbn [push trace]. apply alerts_of_app.
Qed.

Lemma alerts_store coin tk : respects R (store_tick coin tk).
Proof.
  intros w. unfold store_tick, bind, modify_mon, get_mon. simpl.
  destruct (Dict.get coin _); reflexivity.
Qed.

(** The [if coin_id in self.latest_ticks:] block hands the hub what the
    policy asks for, when the previous price is not zero. *)
Lemma alerts_check_change coin tk w :
  coin_id tk = coin ->
  (forall old, Dict.get coin (latest_ticks (mon w)) = Some old ->
               (price_usd old =? 0)%float = false) ->
  alerts_of (trace (snd (check_change X coin tk w)))
  = alerts_of (trace w)
    ++ expected_alerts (threshold (mon w))
         (Dict.get coin (latest_ticks (mon w))) tk (clock w).
Proof.
  intros Hcoin Hnz. unfold check_change, bind. cbn [get_mon].
  destruct (Dict.get coin (latest_ticks (mon w))) as [old|] eqn:Eold.
  - unfold py_truediv. rewrite (Hnz old eq_refl). cbn [ret expected_alerts].
    fold (percent_change (price_usd old) (price_usd tk)).
    destruct (threshold (mon w)
              <=? abs (percent_change (price_usd old) (price_usd tk)))%float.
    + cbn [datetime_now].
      match goal with
      | |- context [notify_observers X ?n ?w0] =>
          pose proof (alerts_notify n w0) as Hn;
          destruct (notify_observers X n w0) as [[[]|e] w1]
      end; cbn [snd fst] in *.
      * cbn [logger emit push trace snd]. rewrite alerts_of_app, Hn.
        cbn. rewrite app_nil_r, Hcoin. reflexivity.
      * rewrite Hn. cbn. rewrite Hcoin. reflexivity.
    + cbn. now rewrite app_nil_r.
  - cbn. now rewrite app_nil_r.
Qed.

(** The body of the loop, for an instrument the response quotes. *)
Lemma alerts_process_coin pd coin d w :
  Dict.get coin pd = Some d ->
  (forall old, Dict.get coin (latest_ticks (mon w)) = Some old ->
               (price_usd old =? 0)%float = false) ->
  alerts_of (trace (snd (process_coin X pd coin w)))
  = alerts_of (trace w)
    ++ expected_alerts (threshold (mon w))
         (Dict.get coin (latest_ticks (mon w)))
         (new_tick coin d (clock w)) (S (clock w)).
Proof.
  intros Hd Hnz. unfold process_coin. rewrite Hd.
  unfold bind at 1. cbn [datetime_now].
  set (tk := new_tick coin d (clock w)).
  pose proof (@alerts_check_change coin tk (advance w) eq_refl Hnz) as Hc.
  cbn [advance mon trace clock] in Hc.
  unfold bind at 1.
  destruct (check_change X coin tk (advance w)) as [[[]|e] w1];
    cbn [snd] in *; [|exact Hc].
  rewrite <- Hc.
  change (R w1 (snd ((store_tick coin tk ;;
                      notify_observers X {| tick := Some tk; alert := None |}) w1))).
  revert w1 Hc. intros w1 _. revert w1.
  apply respects_bind; [exact R_trans | apply alerts_store | intros _].
  intros w1. unfold R. rewrite alerts_notify. cbn. now rewrite app_nil_r.
Qed.
End Alerts.

(** C1, as the code has it.  An observer that raises on alerts, as the
    application's does, is connected; both instruments have a latest
    tick, and the second turn quotes both more than the threshold away
    from it.  The alert for bitcoin makes the observer raise, which ends
    the work of the turn: ethereum, present in the response and 10% up,
    gets no alert.  And without any observer: after a latest tick of price
    0.0, the change is infinite in floating point, above any threshold,
    but computing it raises [ZeroDivisionError]; neither instrument gets
    an alert. *)
Lemma no_alert_after_an_aborted_turn :
  map (fun kv => (fst kv, price_usd (snd kv))) (latest_ticks (mon before_both_moved))
  = [("bitcoin"%string, 100%float); ("ethereum"%string, 10%float)]
  /\ threshold (mon before_both_moved) = 1%float
  /\ fetched (quotes 102 11)
     = Returns [usd "bitcoin" 102; usd "ethereum" 11]
  /\ (1 <=? abs (percent_change 10 11))%float = true
  /\ after_both_moved
     = snd (_monitoring_loop websocket_observers [quotes 102 11] before_both_moved)
  /\ map alert_coin_id (alerts_of (trace after_both_moved)) = ["bitcoin"%string]
  /\ map (fun kv => (fst kv, price_usd (snd kv)))
       (latest_ticks (mon before_first_price))
     = [("bitcoin"%string, 0%float); ("ethereum"%string, 10%float)]
  /\ (1 <=? abs (percent_change 0 1))%float = true
  /\ after_first_price
     = snd (_monitoring_loop quiet [quotes 1 11] before_first_price)
  /\ alerts_of (trace after_first_price) = [].
Proof. vm_compute. repeat split. Qed.

(** C1, amended.  When the loop over the instruments reaches one that the
    response quotes (the turns of those before it returned), and the
    price of its latest tick, if it has one, is not zero: the alerts its
    turn hands the hub are those of the policy, that is, one alert exactly
    when it has a latest tick and the magnitude of the change from it, in
    floating point, is at least the threshold; the alert is an increase
    when the change is positive and a decrease otherwise, and carries the
    change as computed; and there is none without a latest tick. *)
Theorem alert_iff_threshold_crossed :
  forall (X : Externals) (pd : Dict.t (Dict.t float))
         (ids1 : list string) (coin : string) (ids2 : list string)
         (d : Dict.t float) (w w1 : World),
    for_each ids1 (process_coin X pd) w = (Ok tt, w1) ->
    Dict.get coin pd = Some d ->
    (forall old, Dict.get coin (latest_ticks (mon w1)) = Some old ->
                 (price_usd old =? 0)%float = false) ->
    for_each (ids1 ++ coin :: ids2) (process_coin X pd) w
    = (process_coin X pd coin ;; for_each ids2 (process_coin X pd)) w1
    /\ alerts_of (trace (snd (process_coin X pd coin w1)))
       = alerts_of (trace w1)
         ++ expected_alerts (threshold (mon w1))
              (Dict.get coin (latest_ticks (mon w1)))
              (new_tick coin d (clock w1)) (S (clock w1))
    /\ ((exists a, alerts_of (trace (snd (process_coin X pd coin w1)))
                   = alerts_of (trace w1) ++ [a])
        <-> exists old,
              Dict.get coin (latest_ticks (mon w1)) = Some old
              /\ (threshold (mon w1)
                  <=? abs (percent_change (price_usd old)
                             (get_default "usd" 0 d)))%float = true)
    /\ (Dict.get coin (latest_ticks (mon w1)) = None ->
        alerts_of (trace (snd (process_coin X pd coin w1))) = alerts_of (trace w1)).
Proof.
  intros X pd ids1 coin ids2 d w w1 Hreach Hd Hnz.
  pose proof (@alerts_process_coin X pd coin d w1 Hd Hnz) as Ha.
  split; [|split; [exact Ha | split]].
  - rewrite for_each_app. unfold bind at 1. rewrite Hreach. reflexivity.
  - rewrite Ha. unfold expected_alerts. cbn [new_tick price_usd].
    destruct (Dict.get coin (latest_ticks (mon w1))) as [old|].
    + destruct (threshold (mon w1) <=? _)%float eqn:Et.
      * split; [intros _; now exists old | intros _; eexists; reflexivity].
      * split.
        -- intros [a H]. apply app_inv_head in H. discriminate.
        -- intros (old' & [= <-] & H). congruence.
    + split.
      * intros [a H]. apply app_inv_head in H. discriminate.
      * intros (old' & H & _). discriminate.
  - intros Hnone. rewrite Ha, Hnone. cbn. now rewrite app_nil_r.
Qed.

Lemma alert_iff_threshold_crossed_witness :
  alerts_of (trace (snd (process_coin quiet [usd "bitcoin" 102; usd "ethereum" 11]
                           "bitcoin" after_two_turns)))
  = alerts_of (trace after_two_turns)
    ++ expected_alerts 1
         (Dict.get "bitcoin" (latest_ticks (mon after_two_turns)))
         (new_tick "bitcoin" [("usd"%string, 102%float)] 7) 8.
Proof.
  refine (proj1 (proj2 (@alert_iff_threshold_crossed quiet
                          [usd "bitcoin" 102; usd "ethereum" 11]
                          [] "bitcoin"%string ["ethereum"%string]
                          [("usd"%string, 102%float)]
                          after_two_turns after_two_turns eq_refl eq_refl _))).
  intros old H. vm_compute in H. injection H as <-. reflexivity.
Defined.

(** The scenario of the specification: threshold 1.0, one instrument
    quoted at 100, 102, 101, 95.  The second and the fourth turn alert. *)
Example alerts_of_the_scenario :
  let X := quiet in
  let s := {| crypto_id_list := ["X"%string];
              MONITORING_INTERVAL_SECONDS := 30;
              PRICE_CHANGE_THRESHOLD_PERCENT := 1%float;
              STATISTICS_BUFFER_SIZE := 100 |} in
  let q p := turn (Returns [usd "X" p]) in
  map (fun a => (alert_type a, old_price_usd a, new_price_usd a))
    (alerts_of (trace (run X [CallStart; LoopTurns (map q [100; 102; 101; 95]%float)]
                         (world_of (init s)))))
  = [(PRICE_INCREASE, 100, 102); (PRICE_DECREASE, 101, 95)]%float.
Proof. vm_compute. reflexivity. Qed.

(** * More of the code *)

(** ** Relations that depend on the registry or on the turn *)

Section HubFrame.
Variable X : Externals.
Variable R : World -> World -> Prop.
(** The notifications the relation admits. *)
Variable N : Notification -> Prop.
Hypothesis R_refl : forall w, R w w.
Hypothesis R_trans : forall w1 w2 w3, R w1 w2 -> R w2 w3 -> R w1 w3.
Hypothesis R_notify : forall n w, N n -> R w (push (Notify n) w).
Hypothesis R_update : forall o n ops,
  N n -> respects R (suspend (AtUpdate o n) ops).

Lemma hub_call_update o n : N n -> respects R (call_update X o n).
Proof. intros Hn. unfold call_update. respects_auto. Qed.

Lemma hub_iterate k pos used n : N n -> respects R (iterate X k pos used n).
Proof.
  intros Hn. revert pos. induction k as [|k IH]; intros pos w; simpl.
  - destruct (_ =? _); apply R_refl.
  - destruct (_ =? _); [|apply R_refl].
    destruct (nth_error _ _); [|apply R_refl].
    apply respects_bind; auto using hub_call_update.
Qed.

Lemma hub_notify_observers n : N n -> respects R (notify_observers X n).
Proof.
  intros Hn. unfold notify_observers. respects_auto;
    first [ now apply hub_iterate | intros w; now apply R_notify ].
Qed.
End HubFrame.

Section TurnFrame.
Variable X : Externals.
Variable R : World -> World -> Prop.
Hypothesis R_refl : forall w, R w w.
Hypothesis R_trans : forall w1 w2 w3, R w1 w2 -> R w2 w3 -> R w1 w3.
Hypothesis R_log : forall r w, R w (push (Log r) w).
Hypothesis R_clock : forall w, R w (advance w).
Hypothesis R_hub : forall n, respects R (notify_observers X n).
Variable P : string -> Prop.
Hypothesis R_store : forall coin d now,
  P coin -> respects R (store_tick coin (new_tick coin d now)).

Lemma turn_check_change coin tk : respects R (check_change X coin tk).
Proof.
  unfold check_change. respects_auto;
    first [ apply R_hub
          | intros w; apply R_clock
          | intros w; apply R_log ].
Qed.

Lemma turn_process_coin pd coin : P coin -> respects R (process_coin X pd coin).
Proof.
  intros HP. unfold process_coin. respects_auto;
    first [ apply turn_check_change
          | apply R_hub
          | now apply R_store
          | intros w; apply R_clock
          | intros w; apply R_log ].
Qed.
End TurnFrame.

Section PassFrame.
Variable X : Externals.
Variable R : World -> World -> Prop.
Hypothesis R_refl : forall w, R w w.
Hypothesis R_trans : forall w1 w2 w3, R w1 w2 -> R w2 w3 -> R w1 w3.
Hypothesis R_log : forall r w, R w (push (Log r) w).
Hypothesis R_clock : forall w, R w (advance w).
Hypothesis R_stats : forall d w, R w (upd_mon (with_latest_stats d) w).

Lemma pass_statistics_step item : respects R (statistics_step X item).
Proof.
  unfold statistics_step, statistics_of, column. respects_auto;
    intros w; first [apply R_log | apply R_clock | apply R_stats].
Qed.

Lemma pass_calculate_statistics : respects R (_calculate_statistics X).
Proof.
  unfold _calculate_statistics. respects_auto.
  apply respects_for_each; auto using pass_statistics_step.
Qed.
End PassFrame.

Section LoopFrame.
Variable X : Externals.
Variable R : World -> World -> Prop.
Hypothesis R_refl : forall w, R w w.
Hypothesis R_trans : forall w1 w2 w3, R w1 w2 -> R w2 w3 -> R w1 w3.
Hypothesis R_log : forall r w, R w (push (Log r) w).
(** The calls to the registry that come from outside. *)
Variable O : RegOp -> Prop.
(** The awaits of the loop and of [stop()]. *)
Hypothesis R_await : forall p ops,
  match p with AtUpdate _ _ => False | _ => True end ->
  Forall O ops -> respects R (suspend p ops).
Hypothesis R_pass : respects R (_calculate_statistics X).
Hypothesis R_tasks : forall f w, R w (upd_tasks f w).
Hypothesis R_running : forall b w, R w (upd_mon (with_is_running b) w).
Hypothesis R_task : forall t w, R w (upd_mon (with_task t) w).
Variable P : string -> Prop.
Hypothesis R_coins : forall w w',
  (Forall P (crypto_ids (mon w)) -> R w w') -> R w w'.
Hypothesis R_turn : forall pd coin,
  P coin -> respects R (process_coin X pd coin).

Ltac leaf :=
  first
    [ intros w;
      first [apply R_log | apply R_tasks | apply R_running | apply R_task]
    | apply R_await; [exact I | first [assumption | constructor]]
    | idtac ].

Lemma loop_start : respects R start.
Proof. unfold start, create_task. respects_auto; leaf. Qed.

Lemma loop_stop : respects R stop.
Proof. unfold stop, task_cancel, await_task. respects_auto; leaf. Qed.

Lemma loop_fetch_and_process inp :
  admits O inp -> respects R (_fetch_and_process_prices X inp).
Proof.
  intros [Hf Hs]. unfold _fetch_and_process_prices.
  apply respects_bind; [assumption .. | respects_auto | intros m].
  apply respects_bind; [assumption .. | leaf | intros _].
  apply respects_bind; [assumption .. | respects_auto | intros pd].
  apply respects_bind_get_mon. intros w. apply R_coins. intros HP.
  apply respects_for_each; auto.
  intros coin Hin. apply R_turn.
  rewrite Forall_forall in HP. now apply HP.
Qed.

Lemma loop_cycle inp : admits O inp -> respects R (cycle X inp).
Proof.
  intros Hadm. pose proof Hadm as [Hf Hs]. unfold cycle, sleep. respects_auto;
    first [ now apply loop_fetch_and_process
          | apply R_pass
          | apply loop_stop
          | leaf ].
Qed.

Lemma loop_monitoring_loop inputs :
  Forall (admits O) inputs -> respects R (_monitoring_loop X inputs).
Proof.
  induction 1 as [|inp rest Hinp Hrest IH]; simpl; respects_auto;
    try now apply loop_cycle.
Qed.

Hypothesis R_registry : forall op w,
  O op ->
  R w (upd_mon (fun m => with_observers (apply_op (_observers m) op) m) w).

Lemma loop_run_call c w : admits_call O c -> R w (run_call X w c).
Proof.
  destruct c as [| |[o|o]|inputs]; simpl; intros H.
  - apply loop_start.
  - apply loop_stop.
  - apply (@R_registry (Register o)). exact H.
  - apply (@R_registry (Unregister o)). exact H.
  - now apply loop_monitoring_loop.
Qed.

Lemma loop_run calls : Forall (admits_call O) calls ->
  forall w, R w (run X calls w).
Proof.
  induction 1 as [|c calls Hc Hcalls IH]; intros w; simpl.
  - apply R_refl.
  - eapply R_trans; [|apply IH]. now apply loop_run_call.
Qed.
End LoopFrame.
(** ** The registry is a set *)

Lemma existsb_eqb_In o s : existsb (Nat.eqb o) s = true <-> In o s.
Proof.
  rewrite existsb_exists. split.
  - intros [x [Hx E]]. apply Nat.eqb_eq in E. now subst.
  - intros H. exists o. split; [assumption | apply Nat.eqb_refl].
Qed.

Lemma In_set_add o o' s : In o' (set_add o s) <-> o' = o \/ In o' s.
Proof.
  unfold set_add. destruct (existsb (Nat.eqb o) s) eqn:E.
  - apply existsb_eqb_In in E. split; [tauto|]. intros [->|H]; assumption.
  - rewrite in_app_iff. simpl. intuition auto.
Qed.

Lemma In_set_discard o o' s : In o' (set_discard o s) <-> o' <> o /\ In o' s.
Proof.
  unfold set_discard. rewrite filter_In, negb_true_iff, Nat.eqb_neq.
  intuition auto.
Qed.

Lemma set_add_member o s : In o s -> set_add o s = s.
Proof. intros H. unfold set_add. apply existsb_eqb_In in H. now rewrite H. Qed.

Lemma set_discard_absent o s : ~ In o s -> set_discard o s = s.
Proof.
  unfold set_discard. induction s as [|x s IH]; simpl; [reflexivity|].
  intros H. destruct (Nat.eqb_spec o x) as [->|Hne]; simpl.
  - tauto.
  - rewrite IH by tauto. reflexivity.
Qed.

Lemma NoDup_set_add o s : NoDup s -> NoDup (set_add o s).
Proof.
  intros H. unfold set_add. destruct (existsb (Nat.eqb o) s) eqn:E; [assumption|].
  apply NoDup_app; [assumption | repeat constructor; simpl; tauto |].
  intros x Hx [<-|[]]. apply existsb_eqb_In in Hx. congruence.
Qed.

Lemma NoDup_set_discard o s : NoDup s -> NoDup (set_discard o s).
Proof. apply NoDup_filter. Qed.

Lemma NoDup_apply_op s op : NoDup s -> NoDup (apply_op s op).
Proof. destruct op; [apply NoDup_set_add | apply NoDup_set_discard]. Qed.

Lemma NoDup_fold_apply_op ops : forall s,
  NoDup s -> NoDup (fold_left apply_op ops s).
Proof.
  induction ops as [|op ops IH]; intros s H; simpl; auto using NoDup_apply_op.
Qed.

Lemma upd_mon_same w : upd_mon (fun m => m) w = w.
Proof. destruct w; reflexivity. Qed.

Lemma upd_mon_observers_same w s :
  s = _observers (mon w) -> upd_mon (with_observers s) w = w.
Proof. intros ->. destruct w as [m c t ts]. unfold upd_mon. simpl.
  now rewrite with_observers_same. Qed.

(** X1. The registry of an observable behaves as a set.  Registering puts
    the observer in and changes nothing for the others; registering an
    observer that is registered changes nothing at all, so a second
    registration does; unregistering takes it out and changes nothing for
    the others; unregistering an observer that is not registered changes
    nothing at all and raises nothing; and neither call ever leaves an
    observer twice in the registry. *)
Theorem registry_is_a_set :
  forall (o : Observer) (w : World),
    let added := snd (register_observer o w) in
    let removed := snd (unregister_observer o w) in
    fst (register_observer o w) = Ok tt
    /\ fst (unregister_observer o w) = Ok tt
    /\ (forall o', In o' (_observers (mon added))
                   <-> o' = o \/ In o' (_observers (mon w)))
    /\ (forall o', In o' (_observers (mon removed))
                   <-> o' <> o /\ In o' (_observers (mon w)))
    /\ (In o (_observers (mon w)) -> added = w)
    /\ snd (register_observer o added) = added
    /\ (~ In o (_observers (mon w)) -> removed = w)
    /\ snd (unregister_observer o removed) = removed
    /\ (NoDup (_observers (mon w)) ->
        NoDup (_observers (mon added)) /\ NoDup (_observers (mon removed))).
Proof.
  intros o w. cbv zeta.
  unfold register_observer, unregister_observer, modify_mon. cbn [fst snd].
  assert (Hadd : forall w0, In o (_observers (mon w0)) ->
            upd_mon (fun m => with_observers (set_add o (_observers m)) m) w0 = w0).
  { intros w0 H. destruct w0 as [m c t ts]. unfold upd_mon. cbn [mon] in *.
    now rewrite set_add_member, with_observers_same. }
  assert (Hrem : forall w0, ~ In o (_observers (mon w0)) ->
            upd_mon (fun m => with_observers (set_discard o (_observers m)) m) w0 = w0).
  { intros w0 H. destruct w0 as [m c t ts]. unfold upd_mon. cbn [mon] in *.
    now rewrite set_discard_absent, with_observers_same. }
  split; [reflexivity|]. split; [reflexivity|].
  split; [intros o'; apply In_set_add|].
  split; [intros o'; apply In_set_discard|].
  split; [apply Hadd|].
  split; [apply Hadd; cbn; apply In_set_add; now left|].
  split; [apply Hrem|].
  split; [apply Hrem; cbn; rewrite In_set_discard; tauto|].
  intros H. split; cbn; [now apply NoDup_set_add | now apply NoDup_set_discard].
Qed.

(** ** No observer is registered twice *)

Definition registry_stays_a_set (w w' : World) : Prop :=
  NoDup (_observers (mon w)) -> NoDup (_observers (mon w')).
(** ** No observer is registered twice *)

Lemma observers_store_tick coin tk w :
  _observers (mon (snd (store_tick coin tk w))) = _observers (mon w).
Proof.
  unfold store_tick, bind, modify_mon, get_mon. simpl.
  destruct (Dict.get coin (price_history (mon w))); reflexivity.
Qed.

Lemma trace_store_tick coin tk w : trace (snd (store_tick coin tk w)) = trace w.
Proof.
  unfold store_tick, bind, modify_mon, get_mon. simpl.
  destruct (Dict.get coin (price_history (mon w))); reflexivity.
Qed.

Lemma observers_suspend p ops w :
  _observers (mon (snd (suspend p ops w)))
  = fold_left apply_op ops (_observers (mon w)).
Proof. reflexivity. Qed.

Lemma trace_suspend p ops w :
  trace (snd (suspend p ops w)) = trace w ++ [Suspend p (mon w)].
Proof. reflexivity. Qed.

Section RegistrySet.
Variable X : Externals.

Let R (w w' : World) : Prop :=
  NoDup (_observers (mon w)) -> NoDup (_observers (mon w')).

Let R_refl : forall w, R w w.
Proof. intros w H. exact H. Qed.

Let R_trans : forall w1 w2 w3, R w1 w2 -> R w2 w3 -> R w1 w3.
Proof. intros w1 w2 w3 H1 H2 H. auto. Qed.

Let R_suspend : forall p ops, respects R (suspend p ops).
Proof.
  intros p ops w H. rewrite observers_suspend. now apply NoDup_fold_apply_op.
Qed.

Let R_same : forall w w',
  _observers (mon w') = _observers (mon w) -> R w w'.
Proof. intros w w' E H. now rewrite E. Qed.

Let R_hub : forall n, respects R (notify_observers X n).
Proof.
  intros n. apply hub_notify_observers with (N := fun _ => True); auto;
    intros n' w _; now apply R_same.
Qed.

Lemma registry_set_turn pd coin : respects R (process_coin X pd coin).
Proof.
  apply turn_process_coin with (P := fun _ => True); auto;
    intros c d now _ w; apply R_same; apply observers_store_tick.
Qed.

Lemma registry_set_run calls w : R w (run X calls w).
Proof.
  assert (Hall : forall c, admits_call (fun _ => True) c).
  { intros [| |op|inputs]; simpl; auto.
    apply Forall_forall. intros inp _. split; apply Forall_forall; auto. }
  apply loop_run with (O := fun _ => True) (P := fun _ => True); auto;
    first [ intros pd coin _; apply registry_set_turn
          | apply pass_calculate_statistics; now auto
          | intros op w0 _ H; cbn; now apply NoDup_apply_op
          | intros w0 w' H; apply H; apply Forall_forall; exact (fun _ _ => I)
          | apply Forall_forall; now auto ].
Qed.
End RegistrySet.

Lemma trace_delivered n l w :
  trace (delivered n l w)
  = trace w ++ map (fun o => Suspend (AtUpdate o n) (mon w)) l.
Proof.
  revert w. induction l as [|o l IH]; intros w.
  - simpl. now rewrite app_nil_r.
  - change (delivered n (o :: l) w)
      with (delivered n l (push (Suspend (AtUpdate o n) (mon w)) w)).
    rewrite IH. cbn [push trace mon map]. now rewrite <- app_assoc.
Qed.

Lemma NoDup_map_pair {A B} (b : B) (l : list A) :
  NoDup l -> NoDup (map (fun a => (a, b)) l).
Proof.
  induction 1 as [|a l Hout Hnd IH]; simpl; constructor; [|assumption].
  rewrite in_map_iff. intros [a' [[= ->] Hin]]. contradiction.
Qed.

(** X2. Whatever is called on an engine, no observer is ever twice in its
    registry; so a broadcast that every subscriber takes, the registry left
    alone meanwhile, hands the event to each registered observer once and
    to nobody else. *)
Theorem no_observer_is_registered_twice :
  forall (X : Externals) (s : Settings) (calls : list Call),
    let w := run X calls (world_of (init s)) in
    NoDup (_observers (mon w))
    /\ forall n,
         (forall o, In o (_observers (mon w)) -> takes X n o) ->
         exists handed,
           updates_of (trace (snd (notify_observers X n w)))
           = updates_of (trace w) ++ handed
           /\ NoDup handed
           /\ forall o n', In (o, n') handed <-> In o (_observers (mon w)) /\ n' = n.
Proof.
  intros X s calls w.
  assert (Hnd : NoDup (_observers (mon w))).
  { apply (@registry_set_run X calls (world_of (init s))). constructor. }
  split; [assumption|].
  intros n Htakes. exists (map (fun o => (o, n)) (_observers (mon w))).
  rewrite notify_all_take by assumption. cbn [snd].
  rewrite updates_of_delivered. cbn [push trace].
  rewrite updates_of_app. cbn. rewrite app_nil_r.
  split; [reflexivity|]. split.
  - now apply NoDup_map_pair.
  - intros o n'. rewrite in_map_iff. split.
    + intros [o' [[= -> ->] Hin]]. auto.
    + intros [Hin ->]. eauto.
Qed.

(** ** An observer that was unregistered *)

Lemma handed_to_app o tr tr' :
  handed_to o (tr ++ tr') = handed_to o tr ++ handed_to o tr'.
Proof. unfold handed_to. apply flat_map_app. Qed.

Lemma not_In_fold_apply_op o ops : forall s,
  ~ In o s -> ~ In (Register o) ops -> ~ In o (fold_left apply_op ops s).
Proof.
  induction ops as [|op ops IH]; intros s Hs Hops; simpl; [assumption|].
  apply IH.
  - destruct op as [o'|o']; simpl.
    + rewrite In_set_add. intros [->|H]; [|contradiction].
      apply Hops. now left.
    + rewrite In_set_discard. tauto.
  - intros H. apply Hops. now right.
Qed.

Section Unregistered.
Variable X : Externals.
Variable o : Observer.
Hypothesis no_register : forall o' n, ~ In (Register o) (fst (update X o' n)).

(** While the observer stays out of the registry it is handed nothing. *)
Let R (w w' : World) : Prop :=
  ~ In o (_observers (mon w)) ->
  ~ In o (_observers (mon w'))
  /\ handed_to o (trace w') = handed_to o (trace w).

Let R_refl : forall w, R w w.
Proof. intros w H. auto. Qed.

Let R_trans : forall w1 w2 w3, R w1 w2 -> R w2 w3 -> R w1 w3.
Proof.
  intros w1 w2 w3 H1 H2 H. destruct (H1 H) as [Ha Hb].
  destruct (H2 Ha) as [Hc Hd]. split; [assumption | congruence].
Qed.

Let R_same : forall w w',
  _observers (mon w') = _observers (mon w) ->
  handed_to o (trace w') = handed_to o (trace w) -> R w w'.
Proof. intros w w' Ho Ht H. rewrite Ho. auto. Qed.

Let R_push : forall e w,
  match e with Suspend (AtUpdate _ _) _ => False | _ => True end ->
  R w (push e w).
Proof.
  intros e w He. apply R_same; [reflexivity|]. cbn [push trace].
  rewrite handed_to_app.
  destruct e as [r|n|[ids|o' n|t|t] m]; cbn;
    first [contradiction | now rewrite app_nil_r].
Qed.

Lemma unregistered_call_update o' n w :
  In o' (_observers (mon w)) -> R w (snd (call_update X o' n w)).
Proof.
  intros Hin H. rewrite call_update_spec. cbn [snd upd_mon mon trace push].
  cbn [with_observers _observers]. split.
  - apply not_In_fold_apply_op; auto.
  - rewrite handed_to_app. cbn.
    destruct (Nat.eqb_spec o' o) as [->|Hne]; [contradiction|].
    now rewrite !app_nil_r.
Qed.

Lemma unregistered_iterate k n : forall pos used,
  respects R (iterate X k pos used n).
Proof.
  induction k as [|k IH]; intros pos used w; simpl.
  - destruct (_ =? _); apply R_refl.
  - destruct (_ =? _); [|apply R_refl].
    destruct (nth_error (_observers (mon w)) pos) as [o'|] eqn:E; [|apply R_refl].
    apply nth_error_In in E.
    pose proof (@unregistered_call_update o' n w E) as Hc.
    unfold bind. destruct (call_update X o' n w) as [[[]|e] w1]; cbn [snd] in *.
    + eapply R_trans; [exact Hc | apply IH].
    + exact Hc.
Qed.

Lemma unregistered_notify n : respects R (notify_observers X n).
Proof.
  unfold notify_observers. respects_auto;
    first [ apply unregistered_iterate | intros w; now apply R_push ].
Qed.

Lemma unregistered_turn pd coin : respects R (process_coin X pd coin).
Proof.
  apply turn_process_coin with (P := fun _ => True); auto;
    first [ apply unregistered_notify
          | intros c d now _ w; apply R_same;
            [apply observers_store_tick | now rewrite trace_store_tick]
          | intros; now apply R_push
          | intros; now apply R_same ].
Qed.

Lemma unregistered_run calls w :
  Forall (admits_call (fun op => op <> Register o)) calls ->
  R w (run X calls w).
Proof.
  intros Hcalls.
  apply loop_run with (O := fun op => op <> Register o) (P := fun _ => True);
    auto;
    first [ intros pd coin _; apply unregistered_turn
          | apply pass_calculate_statistics; auto; intros; now apply R_same
          | intros w0 w' H; apply H; apply Forall_forall; exact (fun _ _ => I)
          | intros; now apply R_push
          | intros; now apply R_same
          | idtac ].
  - intros p ops Hp Hops w0 H. rewrite observers_suspend, trace_suspend.
    split.
    + apply not_In_fold_apply_op; auto.
      intros Hin. rewrite Forall_forall in Hops. now apply (Hops _ Hin).
    + rewrite handed_to_app.
      destruct p; cbn; first [contradiction | now rewrite app_nil_r].
  - intros op w0 Hop H. cbn. split; [|reflexivity].
    destruct op as [o'|o']; simpl.
    + rewrite In_set_add. intros [->|Hin]; [now apply Hop | contradiction].
    + rewrite In_set_discard. tauto.
Qed.
End Unregistered.

(** X3. An observer that was unregistered is handed nothing until it is
    registered again.  Provided no handler and no other task registers it
    meanwhile: a broadcast made after the call does not reach it, whatever
    the handlers do and however the broadcast ends, and neither does
    anything the engine does afterwards, through its loop or its
    interface. *)
Theorem unregistered_observer_is_handed_nothing :
  forall (X : Externals) (o : Observer) (w : World),
    (forall o' n, ~ In (Register o) (fst (update X o' n))) ->
    let w0 := snd (unregister_observer o w) in
    (forall n,
       handed_to o (trace (snd (notify_observers X n w0))) = handed_to o (trace w)
       /\ ~ In o (_observers (mon (snd (notify_observers X n w0)))))
    /\ (forall calls,
          Forall (admits_call (fun op => op <> Register o)) calls ->
          handed_to o (trace (run X calls w0)) = handed_to o (trace w)
          /\ ~ In o (_observers (mon (run X calls w0)))).
Proof.
  intros X o w Hno w0.
  assert (Hout : ~ In o (_observers (mon w0))).
  { unfold w0. cbn. rewrite In_set_discard. tauto. }
  split.
  - intros n. destruct (@unregistered_notify X o Hno n w0 Hout) as [Ha Hb].
    split; [exact Hb | exact Ha].
  - intros calls Hcalls.
    destruct (@unregistered_run X o Hno calls w0 Hcalls Hout) as [Ha Hb].
    split; [exact Hb | exact Ha].
Qed.

Lemma unregistered_observer_is_handed_nothing_witness :
  handed_to 1
    (trace (run quiet [CallStart; LoopTurns [quotes 100 10; quotes 102 10]]
              (snd (unregister_observer 1 two_subscribers))))
  = handed_to 1 (trace two_subscribers).
Proof.
  refine (proj1 (proj2 (@unregistered_observer_is_handed_nothing quiet 1
                          two_subscribers _) _ _)).
  - intros o' n H. exact H.
  - repeat constructor; discriminate.
Defined.

(** ** The loop of a stopped engine *)

Lemma stop_returns w : fst (stop w) = Ok tt.
Proof.
  unfold stop, bind, get_mon. destruct (is_running (mon w)); [|reflexivity].
  cbn. destruct (_task (mon w)) as [t|]; [|reflexivity].
  cbn. unfold try_except, await_task, bind, suspend, bind, get_mon, emit,
    modify_mon, get_tasks. cbn.
  destruct (nth_error (tasks w) t) as [[| |]|]; cbn.
  - destruct (nth_error (set_nth t Cancelled (tasks w)) t) as [[| |]|];
      reflexivity.
  - destruct (nth_error (tasks w) t) as [[| |]|]; reflexivity.
  - destruct (nth_error (tasks w) t) as [[| |]|]; reflexivity.
  - destruct (nth_error (tasks w) t) as [[| |]|]; reflexivity.
Qed.

Lemma is_running_stop w : is_running (mon (snd (stop w))) = false.
Proof.
  unfold stop, bind, get_mon. destruct (is_running (mon w)) eqn:E;
    [|exact E].
  cbn. destruct (_task (mon w)) as [t|]; [|reflexivity].
  cbn. unfold try_except, await_task, bind, suspend, bind, get_mon, emit,
    modify_mon, get_tasks. cbn.
  destruct (nth_error (tasks w) t) as [[| |]|]; cbn.
  - destruct (nth_error (set_nth t Cancelled (tasks w)) t) as [[| |]|];
      reflexivity.
  - destruct (nth_error (tasks w) t) as [[| |]|]; reflexivity.
  - destruct (nth_error (tasks w) t) as [[| |]|]; reflexivity.
  - destruct (nth_error (tasks w) t) as [[| |]|]; reflexivity.
Qed.

Lemma loop_stopped X inputs w :
  is_running (mon w) = false ->
  _monitoring_loop X inputs w
  = (Ok (match inputs with [] => Looping | _ => Returned end), w).
Proof.
  intros H. destruct inputs as [|inp rest]; [reflexivity|].
  cbn [_monitoring_loop]. unfold bind, get_mon. now rewrite H.
Qed.

(** The part of a turn before the sleep returns, whatever happened. *)
Lemma cycle_sleeps X inp w :
  exists w1, cycle X inp w = sleep inp w1.
Proof.
  unfold cycle, bind, try_except.
  pose proof (@safe_bind _ _ (_fetch_and_process_prices X inp)
                (fun _ => _calculate_statistics X)
                (safe_fetch_and_process X inp)
                (fun _ => safe_calculate_statistics X) w) as Hsafe.
  unfold bind in Hsafe.
  destruct (_fetch_and_process_prices X inp w) as [[[]|e] w1].
  - destruct (_calculate_statistics X w1) as [[[]|[e|]] w2]; simpl in *.
    + eauto.
    + destruct (is_CoinGeckoAPIError e); simpl; eauto.
    + contradiction.
  - destruct e as [e|]; simpl in *; [|contradiction].
    destruct (is_CoinGeckoAPIError e); simpl; eauto.
Qed.

Lemma sleep_eq inp w :
  sleep inp w
  = (if stop_during_sleep inp then stop ;; raise CancelledError else ret tt)
      (snd (suspend (AtSleep (interval (mon w))) (during_sleep inp) w)).
Proof. reflexivity. Qed.

Lemma sleep_cancelled inp w :
  stop_during_sleep inp = true ->
  fst (sleep inp w) = Raise CancelledError
  /\ is_running (mon (snd (sleep inp w))) = false.
Proof.
  intros Hs. rewrite sleep_eq, Hs.
  generalize (snd (suspend (AtSleep (interval (mon w))) (during_sleep inp) w)).
  intros w1. unfold bind.
  pose proof (stop_returns w1) as Hr. pose proof (is_running_stop w1) as Hf.
  destruct (stop w1) as [[[]|e] w2]; [|discriminate].
  split; [reflexivity | exact Hf].
Qed.

(** X4. Once [stop()] has run, the loop runs no turn.  On an engine that
    is not running the loop returns at once and leaves the world as it is,
    whatever it would have been given; so it does after any [stop()].  And a
    [stop()] that another task makes during the sleep of a turn ends the
    loop there with [CancelledError]: the engine is left stopped and the
    turns that would have followed do not happen. *)
Theorem stopped_loop_runs_no_turn :
  forall (X : Externals) (inputs : list CycleInput) (w : World),
    (is_running (mon w) = false ->
       snd (_monitoring_loop X inputs w) = w
       /\ fst (_monitoring_loop X inputs w) <> Raise CancelledError)
    /\ snd (_monitoring_loop X inputs (snd (stop w))) = snd (stop w)
    /\ (forall inp,
          is_running (mon w) = true ->
          stop_during_sleep inp = true ->
          _monitoring_loop X (inp :: inputs) w
          = (Raise CancelledError, snd (cycle X inp w))
          /\ is_running (mon (snd (cycle X inp w))) = false).
Proof.
  intros X inputs w. split; [|split].
  - intros H. rewrite loop_stopped by assumption. split; [reflexivity|].
    discriminate.
  - rewrite loop_stopped by apply is_running_stop. reflexivity.
  - intros inp Hr Hs. rewrite loop_turn by assumption. unfold bind.
    destruct (cycle_sleeps X inp w) as [w1 ->].
    destruct (sleep_cancelled inp w1 Hs) as [Ha Hb].
    destruct (sleep inp w1) as [r w2]. cbn in *. subst r. auto.
Qed.

Lemma stopped_loop_runs_no_turn_witness :
  snd (_monitoring_loop quiet [quotes 102 10]
         (run quiet [CallStart; LoopTurns [quotes 100 10]; CallStop]
            (world_of (init two_coins))))
  = run quiet [CallStart; LoopTurns [quotes 100 10]; CallStop]
      (world_of (init two_coins)).
Proof.
  exact (proj1 (proj1 (@stopped_loop_runs_no_turn quiet [quotes 102 10]
                         (run quiet [CallStart; LoopTurns [quotes 100 10]; CallStop]
                            (world_of (init two_coins))))
                  eq_refl)).
Defined.

(** ** A stored price of zero *)

Lemma maps_store_tick_other coin c tk w :
  c <> coin ->
  Dict.get coin (latest_ticks (mon (snd (store_tick c tk w))))
  = Dict.get coin (latest_ticks (mon w))
  /\ Dict.get coin (price_history (mon (snd (store_tick c tk w))))
     = Dict.get coin (price_history (mon w)).
Proof.
  intros Hne. unfold store_tick, bind, modify_mon, get_mon. simpl.
  destruct (Dict.get c (price_history (mon w))) as [dq|]; simpl;
    rewrite ?DictFacts.get_set_ne by congruence; auto.
Qed.

(** The turn of an instrument whose latest price is zero: the division
    raises before anything is stored or broadcast. *)
Lemma process_coin_zero X pd coin d old w :
  Dict.get coin pd = Some d ->
  Dict.get coin (latest_ticks (mon w)) = Some old ->
  (price_usd old =? 0)%float = true ->
  process_coin X pd coin w = (Raise (Exception ZeroDivisionError), advance w).
Proof.
  intros Hd Hold Hz. unfold process_coin. rewrite Hd.
  unfold bind at 1. cbn [datetime_now].
  unfold bind at 1. unfold check_change. unfold bind at 1. cbn [get_mon advance mon].
  rewrite Hold. unfold bind at 1. unfold py_truediv. rewrite Hz. reflexivity.
Qed.

Section ZeroPrice.
Variable X : Externals.
Variable coin : string.
Variable old : CryptoTick.
Hypothesis zero : (price_usd old =? 0)%float = true.

Let R (w w' : World) : Prop :=
  Dict.get coin (latest_ticks (mon w)) = Some old ->
  Dict.get coin (latest_ticks (mon w')) = Some old
  /\ Dict.get coin (price_history (mon w'))
     = Dict.get coin (price_history (mon w)).

Let R_refl : forall w, R w w.
Proof. intros w H. auto. Qed.

Let R_trans : forall w1 w2 w3, R w1 w2 -> R w2 w3 -> R w1 w3.
Proof.
  intros w1 w2 w3 H1 H2 H. destruct (H1 H) as [Ha Hb].
  destruct (H2 Ha) as [Hc Hd]. split; [assumption | congruence].
Qed.

Let R_same : forall w w',
  latest_ticks (mon w') = latest_ticks (mon w) ->
  price_history (mon w') = price_history (mon w) -> R w w'.
Proof. intros w w' Hl Hh H. rewrite Hl, Hh. auto. Qed.

Lemma zero_price_turn pd c : respects R (process_coin X pd c).
Proof.
  destruct (string_dec c coin) as [->|Hne].
  - intros w H. destruct (Dict.get coin pd) as [d|] eqn:Hd.
    + rewrite (@process_coin_zero X pd coin d old w Hd H zero). now apply R_same.
    + unfold process_coin. rewrite Hd. now apply R_same.
  - apply turn_process_coin with (P := fun c => c <> coin); auto;
      first [ intros n; apply hub_notify_observers with (N := fun _ => True);
              auto; intros; now apply R_same
            | intros c' d now Hc w H;
              destruct (@maps_store_tick_other coin c' (new_tick c' d now) w Hc)
                as [Ha Hb]; rewrite Ha, Hb; now auto
            | intros; now apply R_same ].
Qed.

Lemma zero_price_run calls w : R w (run X calls w).
Proof.
  apply loop_run with (O := fun _ => True) (P := fun _ => True); auto;
    first [ intros pd c _; apply zero_price_turn
          | apply pass_calculate_statistics; auto; intros; now apply R_same
          | intros w0 w' H; apply H; apply Forall_forall; exact (fun _ _ => I)
          | intros; now apply R_same
          | idtac ].
  apply Forall_forall. intros [| |op|inputs] _; simpl; auto.
  apply Forall_forall. intros inp _. split; apply Forall_forall; auto.
Qed.
End ZeroPrice.

(** X5. An instrument whose latest tick has price zero is stuck.  The turn
    that next quotes it raises [ZeroDivisionError] when the change is
    computed, before anything is stored or broadcast for it; and whatever is
    called on the engine from then on, its latest tick stays that tick and
    its buffer stays as it is. *)
Theorem zero_price_blocks_the_instrument :
  forall (X : Externals) (coin : string) (old : CryptoTick) (w : World),
    Dict.get coin (latest_ticks (mon w)) = Some old ->
    (price_usd old =? 0)%float = true ->
    (forall pd d,
       Dict.get coin pd = Some d ->
       process_coin X pd coin w = (Raise (Exception ZeroDivisionError), advance w))
    /\ (forall calls,
          Dict.get coin (latest_ticks (mon (run X calls w))) = Some old
          /\ Dict.get coin (price_history (mon (run X calls w)))
             = Dict.get coin (price_history (mon w))).
Proof.
  intros X coin old w Hold Hz. split.
  - intros pd d Hd. exact (@process_coin_zero X pd coin d old w Hd Hold Hz).
  - intros calls. now apply (@zero_price_run X coin old Hz calls w).
Qed.

Lemma zero_price_blocks_the_instrument_witness :
  Dict.get "bitcoin"
    (latest_ticks (mon (run quiet [LoopTurns [quotes 1 11; quotes 2 12]]
                          after_no_price)))
  = Some (new_tick "bitcoin" [] 0).
Proof.
  exact (proj1 (proj2 (@zero_price_blocks_the_instrument quiet "bitcoin"
                         (new_tick "bitcoin" [] 0) after_no_price
                         eq_refl eq_refl)
                  [LoopTurns [quotes 1 11; quotes 2 12]])).
Defined.

(** ** The ticks of the maps: their instrument and their order *)













Section TickOrder.
Variable X : Externals.

(** The steps that leave the ticks alone. *)
Let Rb (w w' : World) : Prop :=
  latest_ticks (mon w') = latest_ticks (mon w)
  /\ price_history (mon w') = price_history (mon w)
  /\ clock w <= clock w'.

Let G (w : World) : Prop := ticks_in_order (clock w) (mon w).

Let R (w w' : World) : Prop := G w -> G w'.

Let Rb_refl : forall w, Rb w w.
Proof. intros w. repeat split. lia. Qed.

Let Rb_trans : forall w1 w2 w3, Rb w1 w2 -> Rb w2 w3 -> Rb w1 w3.
Proof.
  intros w1 w2 w3 (H1 & H2 & H3) (H4 & H5 & H6).
  repeat split; try congruence. lia.
Qed.





Let R_refl : forall w, R w w.
Proof. intros w H. exact H. Qed.

Let R_trans : forall w1 w2 w3, R w1 w2 -> R w2 w3 -> R w1 w3.
Proof. intros w1 w2 w3 H1 H2 H. auto. Qed.


End TickOrder.


(** ** What a snapshot of statistics says *)

Lemma statistics_pure_fields X latest coin df f now :
  statistics_pure X latest coin df = Returns f ->
  stats_coin_id (f now) = coin
  /\ rsi_14 (f now) = None
  /\ stats_timestamp (f now) = now
  /\ (exists tk, Dict.get coin latest = Some tk /\ stats_symbol (f now) = symbol tk)
  /\ (exists rest, rev (map fst df) = current_price (f now) :: rest).
Proof.
  unfold statistics_pure. cbv zeta.
  destruct (20 <=? length df); destruct (5 <=? length df);
    destruct (map_outcome (rolling_mean X 20 (Nat.min 20 (length df - 1)))
                (prefixes (map fst df)));
    destruct (map_outcome (ewm_mean X 20 (Nat.min 20 (length df - 1)))
                (prefixes (map fst df)));
    destruct (series_mean X (map fst df));
    destruct (map_outcome (rolling_std X (Nat.min 24 (length df)) 5)
                (prefixes (map fst df)));
    destruct (rev (map fst df));
    destruct (Dict.get coin latest);
    simpl; try discriminate;
    intros [= <-]; simpl; repeat split; eauto.
Qed.



(** ** The queries of the interface *)

Section StatisticsHaveTicks.
Variable X : Externals.

Let R (w w' : World) : Prop :=
  statistics_have_ticks (mon w) -> statistics_have_ticks (mon w').

Let R_refl : forall w, R w w.
Proof. intros w H. exact H. Qed.

Let R_trans : forall w1 w2 w3, R w1 w2 -> R w2 w3 -> R w1 w3.
Proof. intros w1 w2 w3 H1 H2 H. auto. Qed.

Let R_same : forall w w',
  latest_stats (mon w') = latest_stats (mon w) ->
  latest_ticks (mon w') = latest_ticks (mon w) -> R w w'.
Proof. unfold R, statistics_have_ticks. intros w w' -> ->. auto. Qed.

Let R_store : forall coin tk, respects R (store_tick coin tk).
Proof.
  intros coin tk w H c Hc.
  unfold store_tick, bind, modify_mon, get_mon in *. simpl in *.
  destruct (Dict.get coin (price_history (mon w))); simpl in *;
    apply DictFacts.In_keys_set; right; now apply H.
Qed.

Lemma have_ticks_step item : respects R (statistics_step X item).
Proof.
  destruct item as [coin history]. intros w H.
  rewrite statistics_step_spec.
  destruct (deque_len history <? 2); [exact H|].
  destruct (statistics_pure X (latest_ticks (mon w)) coin (frame_of history))
    as [f|e] eqn:Ef; [|exact H].
  destruct (@statistics_pure_fields X _ coin _ f (clock w) Ef)
    as (_ & _ & _ & (tk & Htk & _) & _).
  intros c Hc. cbn in Hc |- *. apply DictFacts.In_keys_set in Hc.
  destruct Hc as [->|Hc]; [|now apply H].
  apply DictFacts.get_In_keys. eauto.
Qed.

Lemma have_ticks_run calls w : R w (run X calls w).
Proof.
  apply loop_run with (O := fun _ => True) (P := fun _ => True); auto;
    first [ intros pd c _; apply turn_process_coin with (P := fun _ => True);
            auto;
            first [ intros n; apply hub_notify_observers with (N := fun _ => True);
                    auto; intros; try intros w1; now apply R_same
                  | intros; now apply R_store
                  | intros; now apply R_same ]
          | intros w0 w' H; apply H; apply Forall_forall; exact (fun _ _ => I)
          | unfold _calculate_statistics; respects_auto;
            apply respects_for_each; auto using have_ticks_step
          | intros; try intros w1; now apply R_same
          | idtac ].
  apply Forall_forall. intros [| |op|inputs] _; simpl; auto.
  apply Forall_forall. intros inp _. split; apply Forall_forall; auto.
Qed.
End StatisticsHaveTicks.

Lemma existsb_eqb_string c l : existsb (String.eqb c) l = true <-> In c l.
Proof.
  rewrite existsb_exists. split.
  - intros [x [Hx E]]. apply String.eqb_eq in E. now subst.
  - intros H. exists c. split; [assumption | apply String.eqb_refl].
Qed.

Lemma get_coin_price_cases m coin :
  (exists tk, Router.get_coin_price m coin = Router.Reply tk)
  \/ Router.get_coin_price m coin = Router.HTTPException 404.
Proof.
  unfold Router.get_coin_price. destruct (Dict.get coin (latest_ticks m)); eauto.
Qed.

Lemma get_coin_statistics_cases m coin :
  (exists st, Router.get_coin_statistics m coin = Router.Reply st)
  \/ Router.get_coin_statistics m coin = Router.HTTPException 404.
Proof.
  unfold Router.get_coin_statistics. destruct (latest_stats m); [now right|].
  destruct (Dict.get coin _); eauto.
Qed.

(** X8. The queries agree on what is tracked, whatever was called on the
    engine.  An instrument whose statistics are served has its price
    served; an instrument whose price is served is one of the monitored
    coins, and a subscription to it is accepted; so a subscription that is
    refused names an instrument with neither price nor statistics.  And
    the statistics of all instruments are refused with 503 exactly when
    those of each one are refused with 404. *)
Theorem queries_agree_on_what_is_tracked :
  forall (X : Externals) (s : Settings) (calls : list Call) (coin : string),
    let m := mon (run X calls (world_of (init s))) in
    (forall st,
       Router.get_coin_statistics m coin = Router.Reply st ->
       exists tk, Router.get_coin_price m coin = Router.Reply tk)
    /\ (forall tk,
          Router.get_coin_price m coin = Router.Reply tk ->
          In coin (Router.list_monitored_coins s)
          /\ forall sub,
               Router.sub_coin_id sub = coin ->
               Router.create_subscription s sub = Router.Reply sub)
    /\ (forall sub,
          Router.sub_coin_id sub = coin ->
          Router.create_subscription s sub = Router.HTTPException 400 ->
          Router.get_coin_price m coin = Router.HTTPException 404
          /\ Router.get_coin_statistics m coin = Router.HTTPException 404)
    /\ (Router.get_statistics m = Router.HTTPException 503
        <-> forall c, Router.get_coin_statistics m c = Router.HTTPException 404).
Proof.
  intros X s calls coin m.
  assert (Hinv : engine_inv s (run X calls (world_of (init s))))
    by (apply engine_inv_run; apply engine_inv_init).
  destruct Hinv as ((_ & _ & Htracked & _) & _ & _ & Hids).
  fold m in Htracked, Hids.
  assert (Hk : statistics_have_ticks m).
  { apply (@have_ticks_run X calls (world_of (init s))). intros c []. }
  assert (Hstat : forall st, Router.get_coin_statistics m coin = Router.Reply st ->
                    exists tk, Router.get_coin_price m coin = Router.Reply tk).
  { intros st H. unfold Router.get_coin_statistics, Router.get_coin_price in *.
    assert (Hin : In coin (Dict.keys (latest_stats m))).
    { apply DictFacts.get_In_keys. destruct (latest_stats m); [discriminate|].
      destruct (Dict.get coin (p :: t)); [eauto | discriminate]. }
    apply Hk, DictFacts.get_In_keys in Hin. destruct Hin as [tk ->]. eauto. }
  assert (Hprice : forall tk, Router.get_coin_price m coin = Router.Reply tk ->
                     In coin (crypto_id_list s)).
  { intros tk H. unfold Router.get_coin_price in H. rewrite <- Hids.
    apply Htracked, DictFacts.get_In_keys.
    destruct (Dict.get coin (latest_ticks m)); [eauto | discriminate]. }
  split; [exact Hstat|]. split; [|split].
  - intros tk H. split; [now apply Hprice with (tk := tk)|].
    intros sub <-. unfold Router.create_subscription.
    apply Hprice, existsb_eqb_string in H. now rewrite H.
  - intros sub <- H. unfold Router.create_subscription in H.
    assert (Hout : ~ In (Router.sub_coin_id sub) (crypto_id_list s)).
    { intros Hin. apply existsb_eqb_string in Hin. rewrite Hin in H.
      discriminate. }
    assert (Hp : Router.get_coin_price m (Router.sub_coin_id sub)
                 = Router.HTTPException 404).
    { destruct (get_coin_price_cases m (Router.sub_coin_id sub)) as [[tk Htk]|H404];
        [|exact H404].
      exfalso. apply Hout. now apply Hprice with (tk := tk). }
    split; [exact Hp|].
    destruct (get_coin_statistics_cases m (Router.sub_coin_id sub))
      as [[st Hst]|H404]; [|exact H404].
    destruct (Hstat st Hst) as [tk Htk]. congruence.
  - unfold Router.get_statistics, Router.get_coin_statistics.
    destruct (latest_stats m) as [|[k v] d]; split; auto.
    + discriminate.
    + intros H. specialize (H k). simpl in H. rewrite String.eqb_refl in H.
      discriminate.
Qed.

(** ** The ids of the settings *)

Lemma split_no_sep sep s :
  Forall (fun p => has_char sep p = false) (Config.split sep s).
Proof.
  induction s as [|c s IH]; simpl.
  - repeat constructor.
  - destruct (Ascii.eqb c sep) eqn:E.
    + constructor; [reflexivity | exact IH].
    + destruct (Config.split sep s) as [|piece pieces].
      * repeat constructor. simpl. now rewrite E.
      * inversion IH as [|? ? Hp Hps]; subst. constructor; [|exact Hps].
        simpl. now rewrite E, Hp.
Qed.

Lemma split_append sep x rest :
  has_char sep x = false ->
  Config.split sep (x ++ String sep rest) = x :: Config.split sep rest.
Proof.
  induction x as [|c x IH]; simpl; intros H.
  - now rewrite Ascii.eqb_refl.
  - apply orb_false_iff in H. destruct H as [Hc Hx].
    rewrite Hc, (IH Hx). reflexivity.
Qed.

Lemma split_single sep x :
  has_char sep x = false -> Config.split sep x = [x].
Proof.
  induction x as [|c x IH]; simpl; intros H; [reflexivity|].
  apply orb_false_iff in H. destruct H as [Hc Hx].
  rewrite Hc, (IH Hx). reflexivity.
Qed.

(** Splitting what was joined gives the pieces back. *)
Lemma split_join sep pieces :
  pieces <> [] ->
  Forall (fun p => has_char sep p = false) pieces ->
  Config.split sep (Config.join (String sep EmptyString) pieces) = pieces.
Proof.
  unfold Config.join. induction pieces as [|x pieces IH]; [congruence|].
  intros _ H. inversion H as [|? ? Hx Hps]; subst.
  destruct pieces as [|y pieces].
  - simpl. now apply split_single.
  - change (String.concat (String sep EmptyString) (x :: y :: pieces))
      with (x ++ String sep (String.concat (String sep EmptyString) (y :: pieces)))%string.
    rewrite split_append by assumption. f_equal. apply IH; [discriminate | exact Hps].
Qed.

Lemma lstrip_clean_head s : clean_head (Config.lstrip s).
Proof.
  induction s as [|c s IH]; simpl; [exact I|].
  destruct (Config.isspace c) eqn:E; [exact IH | exact E].
Qed.

Lemma lstrip_fixed s : clean_head s -> Config.lstrip s = s.
Proof. destruct s as [|c s]; simpl; [reflexivity|]. now intros ->. Qed.

Lemma rstrip_clean_head s : clean_head s -> clean_head (Config.rstrip s).
Proof.
  destruct s as [|c s]; simpl; [exact (fun H => H)|]. intros H.
  destruct (Config.rstrip s); simpl; [|exact H].
  rewrite H. exact H.
Qed.

Lemma rstrip_idem s : Config.rstrip (Config.rstrip s) = Config.rstrip s.
Proof.
  induction s as [|c s IH]; simpl; [reflexivity|].
  destruct (Config.rstrip s) as [|c' r] eqn:E.
  - destruct (Config.isspace c) eqn:Ec; simpl; [reflexivity|]. now rewrite Ec.
  - simpl. simpl in IH. now rewrite IH.
Qed.

Lemma strip_idem s : Config.strip (Config.strip s) = Config.strip s.
Proof.
  unfold Config.strip.
  rewrite (@lstrip_fixed (Config.rstrip (Config.lstrip s)))
    by apply rstrip_clean_head, lstrip_clean_head.
  apply rstrip_idem.
Qed.

Lemma has_char_lstrip c s : has_char c s = false -> has_char c (Config.lstrip s) = false.
Proof.
  induction s as [|c' s IH]; simpl; [auto|]. intros H.
  apply orb_false_iff in H. destruct H as [Hc Hs].
  destruct (Config.isspace c'); [auto|]. simpl. now rewrite Hc, Hs.
Qed.

Lemma has_char_rstrip c s : has_char c s = false -> has_char c (Config.rstrip s) = false.
Proof.
  induction s as [|c' s IH]; simpl; [auto|]. intros H.
  apply orb_false_iff in H. destruct H as [Hc Hs]. specialize (IH Hs).
  destruct (Config.rstrip s) as [|c'' r].
  - destruct (Config.isspace c'); simpl; [reflexivity|]. now rewrite Hc.
  - simpl. simpl in IH. now rewrite Hc, IH.
Qed.

Lemma has_char_strip c s : has_char c s = false -> has_char c (Config.strip s) = false.
Proof. intros H. unfold Config.strip. now apply has_char_rstrip, has_char_lstrip. Qed.

Lemma nonempty_true s : Config.nonempty s = true <-> s <> EmptyString.
Proof. destruct s; simpl; split; congruence. Qed.

Lemma crypto_id_list_clean CRYPTO_IDS :
  Forall clean_id (Config.crypto_id_list CRYPTO_IDS).
Proof.
  unfold Config.crypto_id_list. apply Forall_forall. intros id Hin.
  apply in_map_iff in Hin. destruct Hin as [piece [<- Hin]].
  apply filter_In in Hin. destruct Hin as [Hin Hne].
  split; [now apply nonempty_true|]. split; [apply strip_idem|].
  apply has_char_strip.
  pose proof (split_no_sep comma CRYPTO_IDS) as H. rewrite Forall_forall in H.
  now apply H.
Qed.

(** X9. Whatever the value of [CRYPTO_IDS], each id of [crypto_id_list]
    is not empty, has no white space at either end (stripping it again
    changes nothing) and holds no comma; so the engine built from the
    settings tracks such ids only. *)
Theorem crypto_ids_are_clean :
  forall (CRYPTO_IDS : string) (interval_seconds : nat)
         (threshold_percent : float) (buffer : nat),
    Forall (fun id => id <> EmptyString
                      /\ Config.strip id = id
                      /\ has_char comma id = false)
      (Config.crypto_id_list CRYPTO_IDS)
    /\ crypto_ids (init (Settings_init CRYPTO_IDS interval_seconds
                           threshold_percent buffer))
       = Config.crypto_id_list CRYPTO_IDS.
Proof.
  intros C i t b. split; [|reflexivity].
  exact (crypto_id_list_clean C).
Qed.

Lemma crypto_id_list_join ids :
  Forall clean_id ids ->
  Config.crypto_id_list (Config.join (String comma EmptyString) ids) = ids.
Proof.
  intros H. unfold Config.crypto_id_list.
  destruct ids as [|x ids]; [reflexivity|].
  change (Config.split comma
            (Config.join (String comma EmptyString) (x :: ids)))
    with (Config.split comma (Config.join (String comma EmptyString) (x :: ids))).
  rewrite split_join; [|discriminate|].
  - induction H as [|id l (Hne & Hs & _) Hl IH]; [reflexivity|].
    simpl. rewrite Hs.
    apply nonempty_true in Hne. rewrite Hne. simpl. rewrite Hs. now rewrite IH.
  - eapply Forall_impl; [|exact H]. now intros id (_ & _ & Hc).
Qed.

(** X10. Joining clean ids with commas and reading the result as
    [CRYPTO_IDS] gives the ids back.  So the [ids] parameter that
    [get_price] sends for the ids of the settings names exactly those
    instruments: read back, it is [crypto_id_list] again. *)
Theorem crypto_ids_round_trip :
  (forall ids,
     Forall (fun id => id <> EmptyString
                       /\ Config.strip id = id
                       /\ has_char comma id = false) ids ->
     Config.crypto_id_list (Config.join "," ids) = ids)
  /\ (forall CRYPTO_IDS vs_currencies mc vol chg,
        option_map Config.crypto_id_list
          (Dict.get "ids"
             (CoinGecko.price_params (Config.crypto_id_list CRYPTO_IDS)
                vs_currencies mc vol chg))
        = Some (Config.crypto_id_list CRYPTO_IDS)).
Proof.
  split.
  - intros ids H. now apply crypto_id_list_join.
  - intros C vs mc vol chg. simpl. f_equal.
    apply crypto_id_list_join. apply crypto_id_list_clean.
Qed.

Lemma crypto_ids_round_trip_witness :
  Config.crypto_id_list
    (Config.join "," ["bitcoin"; "ethereum"; "cardano"; "solana"; "polkadot"]%string)
  = ["bitcoin"; "ethereum"; "cardano"; "solana"; "polkadot"]%string.
Proof.
  apply (proj1 crypto_ids_round_trip).
  repeat constructor; discriminate.
Defined.

(** ** The client of the data source *)

(** What the body of [_make_request] raises is of none of the classes
    that the decorator retries. *)
Lemma request_once_not_retried J raises_for_status client (t : CoinGecko.sent J) e :
  CoinGecko.ended (CoinGecko.request_once raises_for_status client t)
  = CoinGecko.Throws e ->
  CoinGecko.retried e = false.
Proof.
  unfold CoinGecko.request_once. destruct client; simpl.
  - destruct t as [resp|r].
    + destruct (raises_for_status (CoinGecko.status_code resp)).
      * destruct (CoinGecko.status_code resp =? 429); simpl; now intros [= <-].
      * destruct (CoinGecko.json resp); simpl; [discriminate | now intros [= <-]].
    + destruct r as [s| | | | |e']; simpl; try now intros [= <-].
      destruct (s =? 429); simpl; now intros [= <-].
  - now intros [= <-].
Qed.

Lemma request_once_requests J raises_for_status client (t : CoinGecko.sent J) :
  CoinGecko.requests (CoinGecko.request_once raises_for_status client t)
  = if client then 1 else 0.
Proof.
  unfold CoinGecko.request_once. destruct client; simpl; [|reflexivity].
  destruct t as [resp|r].
  - destruct (raises_for_status (CoinGecko.status_code resp)).
    + destruct (CoinGecko.status_code resp =? 429); reflexivity.
    + destruct (CoinGecko.json resp); reflexivity.
  - destruct r as [s| | | | |e']; try reflexivity.
    destruct (s =? 429); reflexivity.
Qed.

Lemma retry_once J (fn : nat -> CoinGecko.Run J) more n :
  (forall e, CoinGecko.ended (fn n) = CoinGecko.Throws e ->
             CoinGecko.retried e = false) ->
  CoinGecko.retry more fn n = fn n.
Proof.
  intros H. destruct more; simpl;
    destruct (CoinGecko.ended (fn n)) as [j|e] eqn:E; try reflexivity;
    now rewrite (H e eq_refl).
Qed.

Lemma make_request_once J raises_for_status client (transport : nat -> CoinGecko.sent J) :
  CoinGecko._make_request raises_for_status client transport
  = CoinGecko.request_once raises_for_status client (transport 1).
Proof.
  unfold CoinGecko._make_request. apply retry_once.
  intros e. apply request_once_not_retried.
Qed.

(** X11. The retry decorator of [_make_request] never retries.  The body
    turns the three classes of exception the decorator would retry into
    [CoinGeckoAPIError] or [RateLimitError], which it does not retry: so a
    call is its first attempt, whatever later requests would have met; it
    sends one request, or none when the client is not set, and then raises
    [RuntimeError]; and nothing it raises is of a retried class. *)
Theorem make_request_never_retries :
  forall (J : Type) (raises_for_status : nat -> bool) (client : bool)
         (transport : nat -> CoinGecko.sent J),
    let r := CoinGecko._make_request raises_for_status client transport in
    r = CoinGecko.request_once raises_for_status client (transport 1)
    /\ CoinGecko.requests r = (if client then 1 else 0)
    /\ (client = false -> CoinGecko.ended r = CoinGecko.Throws CoinGecko.RuntimeError)
    /\ (forall e, CoinGecko.ended r = CoinGecko.Throws e ->
                  CoinGecko.retried e = false)
    /\ (forall transport',
          transport' 1 = transport 1 ->
          CoinGecko._make_request raises_for_status client transport' = r).
Proof.
  intros J rfs client transport r. unfold r. rewrite make_request_once.
  split; [reflexivity|]. split; [apply request_once_requests|].
  split; [intros ->; reflexivity|]. split.
  - intros e. apply request_once_not_retried.
  - intros transport' H. now rewrite make_request_once, H.
Qed.

Lemma fetched_by_get_price raises_for_status http ids :
  CoinGecko.fetched_by
    (CoinGecko.get_price raises_for_status true http ids ["usd"%string]
       true true true)
  = match http {| CoinGecko.method := "GET";
                  CoinGecko.endpoint := "/simple/price";
                  CoinGecko.params :=
                    CoinGecko.price_params ids ["usd"%string] true true true |}
            1 with
    | CoinGecko.Answered resp =>
        if raises_for_status (CoinGecko.status_code resp)
        then Raises (if CoinGecko.status_code resp =? 429
                     then RateLimitError else CoinGeckoAPIError)
        else CoinGecko.json resp
    | CoinGecko.Failed (CoinGecko.HTTPStatusError s) =>
        Raises (if s =? 429 then RateLimitError else CoinGeckoAPIError)
    | CoinGecko.Failed CoinGecko.ConnectTimeout => Raises CoinGeckoAPIError
    | CoinGecko.Failed CoinGecko.RequestError => Raises CoinGeckoAPIError
    | CoinGecko.Failed other => Raises (CoinGecko.as_error other)
    end
    :> outcome (Dict.t (Dict.t float)).
Proof.
  unfold CoinGecko.get_price. rewrite make_request_once.
  unfold CoinGecko.fetched_by, CoinGecko.request_once. simpl.
  destruct (http _ 1) as [resp|r].
  - destruct (raises_for_status (CoinGecko.status_code resp)).
    + destruct (CoinGecko.status_code resp =? 429); reflexivity.
    + destruct (CoinGecko.json resp); reflexivity.
  - destruct r as [s| | | | |e']; try reflexivity.
    destruct (s =? 429); reflexivity.
Qed.

(** X12. A turn of the loop whose prices come through the client.  When
    the first answer has a status that [httpx] raises for, or the request
    itself fails with a [RequestError], the turn is that of a failed fetch:
    after the suspension it logs an API error, of class [RateLimitError]
    for status 429 and [CoinGeckoAPIError] otherwise, and goes to its
    sleep.  When the answer is accepted, the loop is given what
    [response.json()] gives. *)
Theorem http_failure_is_an_api_error_of_the_turn :
  forall (X : Externals) (raises_for_status : nat -> bool)
         (http : CoinGecko.Request -> nat -> CoinGecko.sent (Dict.t (Dict.t float)))
         (m : PriceMonitor) (during_fetch during_sleep : list RegOp)
         (stop_during_sleep : bool) (w : World),
    let inp := fetching raises_for_status http m during_fetch during_sleep
                 stop_during_sleep in
    let first :=
      http {| CoinGecko.method := "GET";
              CoinGecko.endpoint := "/simple/price";
              CoinGecko.params :=
                CoinGecko.price_params (crypto_ids m) ["usd"%string]
                  true true true |} 1 in
    (forall resp,
       first = CoinGecko.Answered resp ->
       raises_for_status (CoinGecko.status_code resp) = true ->
       let e := if CoinGecko.status_code resp =? 429
                then RateLimitError else CoinGeckoAPIError in
       fetched inp = Raises e
       /\ cycle X inp w
          = (suspend (AtGetPrice (crypto_ids (mon w))) during_fetch ;;
             logger (ApiError e) ;;
             sleep inp) w)
    /\ (first = CoinGecko.Failed CoinGecko.ConnectTimeout
        \/ first = CoinGecko.Failed CoinGecko.RequestError ->
        fetched inp = Raises CoinGeckoAPIError
        /\ cycle X inp w
           = (suspend (AtGetPrice (crypto_ids (mon w))) during_fetch ;;
              logger (ApiError CoinGeckoAPIError) ;;
              sleep inp) w)
    /\ (forall resp,
          first = CoinGecko.Answered resp ->
          raises_for_status (CoinGecko.status_code resp) = false ->
          fetched inp = CoinGecko.json resp).
Proof.
  intros X rfs http m df ds sds w inp first.
  assert (Hf : fetched inp
               = CoinGecko.fetched_by
                   (CoinGecko.get_price rfs true http (crypto_ids m)
                      ["usd"%string] true true true)) by reflexivity.
  rewrite fetched_by_get_price in Hf. fold first in Hf.
  split; [|split].
  - intros resp Hr Hs e. rewrite Hr, Hs in Hf. fold e in Hf.
    split; [exact Hf|].
    rewrite (@cycle_failed_fetch X inp w e Hf).
    unfold e. destruct (CoinGecko.status_code resp =? 429); reflexivity.
  - intros H.
    assert (Hf' : fetched inp = Raises CoinGeckoAPIError)
      by (destruct H as [H|H]; rewrite H in Hf; exact Hf).
    split; [exact Hf'|].
    now rewrite (@cycle_failed_fetch X inp w CoinGeckoAPIError Hf').
  - intros resp Hr Hs. now rewrite Hr, Hs in Hf.
Qed.

Lemma http_failure_is_an_api_error_of_the_turn_witness :
  fetched (fetching from_400 rate_limited (init two_coins) [] [] false)
  = Raises RateLimitError.
Proof.
  exact (proj1 (proj1 (@http_failure_is_an_api_error_of_the_turn quiet from_400
                         rate_limited (init two_coins) [] [] false
                         (world_of (init two_coins)))
                  _ eq_refl eq_refl)).
Defined.

(** ** The alerts an engine broadcasts *)

Section FineTurnFrame.
Variable X : Externals.
Variable R : World -> World -> Prop.
Hypothesis R_refl : forall w, R w w.
Hypothesis R_trans : forall w1 w2 w3, R w1 w2 -> R w2 w3 -> R w1 w3.
Hypothesis R_log : forall r w, R w (push (Log r) w).
Hypothesis R_clock : forall w, R w (advance w).
Variable P : string -> Prop.
Hypothesis R_check : forall coin d now,
  P coin -> respects R (check_change X coin (new_tick coin d now)).
Hypothesis R_store : forall coin d now,
  P coin -> respects R (store_tick coin (new_tick coin d now)).
Hypothesis R_tick : forall tk,
  respects R (notify_observers X {| tick := Some tk; alert := None |}).

Lemma fine_process_coin pd coin : P coin -> respects R (process_coin X pd coin).
Proof.
  intros HP. unfold process_coin. respects_auto;
    first [ now apply R_check
          | now apply R_store
          | apply R_tick
          | intros w; apply R_clock
          | intros w; apply R_log ].
Qed.
End FineTurnFrame.

Lemma notifications_of_app tr tr' :
  notifications_of (tr ++ tr') = notifications_of tr ++ notifications_of tr'.
Proof. unfold notifications_of. apply flat_map_app. Qed.

(** [check_change], case by case. *)
Lemma check_change_eq X coin tk w :
  check_change X coin tk w
  = match Dict.get coin (latest_ticks (mon w)) with
    | None => (Ok tt, w)
    | Some old =>
        if (price_usd old =? 0)%float
        then (Raise (Exception ZeroDivisionError), w)
        else
          if (threshold (mon w)
              <=? abs (percent_change (price_usd old) (price_usd tk)))%float
          then alert_broadcast X coin tk old w
          else (Ok tt, w)
    end.
Proof.
  unfold check_change, alert_broadcast, percent_change, bind, get_mon, py_truediv.
  destruct (Dict.get coin (latest_ticks (mon w))) as [old|]; [|reflexivity].
  destruct (price_usd old =? 0)%float; [reflexivity|]. cbn [ret].
  destruct (threshold (mon w) <=? _)%float; reflexivity.
Qed.

Section SoundAlerts.
Variable X : Externals.
Variable thr : float.

Let good (n : Notification) : Prop :=
  one_payload n /\ forall a, alert n = Some a -> sound_alert thr a.

Let R (w w' : World) : Prop :=
  threshold (mon w) = thr ->
  threshold (mon w') = thr
  /\ (Forall good (notifications_of (trace w)) ->
      Forall good (notifications_of (trace w'))).

Let R_refl : forall w, R w w.
Proof. intros w H. auto. Qed.

Let R_trans : forall w1 w2 w3, R w1 w2 -> R w2 w3 -> R w1 w3.
Proof.
  intros w1 w2 w3 H1 H2 H. destruct (H1 H) as [Ha Hb].
  destruct (H2 Ha) as [Hc Hd]. auto.
Qed.

Let R_same : forall w w',
  threshold (mon w') = threshold (mon w) ->
  notifications_of (trace w') = notifications_of (trace w) -> R w w'.
Proof. intros w w' Ht Hn H. rewrite Ht, Hn. auto. Qed.

Let R_push : forall e w,
  match e with Notify n => good n | _ => True end -> R w (push e w).
Proof.
  intros e w He H. split; [exact H|]. cbn [push trace].
  rewrite notifications_of_app. intros Hg. apply Forall_app. split; [exact Hg|].
  destruct e as [r|n|p m]; cbn; auto.
Qed.

Let R_suspend : forall p ops, respects R (suspend p ops).
Proof.
  intros p ops w. apply R_same; [reflexivity|].
  rewrite trace_suspend, notifications_of_app. cbn. apply app_nil_r.
Qed.

Let R_hub : forall n, good n -> respects R (notify_observers X n).
Proof.
  intros n Hn. apply hub_notify_observers with (N := good); auto;
    intros n' w Hn'; now apply R_push.
Qed.

Lemma sound_check_change coin d now :
  respects R (check_change X coin (new_tick coin d now)).
Proof.
  intros w. rewrite check_change_eq.
  destruct (Dict.get coin (latest_ticks (mon w))) as [old|]; [|now apply R_refl].
  destruct (price_usd old =? 0)%float eqn:Ez; [now apply R_refl|].
  cbv zeta.
  destruct (threshold (mon w) <=? abs _)%float eqn:Et; [|now apply R_refl].
  intros Hthr.
  assert (Hr : respects R (alert_broadcast X coin (new_tick coin d now) old)).
  { unfold alert_broadcast. respects_auto;
      first [ apply R_hub; split; [exact I|]; intros a' [= <-];
              rewrite Hthr in Et; repeat split; cbn; now auto
            | intros w0; now apply R_same
            | intros w0; now apply R_push ]. }
  exact (Hr w Hthr).
Qed.

Lemma sound_turn pd coin : respects R (process_coin X pd coin).
Proof.
  apply fine_process_coin with (P := fun _ => True); auto;
    first [ intros; apply sound_check_change
          | intros tk; apply R_hub; split; [exact I | discriminate]
          | intros c d now _ w; apply R_same;
            [|now rewrite trace_store_tick];
            unfold store_tick, bind, modify_mon, get_mon; simpl;
            destruct (Dict.get c (price_history (mon w))); reflexivity
          | intros; now apply R_push
          | intros w; now apply R_same ].
Qed.

Lemma sound_run calls w : R w (run X calls w).
Proof.
  apply loop_run with (O := fun _ => True) (P := fun _ => True); auto;
    first [ intros pd c _; apply sound_turn
          | intros w0 w' H; apply H; apply Forall_forall; exact (fun _ _ => I)
          | apply pass_calculate_statistics; auto;
            intros; first [now apply R_push | now apply R_same]
          | intros; now apply R_push
          | intros; apply R_suspend
          | intros; now apply R_same
          | idtac ].
  apply Forall_forall. intros [| |op|inputs] _; simpl; auto.
  apply Forall_forall. intros inp _. split; apply Forall_forall; auto.
Qed.
End SoundAlerts.

Lemma alerts_of_notifications tr a :
  In a (alerts_of tr) <-> exists n, In n (notifications_of tr) /\ alert n = Some a.
Proof.
  unfold alerts_of, notifications_of. rewrite in_flat_map. split.
  - intros [e [He Ha]]. destruct e as [r|[t [a'|]]|p m]; simpl in Ha; try tauto.
    destruct Ha as [<-|[]]. exists {| tick := t; alert := Some a' |}.
    split; [|reflexivity]. apply in_flat_map. exists (Notify {| tick := t; alert := Some a' |}).
    split; [assumption | now left].
  - intros [n [Hn Ha]]. apply in_flat_map in Hn. destruct Hn as [e [He Hn]].
    destruct e as [r|n'|p m]; simpl in Hn; try tauto. destruct Hn as [<-|[]].
    exists (Notify n'). split; [assumption|]. destruct n' as [t al]. simpl in *.
    subst al. now left.
Qed.

(** X13. Whatever is called on an engine since its construction, every
    alert it has handed to the hub is one the policy makes: its symbol is
    its instrument's id, its old price is not zero, its change is the
    percent change from the old price to the new one, of a magnitude that
    reaches the configured threshold, and its type is [PRICE_INCREASE]
    when the change is positive and [PRICE_DECREASE] otherwise; the three
    other types are never used.  And every notification carries a tick
    or an alert, never both and never neither. *)
Theorem broadcast_alerts_are_sound :
  forall (X : Externals) (s : Settings) (calls : list Call),
    let tr := trace (run X calls (world_of (init s))) in
    Forall (fun a =>
              alert_symbol a = alert_coin_id a
              /\ (old_price_usd a =? 0)%float = false
              /\ change_percent a
                 = percent_change (old_price_usd a) (new_price_usd a)
              /\ (PRICE_CHANGE_THRESHOLD_PERCENT s <=? abs (change_percent a))%float
                 = true
              /\ alert_type a = (if (0 <? change_percent a)%float
                                 then PRICE_INCREASE else PRICE_DECREASE)
              /\ alert_type a <> VOLATILITY
              /\ alert_type a <> VOLUME_SPIKE
              /\ alert_type a <> MARKET_CAP_CHANGE)
      (alerts_of tr)
    /\ Forall one_payload (notifications_of tr).
Proof.
  intros X s calls tr.
  destruct (@sound_run X (PRICE_CHANGE_THRESHOLD_PERCENT s) calls
              (world_of (init s)) eq_refl) as [_ H].
  specialize (H (Forall_nil _)). fold tr in H. split.
  - apply Forall_forall. intros a Ha. apply alerts_of_notifications in Ha.
    destruct Ha as [n [Hn Ha]]. rewrite Forall_forall in H.
    destruct (H n Hn) as [_ Hs]. destruct (Hs a Ha) as (H1 & H2 & H3 & H4 & H5).
    repeat split; auto; rewrite H5; destruct (0 <? change_percent a)%float;
      discriminate.
  - eapply Forall_impl; [|exact H]. now intros n [Hn _].
Qed.
(** ** What an observer finds when it is called *)

Lemma bind_at {A B} (R : World -> World -> Prop) (c : M A) (k : A -> M B) w :
  (forall w1 w2 w3, R w1 w2 -> R w2 w3 -> R w1 w3) ->
  R w (snd (c w)) ->
  (forall a, R (snd (c w)) (snd (k a (snd (c w))))) ->
  R w (snd (bind c k w)).
Proof.
  intros Ht H1 H2. unfold bind. destruct (c w) as [[a|e] w']; simpl in *.
  - eapply Ht; [exact H1 | apply H2].
  - exact H1.
Qed.

Lemma latest_store_tick coin tk w :
  latest_ticks (mon (snd (store_tick coin tk w)))
  = Dict.set coin tk (latest_ticks (mon w)).
Proof.
  unfold store_tick, bind, modify_mon, get_mon. simpl.
  destruct (Dict.get coin (price_history (mon w))); reflexivity.
Qed.

Section Deliveries.
Variable X : Externals.

Let R (w w' : World) : Prop :=
  Forall delivery_ok (trace w) -> Forall delivery_ok (trace w').

Let R_refl : forall w, R w w.
Proof. intros w H. exact H. Qed.

Let R_trans : forall w1 w2 w3, R w1 w2 -> R w2 w3 -> R w1 w3.
Proof. intros w1 w2 w3 H1 H2 H. auto. Qed.

Let R_same : forall w w', trace w' = trace w -> R w w'.
Proof. intros w w' E H. now rewrite E. Qed.

Let R_push : forall e w, delivery_ok e -> R w (push e w).
Proof.
  intros e w He H. cbn [push trace]. apply Forall_app. split; [exact H|].
  now constructor.
Qed.

(** A broadcast, from a world where the notification is as it should be
    seen. *)
Lemma deliveries_notify n w :
  seen_with n (mon w) -> R w (snd (notify_observers X n w)).
Proof.
  set (Rn := fun w w' : World =>
               latest_ticks (mon w') = latest_ticks (mon w)
               /\ (seen_with n (mon w) -> R w w')).
  assert (Hn : respects Rn (notify_observers X n)).
  { apply hub_notify_observers with (N := eq n); unfold Rn.
    - intros w0. split; [reflexivity | intros _; apply R_refl].
    - intros w1 w2 w3 [Hl1 H1] [Hl2 H2]. split; [congruence|].
      intros Hs. eapply R_trans; [now apply H1 | apply H2].
      unfold seen_with in *. now rewrite Hl1.
    - intros n' w0 _. split; [reflexivity|]. intros _. now apply R_push.
    - intros o n' ops <- w0. split; [reflexivity|]. intros Hs H.
      rewrite trace_suspend. apply Forall_app. split; [exact H|].
      constructor; [exact Hs | constructor].
    - reflexivity. }
  intros Hs. now apply (Hn w).
Qed.

Lemma deliveries_check_change coin tk : respects R (check_change X coin tk).
Proof.
  intros w. rewrite check_change_eq.
  destruct (Dict.get coin (latest_ticks (mon w))) as [old|] eqn:Eo;
    [|apply R_refl].
  destruct (price_usd old =? 0)%float; [apply R_refl|].
  destruct (_ <=? _)%float; [|apply R_refl].
  unfold alert_broadcast. cbv zeta.
  apply bind_at; [exact R_trans | now apply R_same |]. intros ts.
  apply bind_at; [exact R_trans | | intros _; now apply R_push].
  apply deliveries_notify. split; [discriminate|].
  intros a [= <-]. exists old. split; [exact Eo | reflexivity].
Qed.

Lemma deliveries_turn pd coin : respects R (process_coin X pd coin).
Proof.
  intros w. unfold process_coin.
  destruct (Dict.get coin pd) as [d|]; [|now apply R_push].
  apply bind_at; [exact R_trans | now apply R_same |]. intros now.
  apply bind_at; [exact R_trans | apply deliveries_check_change |]. intros _.
  apply bind_at; [exact R_trans | apply R_same; apply trace_store_tick |].
  intros _. apply deliveries_notify. split; [|discriminate].
  intros tk [= <-]. rewrite latest_store_tick. apply DictFacts.get_set_eq.
Qed.

Lemma deliveries_run calls w : R w (run X calls w).
Proof.
  apply loop_run with (O := fun _ => True) (P := fun _ => True); auto;
    first [ intros pd c _; apply deliveries_turn
          | intros w0 w' H; apply H; apply Forall_forall; exact (fun _ _ => I)
          | apply pass_calculate_statistics; auto;
            intros; first [now apply R_push | now apply R_same]
          | intros; now apply R_push
          | intros; now apply R_same
          | idtac ].
  - intros p ops Hp _ w0 H. rewrite trace_suspend.
    apply Forall_app. split; [exact H|]. constructor; [|constructor].
    destruct p; simpl; auto. contradiction.
  - apply Forall_forall. intros [| |op|inputs] _; simpl; auto.
    apply Forall_forall. intros inp _. split; apply Forall_forall; auto.
Qed.
End Deliveries.

(** X14. Whatever is called on an engine since its construction, each
    time an observer was handed a notification the engine was in step with
    it.  Handed a tick, the observer finds that tick stored as the latest
    tick of its instrument; handed an alert, it finds the tick the change
    was computed from still the latest of the instrument, at the alert's
    old price: the alert goes out before its tick is stored. *)
Theorem observers_find_the_engine_in_step :
  forall (X : Externals) (s : Settings) (calls : list Call)
         (o : Observer) (n : Notification) (m : PriceMonitor),
    In (Suspend (AtUpdate o n) m) (trace (run X calls (world_of (init s)))) ->
    (forall tk, tick n = Some tk ->
                Dict.get (coin_id tk) (latest_ticks m) = Some tk)
    /\ (forall a, alert n = Some a ->
          exists old,
            Dict.get (alert_coin_id a) (latest_ticks m) = Some old
            /\ price_usd old = old_price_usd a).
Proof.
  intros X s calls o n m Hin.
  pose proof (@deliveries_run X calls (world_of (init s)) (Forall_nil _)) as H.
  rewrite Forall_forall in H. exact (H _ Hin).
Qed.

Lemma observers_find_the_engine_in_step_witness :
  Dict.get "bitcoin" (latest_ticks at_first_delivery)
  = Some (new_tick "bitcoin" [("usd"%string, 100%float)] 0).
Proof.
  refine (proj1 (@observers_find_the_engine_in_step quiet two_coins
                   [CallRegistry (Register 1); CallStart;
                    LoopTurns [quotes 100 10]]
                   1 tick_event at_first_delivery _) _ eq_refl).
  vm_compute. repeat (first [left; reflexivity | right]).
Defined.

(** ** The observer of the WebSocket endpoint *)

Lemma websocket_update send n :
  Router.update send (Router.kwargs n)
  = match tick n with
    | Some tk => send (Router.OfTick tk)
    | None => Raises AttributeError
    end.
Proof. destruct n as [[tk|] a]; reflexivity. Qed.

(** The broadcast of an alert when the first observer of the registry
    raises on it. *)
Lemma notify_first_raises X n w o rest e :
  _observers (mon w) = o :: rest ->
  snd (update X o n) = Raises e ->
  let r := notify_observers X n w in
  fst r = Raise (Exception e)
  /\ latest_ticks (mon (snd r)) = latest_ticks (mon w)
  /\ price_history (mon (snd r)) = price_history (mon w)
  /\ trace (snd r) = trace w ++ [Notify n; Suspend (AtUpdate o n) (mon w)].
Proof.
  intros Hobs He r. unfold r.
  rewrite (@notify_reaches X n w [] o rest Hobs (fun _ (H : In _ []) => match H with end)).
  unfold bind. rewrite call_update_spec, He. cbn.
  repeat split. now rewrite <- app_assoc.
Qed.

(** X15. The observer of the WebSocket endpoint reads the tick of every
    notification: it sends the tick when there is one and raises
    [AttributeError] when there is none, so it never sends an alert.  With
    such an observer first in the registry, the turn of an instrument whose
    price moved by the threshold or more raises [AttributeError] at the
    broadcast of the alert: the instrument's latest tick and buffer stay
    as they were, and no tick is broadcast. *)
Theorem websocket_observer_fails_on_alerts :
  (forall send n,
     Router.update send (Router.kwargs n)
     = match tick n with
       | Some tk => send (Router.OfTick tk)
       | None => Raises AttributeError
       end)
  /\ (forall (X : Externals) send pd coin d old o rest (w : World),
        Dict.get coin pd = Some d ->
        Dict.get coin (latest_ticks (mon w)) = Some old ->
        (price_usd old =? 0)%float = false ->
        (threshold (mon w)
         <=? abs (percent_change (price_usd old) (get_default "usd" 0%float d)))%float
        = true ->
        _observers (mon w) = o :: rest ->
        (forall n, snd (update X o n) = Router.update send (Router.kwargs n)) ->
        let r := process_coin X pd coin w in
        fst r = Raise (Exception AttributeError)
        /\ latest_ticks (mon (snd r)) = latest_ticks (mon w)
        /\ price_history (mon (snd r)) = price_history (mon w)
        /\ updates_of (trace (snd r))
           = updates_of (trace w)
             ++ [(o, {| tick := None;
                        alert := Some {| alert_coin_id := coin;
                                         alert_symbol := coin;
                                         alert_type :=
                                           if (0 <? percent_change (price_usd old)
                                                      (get_default "usd" 0%float d))%float
                                           then PRICE_INCREASE else PRICE_DECREASE;
                                         old_price_usd := price_usd old;
                                         new_price_usd := get_default "usd" 0%float d;
                                         change_percent :=
                                           percent_change (price_usd old)
                                             (get_default "usd" 0%float d);
                                         alert_timestamp := S (clock w) |} |})]
        /\ Forall (fun n => tick n = None)
             (skipn (length (notifications_of (trace w)))
                (notifications_of (trace (snd r))))).
Proof.
  split; [exact websocket_update|].
  intros X send pd coin d old o rest w Hd Hold Hz Ht Hobs Hws r. unfold r.
  clear r. remember (process_coin X pd coin w) as res eqn:E.
  unfold process_coin in E. rewrite Hd in E. unfold bind at 1 in E.
  cbn [datetime_now] in E. unfold bind at 1 in E.
  rewrite check_change_eq in E. cbn [advance mon] in E.
  rewrite Hold, Hz in E.
  change (price_usd (new_tick coin d (clock w)))
    with (get_default "usd" 0%float d) in E.
  rewrite Ht in E. unfold alert_broadcast in E. cbv zeta in E.
  unfold bind at 1 in E. cbn [datetime_now] in E. unfold bind at 1 in E.
  change (price_usd (new_tick coin d (clock w)))
    with (get_default "usd" 0%float d) in E.
  change (symbol (new_tick coin d (clock w))) with coin in E.
  change (clock (advance w)) with (S (clock w)) in E.
  set (n := {| tick := None; alert := Some _ |}) in *.
  set (w2 := advance (advance w)) in *.
  assert (He : snd (update X o n) = Raises AttributeError).
  { rewrite Hws, websocket_update. reflexivity. }
  destruct (@notify_first_raises X n w2 o rest AttributeError Hobs He)
    as (Hr & Hl & Hh & Htr).
  destruct (notify_observers X n w2) as [res' w3]. cbn [fst snd] in *.
  subst res' res. cbn [fst snd].
  split; [reflexivity|]. split; [exact Hl|]. split; [exact Hh|].
  rewrite Htr. unfold w2. cbn [advance trace mon]. split.
  - rewrite updates_of_app. reflexivity.
  - rewrite notifications_of_app, skipn_app, Nat.sub_diag, skipn_all.
    cbn. repeat constructor.
Qed.

Lemma websocket_observer_fails_on_alerts_witness :
  fst (process_coin websocket_observers [usd "bitcoin" 102] "bitcoin"
         before_both_moved)
  = Raise (Exception AttributeError).
Proof.
  refine (proj1 (proj2 websocket_observer_fails_on_alerts
                   websocket_observers (fun _ => Returns tt)
                   [usd "bitcoin" 102] "bitcoin"%string [("usd"%string, 102%float)]
                   (new_tick "bitcoin" [("usd"%string, 100%float)] 0) 1 []
                   before_both_moved _ _ _ _ _ _)).
  - reflexivity.
  - vm_compute. reflexivity.
  - vm_compute. reflexivity.
  - vm_compute. reflexivity.
  - vm_compute. reflexivity.
  - intros [[tk|] a]; reflexivity.
Defined.

(** ** The demonstration monitor *)

Lemma notifications_of_delivered n l w :
  notifications_of (trace (delivered n l w)) = notifications_of (trace w).
Proof.
  rewrite trace_delivered, notifications_of_app.
  induction l as [|o l IH]; simpl; [apply app_nil_r | exact IH].
Qed.

Lemma clock_delivered n l : forall w, clock (delivered n l w) = clock w.
Proof.
  induction l as [|o l IH]; intros w; [reflexivity|].
  change (delivered n (o :: l) w)
    with (delivered n l (push (Suspend (AtUpdate o n) (mon w)) w)).
  now rewrite IH.
Qed.

(** X16. [actualizar_precio] of the demonstration monitor, its observers
    taking what they are handed.  On a current price of zero it raises
    [ZeroDivisionError] and changes nothing.  Otherwise it records the new
    price and the new tick, then broadcasts the tick first and, only when
    the magnitude of the percent change is strictly greater than 2.0, an
    alert after it, of the kind the sign of the change gives; a change of
    magnitude 2.0 or less broadcasts the tick alone. *)
Theorem demo_monitor_sends_the_tick_then_the_alert :
  forall (X : Externals) (nuevo_precio : float)
         (self : Demo.MonitorPreciosBitcoin) (w : World),
    (forall n o, In o (_observers (mon w)) -> takes X n o) ->
    let anterior := Demo.precio_actual self in
    let cambio := percent_change anterior nuevo_precio in
    let tk := {| coin_id := Demo.demo_coin_id self;
                 symbol := Demo.demo_symbol self;
                 price_usd := nuevo_precio;
                 market_cap_usd := None;
                 volume_24h_usd := None;
                 price_change_24h_percent := Some cambio;
                 timestamp := clock w |} in
    let alerta := {| alert_coin_id := Demo.demo_coin_id self;
                     alert_symbol := Demo.demo_symbol self;
                     alert_type := if (0 <? cambio)%float
                                   then PRICE_INCREASE else PRICE_DECREASE;
                     old_price_usd := anterior;
                     new_price_usd := nuevo_precio;
                     change_percent := cambio;
                     alert_timestamp := S (clock w) |} in
    let r := Demo.actualizar_precio X nuevo_precio self w in
    ((anterior =? 0)%float = true ->
     r = (Raise (Exception ZeroDivisionError), (self, w)))
    /\ ((anterior =? 0)%float = false ->
        fst r = Ok tt
        /\ Demo.precio_actual (fst (snd r)) = nuevo_precio
        /\ Demo.ultimo_tick (fst (snd r)) = Some tk
        /\ _observers (mon (snd (snd r))) = _observers (mon w)
        /\ notifications_of (trace (snd (snd r)))
           = notifications_of (trace w)
             ++ {| tick := Some tk; alert := None |}
                :: (if (2 <? abs cambio)%float
                    then [{| tick := None; alert := Some alerta |}]
                    else [])).
Proof.
  intros X nuevo self w Htakes anterior cambio tk alerta r.
  unfold r. clear r.
  remember (Demo.actualizar_precio X nuevo self w) as res eqn:E.
  unfold Demo.actualizar_precio in E. fold anterior in E.
  split; intros Hz; rewrite Hz in E; [exact E|].
  cbv zeta in E. fold (percent_change anterior nuevo) in E. fold cambio in E.
  fold tk in E. unfold Demo.broadcasts in E.
  cbn [Demo.demo_coin_id Demo.demo_symbol] in E.
  set (n1 := {| tick := Some tk; alert := None |}) in *.
  unfold bind at 1 in E.
  rewrite notify_all_take in E by (intros o Ho; now apply Htakes).
  cbn [advance mon] in E.
  set (w1 := delivered n1 _ _) in E.
  assert (Hm1 : mon w1 = mon w) by (unfold w1; now rewrite mon_delivered).
  assert (Hc1 : clock w1 = S (clock w))
    by (unfold w1; now rewrite clock_delivered).
  assert (Hn1 : notifications_of (trace w1) = notifications_of (trace w) ++ [n1]).
  { unfold w1. rewrite notifications_of_delivered. cbn [push trace advance].
    now rewrite notifications_of_app. }
  destruct (2 <? abs cambio)%float.
  - unfold bind at 1 in E. cbn [datetime_now] in E. rewrite Hc1 in E.
    fold alerta in E.
    set (n2 := {| tick := None; alert := Some alerta |}) in *.
    rewrite notify_all_take in E
      by (intros o Ho; apply Htakes; cbn [advance mon] in Ho; now rewrite Hm1 in Ho).
    set (w2 := delivered n2 _ _) in E.
    assert (Hm2 : mon w2 = mon w)
      by (unfold w2; rewrite mon_delivered; exact Hm1).
    assert (Hn2 : notifications_of (trace w2)
                  = notifications_of (trace w) ++ [n1; n2]).
    { unfold w2. rewrite notifications_of_delivered. cbn [push trace advance].
      rewrite notifications_of_app, Hn1, <- app_assoc. reflexivity. }
    subst res. cbn [fst snd]. rewrite Hm2, Hn2. repeat split.
  - cbn [ret] in E. subst res. cbn [fst snd]. rewrite Hm1, Hn1. repeat split.
Qed.

Lemma demo_monitor_sends_the_tick_then_the_alert_witness :
  fst (Demo.actualizar_precio quiet 52000 Demo.init two_subscribers) = Ok tt.
Proof.
  refine (proj1 (proj2 (@demo_monitor_sends_the_tick_then_the_alert quiet 52000
                          Demo.init two_subscribers _)
                   eq_refl)).
  intros n o _. reflexivity.
Defined.

(** ** A turn cut short at an instrument *)

Lemma fetch_eq X inp pd w :
  fetched inp = Returns pd ->
  _fetch_and_process_prices X inp w
  = for_each (crypto_ids (mon w)) (process_coin X pd)
      (snd (suspend (AtGetPrice (crypto_ids (mon w))) (during_fetch inp) w)).
Proof.
  intros Hf. unfold _fetch_and_process_prices, bind. rewrite Hf. reflexivity.
Qed.

(** X17. An exception at one instrument ends the turn for those after
    it.  When the response was received, the turns of the instruments
    before one returned and the turn of that one raises an exception (a
    handler that raises, a division by zero), nothing more is done in the
    turn but to log the error, as an API error if it is one and as
    unexpected otherwise, and to sleep: the instruments that follow in the
    configured order are not processed and the statistics are not
    computed. *)
Theorem failing_instrument_ends_the_turn :
  forall (X : Externals) (inp : CycleInput) (pd : Dict.t (Dict.t float))
         (ids1 : list string) (coin : string) (ids2 : list string)
         (e : error) (w w1 w2 : World),
    fetched inp = Returns pd ->
    crypto_ids (mon w) = ids1 ++ coin :: ids2 ->
    for_each ids1 (process_coin X pd)
      (snd (suspend (AtGetPrice (crypto_ids (mon w))) (during_fetch inp) w))
    = (Ok tt, w1) ->
    process_coin X pd coin w1 = (Raise (Exception e), w2) ->
    cycle X inp w
    = (logger (if is_CoinGeckoAPIError e then ApiError e else UnexpectedError e) ;;
       sleep inp) w2
    /\ latest_stats (mon (snd (cycle X inp w))) = latest_stats (mon w2)
    /\ latest_ticks (mon (snd (cycle X inp w))) = latest_ticks (mon w2)
    /\ price_history (mon (snd (cycle X inp w))) = price_history (mon w2).
Proof.
  intros X inp pd ids1 coin ids2 e w w1 w2 Hf Hids H1 H2.
  assert (E : cycle X inp w
              = (logger (if is_CoinGeckoAPIError e
                         then ApiError e else UnexpectedError e) ;;
                 sleep inp) w2).
  { unfold cycle. unfold bind at 1. unfold try_except. unfold bind at 1.
    rewrite (@fetch_eq X inp pd w Hf), Hids, for_each_app.
    rewrite <- Hids. unfold bind at 1. rewrite H1.
    cbn [for_each]. unfold bind at 1. rewrite H2.
    destruct (is_CoinGeckoAPIError e); reflexivity. }
  split; [exact E|]. rewrite E.
  set (R := fun w w' : World =>
              latest_stats (mon w') = latest_stats (mon w)
              /\ latest_ticks (mon w') = latest_ticks (mon w)
              /\ price_history (mon w') = price_history (mon w)).
  assert (Hrefl : forall w0, R w0 w0) by (intros w0; repeat split).
  assert (Htrans : forall a b c, R a b -> R b c -> R a c).
  { intros a b c (A1 & A2 & A3) (B1 & B2 & B3). repeat split; congruence. }
  assert (Hstop : respects R stop).
  { apply (@loop_stop R) with (O := fun _ => True); auto;
      intros; try intros w0; repeat split. }
  assert (Hr : respects R
                 (logger (if is_CoinGeckoAPIError e
                          then ApiError e else UnexpectedError e) ;;
                  sleep inp)).
  { unfold sleep. respects_auto;
      first [ exact Hstop | intros w0; repeat split ]. }
  exact (Hr w2).
Qed.

Lemma failing_instrument_ends_the_turn_witness :
  latest_ticks (mon (snd (cycle websocket_observers (quotes 102 11)
                            before_both_moved)))
  = latest_ticks
      (mon (snd (process_coin websocket_observers
                   [usd "bitcoin" 102; usd "ethereum" 11] "bitcoin"
                   (snd (suspend (AtGetPrice ["bitcoin"; "ethereum"]%string) []
                           before_both_moved))))).
Proof.
  refine (proj1 (proj2 (proj2
    (@failing_instrument_ends_the_turn websocket_observers (quotes 102 11)
       [usd "bitcoin" 102; usd "ethereum" 11] [] "bitcoin"%string
       ["ethereum"%string] AttributeError before_both_moved
       (snd (suspend (AtGetPrice ["bitcoin"; "ethereum"]%string) []
               before_both_moved))
       (snd (process_coin websocket_observers
               [usd "bitcoin" 102; usd "ethereum" 11] "bitcoin"
               (snd (suspend (AtGetPrice ["bitcoin"; "ethereum"]%string) []
                       before_both_moved))))
       eq_refl _ _ _)))).
  - vm_compute. reflexivity.
  - vm_compute. reflexivity.
  - vm_compute. reflexivity.
Defined.

(** ** The queries and the life cycle *)

Lemma maps_start_stop w :
  (latest_stats (mon (snd (stop w))) = latest_stats (mon w)
   /\ latest_ticks (mon (snd (stop w))) = latest_ticks (mon w))
  /\ (latest_stats (mon (snd (start w))) = latest_stats (mon w)
      /\ latest_ticks (mon (snd (start w))) = latest_ticks (mon w)).
Proof.
  set (R := fun w w' : World =>
              latest_stats (mon w') = latest_stats (mon w)
              /\ latest_ticks (mon w') = latest_ticks (mon w)).
  assert (Hrefl : forall w0, R w0 w0) by (intros w0; split; reflexivity).
  assert (Htrans : forall a b c, R a b -> R b c -> R a c).
  { intros a b c (A1 & A2) (B1 & B2). split; congruence. }
  split.
  - apply (@loop_stop R) with (O := fun _ => True); auto;
      intros; try intros w0; split; reflexivity.
  - apply (@loop_start R); auto; intros; try intros w0; split; reflexivity.
Qed.

Lemma is_running_start w : is_running (mon (snd (start w))) = true.
Proof.
  destruct (is_running (mon w)) eqn:E.
  - rewrite start_running by assumption. exact E.
  - rewrite start_stopped by assumption. reflexivity.
Qed.

(** X18. The queries across [stop()] and [start()].  Once the engine is
    stopped, the query of all prices is refused with 503, while the price
    of one instrument and the statistics are served as before the stop,
    from what was last stored; and once it is started, again or for the
    first time, the query of all prices serves the latest ticks that were
    there, before any new turn has run. *)
Theorem queries_across_stop_and_start :
  forall (w : World) (coin : string),
    let stopped := mon (snd (stop w)) in
    let started := mon (snd (start w)) in
    Router.get_current_prices stopped = Router.HTTPException 503
    /\ Router.get_coin_price stopped coin = Router.get_coin_price (mon w) coin
    /\ Router.get_statistics stopped = Router.get_statistics (mon w)
    /\ Router.get_coin_statistics stopped coin
       = Router.get_coin_statistics (mon w) coin
    /\ Router.get_current_prices started = Router.Reply (latest_ticks (mon w))
    /\ Router.get_current_prices (mon (snd (start (snd (stop w)))))
       = Router.Reply (latest_ticks (mon w)).
Proof.
  intros w coin stopped started.
  destruct (maps_start_stop w) as [[Hs1 Hs2] [Hs3 Hs4]].
  destruct (maps_start_stop (snd (stop w))) as [_ [_ Hs5]].
  unfold Router.get_current_prices, Router.get_coin_price,
    Router.get_statistics, Router.get_coin_statistics, stopped, started.
  rewrite is_running_stop, !is_running_start, Hs1, Hs2, Hs4, Hs5, Hs2.
  repeat split.
Qed.

(** ** Statistics need two ticks *)

Lemma deque_len_append {A} (dq : deque A) (x : A) :
  deque_len dq <= deque_len (deque_append dq x).
Proof.
  unfold deque_len, deque_append. cbn [items].
  destruct (_ <? _).
  - destruct (items dq ++ [x]) as [|y l] eqn:E.
    + destruct (items dq); discriminate.
    + apply (f_equal (@length A)) in E. rewrite length_app in E. simpl in *. lia.
  - rewrite length_app. simpl. lia.
Qed.

Lemma In_set_append (c coin : string) (dq q : deque CryptoTick) tk H :
  Dict.get c H = Some dq ->
  In (coin, q) H ->
  exists q', In (coin, q') (Dict.set c (deque_append dq tk) H)
             /\ deque_len q <= deque_len q'.
Proof.
  induction H as [|[k v] H IH]; simpl; [discriminate|].
  intros Hget Hin. destruct (String.eqb_spec c k) as [->|Hne].
  - injection Hget as ->. destruct Hin as [[= <- <-]|Hin].
    + exists (deque_append dq tk). split; [now left | apply deque_len_append].
    + exists q. split; [now right | lia].
  - destruct Hin as [[= <- <-]|Hin].
    + exists v. split; [now left | lia].
    + destruct (IH Hget Hin) as (q' & Hq' & Hlen). exists q'. split; [now right | exact Hlen].
Qed.

Lemma get_of_In {V} (k : string) (v : V) (d : Dict.t V) :
  NoDup (Dict.keys d) -> In (k, v) d -> Dict.get k d = Some v.
Proof.
  induction d as [|[k' v'] d IH]; simpl; [tauto|].
  intros Hnd Hin. inversion Hnd as [|? ? Hout Hnd']; subst.
  destruct Hin as [[= -> ->]|Hin].
  - now rewrite String.eqb_refl.
  - destruct (String.eqb_spec k k') as [->|Hne]; [|auto].
    exfalso. apply Hout. change (In (fst (k', v)) (map fst d)). now apply in_map.
Qed.

Section StatisticsHaveHistory.
Variable X : Externals.

Let R (w w' : World) : Prop :=
  statistics_have_history (mon w) -> statistics_have_history (mon w').

Let R_refl : forall w, R w w.
Proof. intros w H. exact H. Qed.

Let R_trans : forall w1 w2 w3, R w1 w2 -> R w2 w3 -> R w1 w3.
Proof. intros w1 w2 w3 H1 H2 H. auto. Qed.

Let R_same : forall w w',
  latest_stats (mon w') = latest_stats (mon w) ->
  price_history (mon w') = price_history (mon w) -> R w w'.
Proof. unfold R, statistics_have_history. intros w w' -> ->. auto. Qed.

Let R_store : forall coin tk, respects R (store_tick coin tk).
Proof.
  intros coin tk w H c Hc.
  unfold store_tick, bind, modify_mon, get_mon in *. simpl in *.
  destruct (Dict.get coin (price_history (mon w))) as [dq|] eqn:E; simpl in *.
  - destruct (H c Hc) as (q & Hq & Hlen).
    destruct (@In_set_append coin c dq q tk _ E Hq) as (q' & Hq' & Hlen').
    exists q'. split; [exact Hq' | lia].
  - now apply H.
Qed.

Lemma have_history_pass : respects R (_calculate_statistics X).
Proof.
  intros w. unfold _calculate_statistics, bind, get_mon. cbn [fst snd].
  set (H := price_history (mon w)).
  set (RH := fun w w' : World =>
               price_history (mon w) = H ->
               price_history (mon w') = H /\ R w w').
  assert (Hp : respects RH (for_each H (statistics_step X))).
  { apply respects_for_each.
    - intros w0 E. split; [exact E | apply R_refl].
    - intros w1 w2 w3 H1 H2 E. destruct (H1 E) as [E2 Ha].
      destruct (H2 E2) as [E3 Hb]. split; [exact E3|]. eapply R_trans; eauto.
    - intros [coin history] Hin w0 E. rewrite statistics_step_spec.
      destruct (deque_len history <? 2) eqn:Elen; [split; [exact E | apply R_refl]|].
      destruct (statistics_pure X _ coin _) as [f|e].
      + split; [exact E|]. intros Hinv c Hc. cbn in Hc |- *.
        apply DictFacts.In_keys_set in Hc. destruct Hc as [->|Hc]; [|now apply Hinv].
        exists history. rewrite E. split; [exact Hin|].
        now apply Nat.ltb_ge in Elen.
      + split; [exact E|]. now apply R_same. }
  exact (proj2 (Hp w eq_refl)).
Qed.

Lemma have_history_run calls w : R w (run X calls w).
Proof.
  apply loop_run with (O := fun _ => True) (P := fun _ => True); auto;
    first [ intros pd c _; apply turn_process_coin with (P := fun _ => True);
            auto;
            first [ intros n; apply hub_notify_observers with (N := fun _ => True);
                    auto; intros; try intros w1; now apply R_same
                  | intros; now apply R_store
                  | intros; now apply R_same ]
          | intros w0 w' H; apply H; apply Forall_forall; exact (fun _ _ => I)
          | apply have_history_pass
          | intros; try intros w1; now apply R_same
          | idtac ].
  apply Forall_forall. intros [| |op|inputs] _; simpl; auto.
  apply Forall_forall. intros inp _. split; apply Forall_forall; auto.
Qed.
End StatisticsHaveHistory.

(** X19. Whatever is called on an engine since its construction, an
    instrument has statistics only if its buffer holds two ticks at least:
    nothing is computed for an instrument seen once, and its statistics
    query is refused until its second tick is stored. *)
Theorem statistics_need_two_ticks :
  forall (X : Externals) (s : Settings) (calls : list Call) (coin : string),
    let m := mon (run X calls (world_of (init s))) in
    (forall st,
       Dict.get coin (latest_stats m) = Some st ->
       exists dq, Dict.get coin (price_history m) = Some dq
                  /\ 2 <= deque_len dq)
    /\ (forall dq,
          Dict.get coin (price_history m) = Some dq ->
          deque_len dq < 2 ->
          Router.get_coin_statistics m coin = Router.HTTPException 404).
Proof.
  intros X s calls coin m.
  assert (Hinv : engine_inv s (run X calls (world_of (init s))))
    by (apply engine_inv_run; apply engine_inv_init).
  destruct Hinv as ((Hnd & _) & _). fold m in Hnd.
  assert (Hh : statistics_have_history m).
  { apply (@have_history_run X calls (world_of (init s))). intros c []. }
  assert (H1 : forall st, Dict.get coin (latest_stats m) = Some st ->
                 exists dq, Dict.get coin (price_history m) = Some dq
                            /\ 2 <= deque_len dq).
  { intros st Hst. destruct (Hh coin) as (dq & Hin & Hlen).
    - apply DictFacts.get_In_keys. eauto.
    - exists dq. split; [now apply get_of_In | exact Hlen]. }
  split; [exact H1|].
  intros dq Hdq Hlen.
  destruct (get_coin_statistics_cases m coin) as [[st Hst]|H404]; [|exact H404].
  exfalso. unfold Router.get_coin_statistics in Hst.
  destruct (latest_stats m) as [|p d] eqn:E; [discriminate|].
  destruct (Dict.get coin (p :: d)) as [st'|] eqn:Eg; [|discriminate].
  destruct (H1 st' eq_refl) as (dq' & Hdq' & Hlen'). rewrite Hdq in Hdq'.
  injection Hdq' as <-. lia.
Qed.
